(** * PdbScanner: a shallow embedding of ddr/lib/ddr-scanner/pdb/PdbScanner.cpp

    The scanner reads type declarations from PDB debug information through
    the DIA interface and builds the DDR intermediate representation: a
    registry of types keyed by qualified name, a list of root types, and
    the owner/child, field/type and superclass links between them.

    The embedding follows the C++ source function by function.  Heap
    objects ([Type], [Field]) live in lists indexed by allocation order,
    pointers are indices, a null pointer is [None].  The members that can
    be the target of a [Type **] (a field's type, a typedef's aliased type,
    a class's superclass) are kept in a store indexed by their address, so
    that the postponed list can hold such addresses as the source does. *)

From Stdlib Require Import String Ascii NArith ZArith DecimalString.
From stdpp Require Import gmap strings list fin_maps.

Set Warnings "-register-all".

(** ** std::string operations used by the scanner *)

Module StdString.

(** [s.find(needle, pos)]; [None] is [string::npos]. *)
Definition find (s needle : string) (pos : nat) : option nat :=
  String.index pos needle s.

(** [s.substr(pos, n)] *)
Definition substr (s : string) (pos n : nat) : string :=
  String.substring pos n s.

(** [s.substr(pos)] *)
Definition substr_from (s : string) (pos : nat) : string :=
  String.substring pos (String.length s - pos) s.

(** [s.replace(pos, n, "")] *)
Definition erase (s : string) (pos n : nat) : string :=
  substr s 0 pos +:+ substr_from s (pos + n).

(** [s.empty()] *)
Definition empty (s : string) : bool :=
  match s with EmptyString => true | String _ _ => false end.

(** [string::npos != s.find(needle)] *)
Definition contains (s needle : string) : bool :=
  match find s needle 0 with Some _ => true | None => false end.

End StdString.

(** ** The symbol source (DIA) *)

(** [enum SymTagEnum] of the DIA SDK, in the order in which
    [symTagToString] lists it. *)
Inductive SymTagEnum :=
  | SymTagNull | SymTagExe | SymTagCompiland | SymTagCompilandDetails
  | SymTagCompilandEnv | SymTagFunction | SymTagBlock | SymTagData
  | SymTagAnnotation | SymTagLabel | SymTagPublicSymbol | SymTagUDT
  | SymTagEnum_ | SymTagFunctionType | SymTagPointerType | SymTagArrayType
  | SymTagBaseType | SymTagTypedef | SymTagBaseClass | SymTagFriend
  | SymTagFunctionArgType | SymTagFuncDebugStart | SymTagFuncDebugEnd
  | SymTagUsingNamespace | SymTagVTableShape | SymTagVTable | SymTagCustom
  | SymTagThunk | SymTagCustomType | SymTagManagedType | SymTagDimension.

#[global] Instance SymTagEnum_eq_dec : EqDecision SymTagEnum.
Proof. solve_decision. Defined.

(** [enum LocationType], the three locations [setMemberOffset] knows and
    the rest. *)
Inductive LocationType :=
  | LocIsThisRel | LocIsStatic | LocIsBitField | LocIsOther (code : N).

(** [enum BasicType]: the three codes [setBaseType] treats by width.  The
    values are those of the DIA SDK header, which the table
    [baseTypeArray] is indexed by. *)
Definition btInt : N := 6.
Definition btUInt : N := 7.
Definition btFloat : N := 8.

(** The outcome of [get_name] followed by [ConvertBSTRToString]. *)
Inductive BSTR :=
  | get_name_FAILED
  | ConvertBSTRToString_NULL
  | BSTR_chars (nameChar : string).

(** The outcome of [findChildren], [get_Count] and [Next] on the children
    of a symbol. *)
Inductive Enumeration :=
  | findChildren_FAILED | get_Count_FAILED | Next_FAILED | Enumerated.

(** What the accessors of one [IDiaSymbol] answer; [None] is a failed
    HRESULT. *)
Record SymbolData := {
  get_symTag : option SymTagEnum;
  get_name : BSTR;
  get_length : option N;
  get_baseType : option N;
  get_udtKind : option N;
  get_locationType : option LocationType;
  get_offset : option Z;
  get_bitPosition : option N;
  get_reference : option bool;
  get_constType : option bool;
  get_volatileType : option bool;
  get_unalignedType : option bool;
  get_count : option N;
  enumeration : Enumeration
}.

(** A symbol with the symbol [get_type] answers and the children
    [findChildren] enumerates (all of them, in enumeration order). *)
Inductive IDiaSymbol := DiaSymbol {
  data : SymbolData;
  get_type : option IDiaSymbol;
  children : list IDiaSymbol
}.

(** [findChildren(symTag, NULL, nsNone, ...)]: the children of that tag,
    all children for [SymTagNull]. *)
Definition matchesTag (symTag : SymTagEnum) (d : SymbolData) : bool :=
  bool_decide (symTag = SymTagNull) || bool_decide (get_symTag d = Some symTag).

(** ** The IR *)

Inductive DDR_RC := DDR_RC_OK | DDR_RC_ERROR.

#[global] Instance DDR_RC_eq_dec : EqDecision DDR_RC.
Proof. solve_decision. Defined.

Definition TypeId := nat.
Definition FieldId := nat.

Record Modifiers := {
  _modifierFlags : N;
  _pointerCount : N;
  _referenceCount : N;
  _arrayLengths : list N
}.

(** Modelled from the spec: the flag bits of [Modifiers] (its header is
    not part of the source at hand); three distinct bits for the
    const/volatile/unaligned flags. *)
Definition CONST_TYPE : N := 1.
Definition VOLATILE_TYPE : N := 2.
Definition UNALIGNED_TYPE : N := 4.

Definition noModifiers : Modifiers :=
  {| _modifierFlags := 0; _pointerCount := 0; _referenceCount := 0;
     _arrayLengths := [] |}.

Definition setFlag (flag : N) (m : Modifiers) : Modifiers :=
  {| _modifierFlags := N.lor (_modifierFlags m) flag;
     _pointerCount := _pointerCount m;
     _referenceCount := _referenceCount m;
     _arrayLengths := _arrayLengths m |}.

Definition incPointerCount (m : Modifiers) : Modifiers :=
  {| _modifierFlags := _modifierFlags m;
     _pointerCount := _pointerCount m + 1;
     _referenceCount := _referenceCount m;
     _arrayLengths := _arrayLengths m |}.

Definition incReferenceCount (m : Modifiers) : Modifiers :=
  {| _modifierFlags := _modifierFlags m;
     _pointerCount := _pointerCount m;
     _referenceCount := _referenceCount m + 1;
     _arrayLengths := _arrayLengths m |}.

Definition addArrayDimension (size : N) (m : Modifiers) : Modifiers :=
  {| _modifierFlags := _modifierFlags m;
     _pointerCount := _pointerCount m;
     _referenceCount := _referenceCount m;
     _arrayLengths := _arrayLengths m ++ [size] |}.

(** The dynamic class of a heap object. *)
Inductive TypeClass := BaseType | EnumUDT | ClassUDT | TypedefUDT.

#[global] Instance TypeClass_eq_dec : EqDecision TypeClass.
Proof. solve_decision. Defined.

(** A [Type] object.  One record serves all classes: the scanner casts
    registry entries to [ClassUDT *], [EnumUDT *] or [NamespaceUDT *]
    without a check, and the embedding lets every object carry every
    member, so that a member read through such a cast has a value where
    the source has none to rely on. *)
Record Type_ := {
  _class : TypeClass;
  _name : string;
  _sizeOf : N;
  _outerNamespace : option TypeId;
  _subUDTs : list TypeId;
  _fieldMembers : list FieldId;
  _enumMembers : list string;
  _modifiers : Modifiers
}.

Definition newType (c : TypeClass) (size : N) : Type_ :=
  {| _class := c; _name := ""; _sizeOf := size; _outerNamespace := None;
     _subUDTs := []; _fieldMembers := []; _enumMembers := [];
     _modifiers := noModifiers |}.

#[global] Instance Type_inhabited : Inhabited Type_ :=
  populate (newType BaseType 0).

Definition set_name (n : string) (t : Type_) : Type_ :=
  {| _class := _class t; _name := n; _sizeOf := _sizeOf t;
     _outerNamespace := _outerNamespace t; _subUDTs := _subUDTs t;
     _fieldMembers := _fieldMembers t; _enumMembers := _enumMembers t;
     _modifiers := _modifiers t |}.

Definition set_sizeOf (n : N) (t : Type_) : Type_ :=
  {| _class := _class t; _name := _name t; _sizeOf := n;
     _outerNamespace := _outerNamespace t; _subUDTs := _subUDTs t;
     _fieldMembers := _fieldMembers t; _enumMembers := _enumMembers t;
     _modifiers := _modifiers t |}.

Definition set_outerNamespace (o : option TypeId) (t : Type_) : Type_ :=
  {| _class := _class t; _name := _name t; _sizeOf := _sizeOf t;
     _outerNamespace := o; _subUDTs := _subUDTs t;
     _fieldMembers := _fieldMembers t; _enumMembers := _enumMembers t;
     _modifiers := _modifiers t |}.

Definition push_subUDT (u : TypeId) (t : Type_) : Type_ :=
  {| _class := _class t; _name := _name t; _sizeOf := _sizeOf t;
     _outerNamespace := _outerNamespace t; _subUDTs := _subUDTs t ++ [u];
     _fieldMembers := _fieldMembers t; _enumMembers := _enumMembers t;
     _modifiers := _modifiers t |}.

Definition push_fieldMember (f : FieldId) (t : Type_) : Type_ :=
  {| _class := _class t; _name := _name t; _sizeOf := _sizeOf t;
     _outerNamespace := _outerNamespace t; _subUDTs := _subUDTs t;
     _fieldMembers := _fieldMembers t ++ [f]; _enumMembers := _enumMembers t;
     _modifiers := _modifiers t |}.

Definition push_enumMember (m : string) (t : Type_) : Type_ :=
  {| _class := _class t; _name := _name t; _sizeOf := _sizeOf t;
     _outerNamespace := _outerNamespace t; _subUDTs := _subUDTs t;
     _fieldMembers := _fieldMembers t; _enumMembers := _enumMembers t ++ [m];
     _modifiers := _modifiers t |}.

Definition set_modifiers (m : Modifiers) (t : Type_) : Type_ :=
  {| _class := _class t; _name := _name t; _sizeOf := _sizeOf t;
     _outerNamespace := _outerNamespace t; _subUDTs := _subUDTs t;
     _fieldMembers := _fieldMembers t; _enumMembers := _enumMembers t;
     _modifiers := m |}.

(** A [Field] object; its [_fieldType] member lives in the slot store. *)
Record Field := {
  _fieldName : string;
  _offset : Z;
  _bitField : option N;
  _isStatic : bool;
  _fieldModifiers : Modifiers
}.

Definition newField : Field :=
  {| _fieldName := ""; _offset := 0; _bitField := None; _isStatic := false;
     _fieldModifiers := noModifiers |}.

(** The address of a [Type *] member: what a [Type **] points to. *)
Inductive Slot :=
  | fieldType_of (f : FieldId)       (* &field->_fieldType *)
  | aliasedType_of (t : TypeId)      (* &typedef->_aliasedType *)
  | superClass_of (t : TypeId).      (* &classUDT->_superClass *)

#[global] Instance Slot_eq_dec : EqDecision Slot.
Proof. solve_decision. Defined.

(** [struct PostponedType { Type **type; string name; }] *)
Record PostponedType := {
  type : Slot;
  name : string
}.

(** The COM references of one input file, which [loadDataFromPdb] obtains
    and the loop over the files releases.  The references to the child
    symbols and to the type symbols, which [Next] and [get_type] hand out
    inside the builders, are not kept track of. *)
Inductive ComObject := DataSource | Session | GlobalScope.

#[global] Instance ComObject_eq_dec : EqDecision ComObject.
Proof. solve_decision. Defined.

(** The scanner with the IR it fills. *)
Record PdbScanner := {
  heap : list Type_;                 (* every Type object, by allocation *)
  fieldHeap : list Field;            (* every Field object, by allocation *)
  slots : Slot -> option TypeId;     (* the Type * members, by address *)
  _typeMap : gmap string TypeId;
  _types : list TypeId;              (* _ir->_types *)
  _postponedFields : list PostponedType;
  deleted : list TypeId;             (* objects given to delete *)
  held : list (nat * ComObject)      (* per-file references not yet released *)
}.

Definition emptyScanner : PdbScanner :=
  {| heap := []; fieldHeap := []; slots := fun _ => None; _typeMap := ∅;
     _types := []; _postponedFields := []; deleted := []; held := [] |}.

(** ** Running the scanner: state passing with abnormal termination *)

(** Why a call does not return. *)
Inductive Fault :=
  | NullDereference     (* a member of a null pointer is accessed *)
  | OutOfBounds         (* a table or an empty vector is read past its end *)
  | UseAfterFree        (* a member of a deleted object is written *)
  | Nontermination.     (* a loop or a recursion that has no end *)

Inductive Outcome (A : Type) :=
  | Ret (a : A) (s : PdbScanner)
  | Abort (f : Fault).
Arguments Ret {A} a s.
Arguments Abort {A} f.

Definition M (A : Type) : Type := PdbScanner -> Outcome A.

Definition ret {A} (a : A) : M A := fun s => Ret a s.

Definition bind {A B} (m : M A) (k : A -> M B) : M B :=
  fun s => match m s with
           | Ret a s' => k a s'
           | Abort f => Abort f
           end.

Definition abort {A} (f : Fault) : M A := fun _ => Abort f.

Definition gets {A} (f : PdbScanner -> A) : M A := fun s => Ret (f s) s.

Definition modify (f : PdbScanner -> PdbScanner) : M unit :=
  fun s => Ret tt (f s).

Notation "'let*' x ':=' m 'in' k" := (bind m (fun x => k))
  (at level 10, x pattern, m at level 100, k at level 200).

(** [if (DDR_RC_OK == rc) { rc = m; }] *)
Definition whenOK (rc : DDR_RC) (m : M DDR_RC) : M DDR_RC :=
  match rc with DDR_RC_OK => m | DDR_RC_ERROR => ret DDR_RC_ERROR end.

Section StateUpdates.

Definition with_heap (f : list Type_ -> list Type_) (s : PdbScanner) :=
  {| heap := f (heap s); fieldHeap := fieldHeap s; slots := slots s;
     _typeMap := _typeMap s; _types := _types s;
     _postponedFields := _postponedFields s; deleted := deleted s;
     held := held s |}.

Definition with_fieldHeap (f : list Field -> list Field) (s : PdbScanner) :=
  {| heap := heap s; fieldHeap := f (fieldHeap s); slots := slots s;
     _typeMap := _typeMap s; _types := _types s;
     _postponedFields := _postponedFields s; deleted := deleted s;
     held := held s |}.

Definition with_slots (f : (Slot -> option TypeId) -> Slot -> option TypeId)
    (s : PdbScanner) :=
  {| heap := heap s; fieldHeap := fieldHeap s; slots := f (slots s);
     _typeMap := _typeMap s; _types := _types s;
     _postponedFields := _postponedFields s; deleted := deleted s;
     held := held s |}.

Definition with_typeMap (f : gmap string TypeId -> gmap string TypeId)
    (s : PdbScanner) :=
  {| heap := heap s; fieldHeap := fieldHeap s; slots := slots s;
     _typeMap := f (_typeMap s); _types := _types s;
     _postponedFields := _postponedFields s; deleted := deleted s;
     held := held s |}.

Definition with_types (f : list TypeId -> list TypeId) (s : PdbScanner) :=
  {| heap := heap s; fieldHeap := fieldHeap s; slots := slots s;
     _typeMap := _typeMap s; _types := f (_types s);
     _postponedFields := _postponedFields s; deleted := deleted s;
     held := held s |}.

Definition with_postponedFields
    (f : list PostponedType -> list PostponedType) (s : PdbScanner) :=
  {| heap := heap s; fieldHeap := fieldHeap s; slots := slots s;
     _typeMap := _typeMap s; _types := _types s;
     _postponedFields := f (_postponedFields s); deleted := deleted s;
     held := held s |}.

Definition with_deleted (f : list TypeId -> list TypeId) (s : PdbScanner) :=
  {| heap := heap s; fieldHeap := fieldHeap s; slots := slots s;
     _typeMap := _typeMap s; _types := _types s;
     _postponedFields := _postponedFields s; deleted := f (deleted s);
     held := held s |}.

Definition with_held
    (f : list (nat * ComObject) -> list (nat * ComObject)) (s : PdbScanner) :=
  {| heap := heap s; fieldHeap := fieldHeap s; slots := slots s;
     _typeMap := _typeMap s; _types := _types s;
     _postponedFields := _postponedFields s; deleted := deleted s;
     held := f (held s) |}.

End StateUpdates.

(** *** Heap objects *)

(** [new T(...)]: the object goes to the end of the heap. *)
Definition new_ (t : Type_) : M TypeId :=
  fun s => Ret (length (heap s)) (with_heap (fun h => h ++ [t]) s).

Definition new_Field : M FieldId :=
  fun s => Ret (length (fieldHeap s))
               (with_fieldHeap (fun h => h ++ [newField]) s).

(** [delete(p)]: the object is marked as freed.  What still points to it
    dangles: the entry in the child list of its owner, and the addresses
    of its members in the postponed list. *)
Definition delete (t : TypeId) : M unit :=
  modify (with_deleted (fun d => d ++ [t])).

(** Reading through a pointer. *)
Definition at_ (h : list Type_) (t : TypeId) : Type_ := h !!! t.

Definition read {A} (t : TypeId) (member : Type_ -> A) : M A :=
  gets (fun s => member (at_ (heap s) t)).

(** Writing through a pointer. *)
Definition write (t : TypeId) (f : Type_ -> Type_) : M unit :=
  modify (with_heap (alter f t)).

Definition writeField (fid : FieldId) (f : Field -> Field) : M unit :=
  modify (with_fieldHeap (alter f fid)).

(** [*type] and [*type = t] for a [Type **type]. *)
Definition load (type : Slot) : M (option TypeId) :=
  gets (fun s => slots s type).

Definition store_slot (type : Slot) (t : option TypeId)
    (m : Slot -> option TypeId) : Slot -> option TypeId :=
  fun a => if decide (a = type) then t else m a.

Definition store (type : Slot) (t : option TypeId) : M unit :=
  modify (with_slots (store_slot type t)).

(** The [Type] object a [Type *] member belongs to.  The type of a field
    is a member of a [Field]; the scanner deletes no [Field]. *)
Definition memberOf (type : Slot) : option TypeId :=
  match type with
  | fieldType_of _ => None
  | aliasedType_of t | superClass_of t => Some t
  end.

(** [*type = t] for a [Type **] that was put aside in an earlier call: the
    object it points into may have been deleted since. *)
Definition store_through (type : Slot) (t : option TypeId) : M unit :=
  let* freed := gets deleted in
  match memberOf type with
  | Some object =>
      if bool_decide (object ∈ freed) then abort UseAfterFree
      else store type t
  | None => store type t
  end.

(** [p->member] for a pointer that may be null. *)
Definition deref {A} (p : option TypeId) (k : TypeId -> M A) : M A :=
  match p with
  | Some t => k t
  | None => abort NullDereference
  end.

(** ** The type registry *)

Definition baseTypeArray : list string :=
  [ "<NoType>"; "void"; "I8"; "wchar_t"; "I8"; "U8"; "I32"; "U32"; "float";
    "<BCD>"; "bool"; "short"; "unsigned short"; "I32"; "U32"; "I8"; "I16";
    "I32"; "I64"; "__int128"; "U8"; "U16"; "U32"; "U64"; "U128";
    "unsigned __int128"; "<currency>"; "<date>"; "VARIANT"; "<complex>";
    "<bit>"; "BSTR"; "HRESULT"; "double" ].

Definition errorNoType : string := "ERROR_PDBSCANNER_MISSING_THIS_TYPE".

(** Modelled from the spec: [Type::getFullName], whose definition is not
    part of the source at hand.  The qualified name is the name with its
    container chain, segments joined by the separator.  The recursion
    follows the owner links; [steps] bounds its depth, and there is no
    name when the chain of owners goes on beyond it. *)
Fixpoint getFullName_from (steps : nat) (h : list Type_) (t : TypeId)
    : option string :=
  match _outerNamespace (at_ h t) with
  | None => Some (_name (at_ h t))
  | Some outer =>
      match steps with
      | O => None
      | S steps' =>
          match getFullName_from steps' h outer with
          | Some outerName => Some (outerName +:+ "::" +:+ _name (at_ h t))
          | None => None
          end
      end
  end.

(** A chain of owners that ends meets no object twice, so it is not
    longer than the heap: within that many steps the recursion finds no
    name only where the chain has no end (an object that is among its own
    owners), and there the call does not return. *)
Definition getFullName (t : TypeId) : M string :=
  fun s => match getFullName_from (length (heap s)) (heap s) t with
           | Some fullName => Ret fullName s
           | None => Abort Nontermination
           end.

(** Modelled from the spec: [Type::getBaseType], not part of the source at
    hand: the aliased type of a typedef, null for every other class. *)
Definition getBaseType (t : TypeId) : M (option TypeId) :=
  gets (fun s => match _class (at_ (heap s) t) with
                 | TypedefUDT => slots s (aliasedType_of t)
                 | _ => None
                 end).

(** Modelled from the spec: [Type::getSubUDTS], not part of the source at
    hand: the child list of a class or namespace, null for the classes
    that own no children. *)
Definition getSubUDTS (t : Type_) : option (list TypeId) :=
  match _class t with
  | ClassUDT => Some (_subUDTs t)
  | _ => None
  end.

(** Modelled from the spec: [Type::getNamespace], not part of the source
    at hand: the owner reference. *)
Definition getNamespace (t : Type_) : option TypeId := _outerNamespace t.

(** [_typeMap.end() != _typeMap.find(name)] *)
Definition isRegistered (name : string) : M bool :=
  gets (fun s => bool_decide (is_Some (_typeMap s !! name))).

Definition addType (type : TypeId) (addToIR : bool) : M unit :=
  let* fullName := getFullName type in
  let* found := isRegistered fullName in
  if negb (StdString.empty fullName) && negb found then
    let* _ := (if addToIR
               then modify (with_types (fun l => l ++ [type]))
               else ret tt) in
    modify (with_typeMap (insert fullName type))
  else ret tt.

Definition getType (s : string) : M (option TypeId) :=
  if StdString.empty s then ret None
  else gets (fun st => _typeMap st !! s).

Fixpoint forEach {A} (body : A -> M unit) (l : list A) : M unit :=
  match l with
  | [] => ret tt
  | x :: l' => let* _ := body x in forEach body l'
  end.

Definition initBaseType (name : string) : M unit :=
  let* type := new_ (set_name name (newType BaseType 0)) in
  let* _ := modify (with_typeMap (insert name type)) in
  modify (with_types (fun l => l ++ [type])).

Definition initBaseTypeList : M unit :=
  let* _ := forEach initBaseType baseTypeArray in
  initBaseType errorNoType.

(** ** Reading a symbol *)

Definition anonymous_namespace_hyphen : string := "`anonymous-namespace'::".
Definition anonymous_namespace_space : string := "`anonymous namespace'::".

(** The normalisation [getName] applies to the characters it received. *)
Definition stripAnonymousNamespace (name : string) : string :=
  let pos := StdString.find name anonymous_namespace_hyphen 0 in
  let pos := match pos with
             | None => StdString.find name anonymous_namespace_space 0
             | Some _ => pos
             end in
  match pos with
  | Some pos => StdString.erase name pos 23
  | None => name
  end.

(** [getName(symbol, &name)] for a [name] that was empty before the call,
    as it is at every call site. *)
Definition getName (symbol : SymbolData) : DDR_RC * string :=
  match get_name symbol with
  | get_name_FAILED => (DDR_RC_ERROR, "")
  | ConvertBSTRToString_NULL => (DDR_RC_OK, "")
  | BSTR_chars nameChar => (DDR_RC_OK, stripAnonymousNamespace nameChar)
  end.

Definition getSize (symbol : SymbolData) : DDR_RC * N :=
  match get_length symbol with
  | None => (DDR_RC_ERROR, 0%N)
  | Some ul => (DDR_RC_OK, ul)
  end.

(** ** Base types *)

Definition setBaseTypeInt (ulLen : N) (type : Slot) : M DDR_RC :=
  let bindTo name := (let* t := getType name in
                      let* _ := store type t in ret DDR_RC_OK) in
  match ulLen with
  | 1 => bindTo "I8"
  | 2 => bindTo "I16"
  | 4 => bindTo "I32"
  | 8 => bindTo "I64"
  | _ => ret DDR_RC_ERROR
  end%N.

Definition setBaseTypeFloat (ulLen : N) (type : Slot) : M DDR_RC :=
  let bindTo name := (let* t := getType name in
                      let* _ := store type t in ret DDR_RC_OK) in
  match ulLen with
  | 4 => bindTo "float"
  | 8 => bindTo "double"
  | _ => ret DDR_RC_ERROR
  end%N.

Definition setBaseTypeUInt (ulLen : N) (type : Slot) : M DDR_RC :=
  let bindTo name := (let* t := getType name in
                      let* _ := store type t in ret DDR_RC_OK) in
  match ulLen with
  | 1 => bindTo "U8"
  | 2 => bindTo "U16"
  | 4 => bindTo "U32"
  | 8 => bindTo "U64"
  | 16 => bindTo "U128"
  | _ => ret DDR_RC_ERROR
  end%N.

Definition setBaseType (typeSymbol : SymbolData) (type : Slot) : M DDR_RC :=
  match get_baseType typeSymbol with
  | None => ret DDR_RC_ERROR
  | Some baseType =>
      let '(rc, ulLen) := getSize typeSymbol in
      whenOK rc
        (if (baseType =? btUInt)%N then setBaseTypeUInt ulLen type
         else if (baseType =? btInt)%N then setBaseTypeInt ulLen type
         else if (baseType =? btFloat)%N then setBaseTypeFloat ulLen type
         else if (baseType =? 0xFFFFFFFF)%N then ret DDR_RC_OK
         else
           match baseTypeArray !! N.to_nat baseType with
           | Some name =>
               let* t := getType name in
               let* _ := store type t in
               ret DDR_RC_OK
           | None => abort OutOfBounds
           end)
  end.

(** ** Fields and their types *)

Definition set_fieldName (n : string) (f : Field) : Field :=
  {| _fieldName := n; _offset := _offset f; _bitField := _bitField f;
     _isStatic := _isStatic f; _fieldModifiers := _fieldModifiers f |}.

Definition set_offset (o : Z) (f : Field) : Field :=
  {| _fieldName := _fieldName f; _offset := o; _bitField := _bitField f;
     _isStatic := _isStatic f; _fieldModifiers := _fieldModifiers f |}.

Definition set_bitField (b : N) (f : Field) : Field :=
  {| _fieldName := _fieldName f; _offset := _offset f; _bitField := Some b;
     _isStatic := _isStatic f; _fieldModifiers := _fieldModifiers f |}.

Definition set_isStatic (b : bool) (f : Field) : Field :=
  {| _fieldName := _fieldName f; _offset := _offset f; _bitField := _bitField f;
     _isStatic := b; _fieldModifiers := _fieldModifiers f |}.

Definition set_fieldModifiers (m : Modifiers) (f : Field) : Field :=
  {| _fieldName := _fieldName f; _offset := _offset f; _bitField := _bitField f;
     _isStatic := _isStatic f; _fieldModifiers := m |}.

(** [(size_t)loffset] for a 32-bit [LONG] and a 64-bit [size_t]. *)
Definition size_t_of_LONG (loffset : Z) : Z := loffset mod 2 ^ 64.

Definition setMemberOffset (symbol : SymbolData) (newField : FieldId) : M DDR_RC :=
  match get_locationType symbol with
  | None => ret DDR_RC_ERROR
  | Some LocIsThisRel =>
      match get_offset symbol with
      | None => ret DDR_RC_ERROR
      | Some loffset =>
          let* _ := writeField newField (set_offset (size_t_of_LONG loffset)) in
          ret DDR_RC_OK
      end
  | Some LocIsStatic =>
      let* _ := writeField newField (set_isStatic true) in
      let offset := match get_offset symbol with
                    | Some loffset => size_t_of_LONG loffset
                    | None => 0%Z
                    end in
      let* _ := writeField newField (set_offset offset) in
      ret DDR_RC_OK
  | Some LocIsBitField =>
      match get_offset symbol with
      | None => ret DDR_RC_ERROR
      | Some loffset =>
          match get_bitPosition symbol with
          | None => ret DDR_RC_ERROR
          | Some bitposition =>
              let* _ := writeField newField (set_bitField bitposition) in
              let* _ := writeField newField
                          (set_offset (size_t_of_LONG loffset)) in
              ret DDR_RC_OK
          end
      end
  | Some (LocIsOther _) => ret DDR_RC_ERROR
  end.

(** The [Modifiers *] argument is threaded: the functions return the
    modifiers as they leave them. *)
Definition setTypeModifier (symbol : SymbolData) (modifiers : Modifiers)
    : DDR_RC * Modifiers :=
  match get_constType symbol with
  | None => (DDR_RC_ERROR, modifiers)
  | Some bSet =>
      let modifiers := if bSet then setFlag CONST_TYPE modifiers
                       else modifiers in
      match get_volatileType symbol with
      | None => (DDR_RC_ERROR, modifiers)
      | Some bSet =>
          let modifiers := if bSet then setFlag VOLATILE_TYPE modifiers
                           else modifiers in
          match get_unalignedType symbol with
          | None => (DDR_RC_ERROR, modifiers)
          | Some bSet =>
              (DDR_RC_OK,
               if bSet then setFlag UNALIGNED_TYPE modifiers else modifiers)
          end
      end
  end.

Definition setPointerType (symbol : SymbolData) (modifiers : Modifiers)
    : DDR_RC * Modifiers :=
  match get_reference symbol with
  | None => (DDR_RC_ERROR, modifiers)
  | Some true => (DDR_RC_OK, incReferenceCount modifiers)
  | Some false => (DDR_RC_OK, incPointerCount modifiers)
  end.

Definition postpone (type : Slot) (name : string) : M unit :=
  modify (with_postponedFields
            (fun l => l ++ [{| type := type; name := name |}])).

(** ** The namespace resolver *)

(** [_ir->_types.erase(remove(_ir->_types.begin(), _ir->_types.end(), ns))]:
    [remove] moves the other elements to the front and leaves the rest of
    the vector as it was; [erase] then takes out the one element at the
    new logical end. *)
Definition remove_erase (ns : TypeId) (v : list TypeId) : list TypeId :=
  let kept := filter (fun t => t <> ns) v in
  kept ++ drop (S (length kept)) v.

Fixpoint getNamespaceFromName_loop (iterations : nat) (name : string)
    (previousPos : nat) (outerNamespace : option TypeId)
    : M (string * option TypeId) :=
  match StdString.find name "::" previousPos with
  | None => ret (StdString.substr_from name previousPos, outerNamespace)
  | Some pos =>
      match iterations with
      | O => abort Nontermination
      | S iterations' =>
          let namespaceName :=
            StdString.substr name previousPos (pos - previousPos) in
          let* found := getType namespaceName in
          let* ns :=
            match found with
            | Some ns => ret ns
            | None =>
                let* ns := new_ (set_outerNamespace outerNamespace
                                   (set_name namespaceName (newType ClassUDT 0))) in
                let* _ := addType ns (bool_decide (previousPos = 0)) in
                ret ns
            end in
          let* nsOuter := read ns _outerNamespace in
          let* _ :=
            match outerNamespace, nsOuter with
            | Some outer, None =>
                let* _ := write ns (set_outerNamespace outerNamespace) in
                let* _ := write outer (push_subUDT ns) in
                let* types := gets _types in
                if bool_decide (ns ∈ types)
                then modify (with_types (remove_erase ns))
                else ret tt
            | _, _ => ret tt
            end in
          getNamespaceFromName_loop iterations' name (pos + 2) (Some ns)
      end
  end.

(** [getNamespaceFromName(&name, &outerUDT)] returns the two values it
    leaves in its arguments.  Every iteration moves [previousPos] forward
    by at least two characters, so the length of the name bounds the
    number of iterations. *)
Definition getNamespaceFromName (name : string) (outerUDT : option TypeId)
    : M (string * option TypeId) :=
  match outerUDT with
  | Some _ => ret (name, outerUDT)
  | None => getNamespaceFromName_loop (String.length name) name 0 None
  end.

(** ** The builders

    [addSymbol], [createClassUDT] and [setType] call one another across
    the symbol tree: a class recurses into its child symbols, a field
    into the symbol of its type.  The function bodies below receive the
    symbols they descend into as handles, a symbol together with the three
    entry points at that symbol; [scan] ties the recursion over the
    tree. *)

Record Scan := {
  scan_addSymbol : option TypeId -> M DDR_RC;
  scan_createClassUDT : option TypeId -> M DDR_RC;
  scan_setType : Slot -> Modifiers -> option TypeId -> M (DDR_RC * Modifiers)
}.

Record Handle := {
  symbol_of : IDiaSymbol;
  scan_of : Scan
}.

Definition data_of (h : Handle) : SymbolData := data (symbol_of h).

(** The loop variables of the first loop of [addChildrenSymbols]. *)
Record ChildFlags := {
  alreadyHadFields : bool;
  alreadyCheckedFields : bool;
  alreadyHadSubtypes : bool
}.

(** [createTypedef]'s walk to the declared type behind pointers and
    arrays: the loop variables when the loop is left, or no exit.  Once
    [get_type] has failed it fails again at every further iteration and
    the loop condition never changes. *)
Fixpoint typedefBaseSymbol (baseSymbol : IDiaSymbol) (symTag : SymTagEnum)
    (rc : DDR_RC) : option (IDiaSymbol * SymTagEnum * DDR_RC) :=
  if bool_decide (symTag = SymTagUDT) || bool_decide (symTag = SymTagEnum_)
     || bool_decide (symTag = SymTagBaseType)
     || bool_decide (symTag = SymTagFunctionType)
  then Some (baseSymbol, symTag, rc)
  else
    match get_type baseSymbol with
    | None => None
    | Some next =>
        match rc, get_symTag (data next) with
        | DDR_RC_OK, Some tag => typedefBaseSymbol next tag DDR_RC_OK
        | DDR_RC_OK, None => typedefBaseSymbol next symTag DDR_RC_ERROR
        | DDR_RC_ERROR, _ => typedefBaseSymbol next symTag DDR_RC_ERROR
        end
    end.

Abbreviation OK := DDR_RC_OK (only parsing).
Abbreviation ERROR := DDR_RC_ERROR (only parsing).

Section Scanner.

(** The blacklist filter of the scanner's base class. *)
Variable checkBlacklistedType : string -> bool.

Definition setTypeUDT (typeSymbol : Handle) (type : Slot)
    (outerUDT : option TypeId) : M DDR_RC :=
  match get_udtKind (data_of typeSymbol) with
  | None => ret ERROR
  | Some udtKind =>
      let '(rc, name) := getName (data_of typeSymbol) in
      whenOK rc
        (let* found := isRegistered name in
         if negb (StdString.empty name) && found then
           let* t := gets (fun s => _typeMap s !! name) in
           let* _ := store type t in
           ret OK
         else if bool_decide (name = "<unnamed-tag>")
                 && bool_decide (is_Some outerUDT) then
           let* rc := scan_createClassUDT (scan_of typeSymbol) outerUDT in
           match rc with
           | DDR_RC_OK =>
               deref outerUDT (fun outer =>
                 let* subUDTs := read outer _subUDTs in
                 match last subUDTs with
                 | None => abort OutOfBounds
                 | Some back =>
                     let* _ := store type (Some back) in
                     let* _ := write back (set_name "") in
                     ret OK
                 end)
           | DDR_RC_ERROR => ret ERROR
           end
         else if negb (StdString.empty name) then
           let* _ := postpone type name in
           ret OK
         else ret OK)
  end.

Definition setType (symbol : SymbolData) (typeSymbol : option Handle)
    (type : Slot) (modifiers : Modifiers) (outerUDT : option TypeId)
    : M (DDR_RC * Modifiers) :=
  match typeSymbol with
  | None =>
      (* rc = DDR_RC_ERROR, then typeSymbol->Release() on the null
         typeSymbol *)
      abort NullDereference
  | Some typeSymbol =>
      let '(rc, modifiers) :=
        setTypeModifier (data_of typeSymbol) modifiers in
      match rc, get_symTag (data_of typeSymbol) with
      | DDR_RC_ERROR, _ => ret (ERROR, modifiers)
      | DDR_RC_OK, None => ret (ERROR, modifiers)
      | DDR_RC_OK, Some symTag =>
          match symTag with
          | SymTagEnum_ | SymTagUDT =>
              let* rc := setTypeUDT typeSymbol type outerUDT in
              ret (rc, modifiers)
          | SymTagArrayType =>
              match get_count (data_of typeSymbol) with
              | None => ret (ERROR, modifiers)
              | Some size =>
                  scan_setType (scan_of typeSymbol) type
                    (addArrayDimension size modifiers) outerUDT
              end
          | SymTagPointerType =>
              let '(rc, modifiers) := setPointerType symbol modifiers in
              match rc with
              | DDR_RC_OK =>
                  scan_setType (scan_of typeSymbol) type modifiers outerUDT
              | DDR_RC_ERROR => ret (ERROR, modifiers)
              end
          | SymTagBaseType =>
              let* rc := setBaseType (data_of typeSymbol) type in
              ret (rc, modifiers)
          | SymTagFunctionType =>
              let* t := getType "void" in
              let* _ := store type t in
              ret (OK, modifiers)
          | _ => ret (ERROR, modifiers)
          end
      end
  end.

Definition addFieldMember (symbol : SymbolData) (typeSymbol : option Handle)
    (udt : option TypeId) : M DDR_RC :=
  let* newField := new_Field in
  let '(rc, name) := getName symbol in
  let* _ := writeField newField (set_fieldName name) in
  let* rc := whenOK rc (setMemberOffset symbol newField) in
  let* rc :=
    match rc with
    | DDR_RC_OK =>
        let* (rc, modifiers) :=
          setType symbol typeSymbol (fieldType_of newField) noModifiers udt in
        let* _ := writeField newField (set_fieldModifiers modifiers) in
        ret rc
    | DDR_RC_ERROR => ret ERROR
    end in
  whenOK rc
    (deref udt (fun udt =>
       let* _ := write udt (push_fieldMember newField) in
       ret OK)).

Definition setSuperClassName (symbol : SymbolData) (newUDT : option TypeId)
    : M DDR_RC :=
  let '(rc, name) := getName symbol in
  let* _ :=
    match rc with
    | DDR_RC_OK =>
        if negb (StdString.empty name) then
          let* found := isRegistered name in
          if negb found then
            deref newUDT (fun newUDT => postpone (superClass_of newUDT) name)
          else
            deref newUDT (fun newUDT =>
              let* t := gets (fun s => _typeMap s !! name) in
              store (superClass_of newUDT) t)
        else ret tt
    | DDR_RC_ERROR => ret tt
    end in
  ret OK.

(** The [while] loop of [addEnumMembers]: [Next] is asked first, then
    [rc] is looked at. *)
Fixpoint addEnumMembers_loop (childSymbols : list SymbolData)
    (enumUDT : TypeId) (rc : DDR_RC) : M DDR_RC :=
  match childSymbols, rc with
  | childSymbol :: rest, DDR_RC_OK =>
      let '(rc, name) := getName childSymbol in
      let* _ := match rc with
                | DDR_RC_OK => write enumUDT (push_enumMember name)
                | DDR_RC_ERROR => ret tt
                end in
      addEnumMembers_loop rest enumUDT rc
  | _, _ => ret rc
  end.

Definition addEnumMembers (symbol : IDiaSymbol) (enumUDT : TypeId)
    : M DDR_RC :=
  match enumeration (data symbol) with
  | findChildren_FAILED => ret ERROR
  | Next_FAILED => ret OK
  | get_Count_FAILED | Enumerated =>
      addEnumMembers_loop (map data (children symbol)) enumUDT OK
  end.

Definition qualifiedBy (outer : option TypeId) (name : string) : M string :=
  match outer with
  | None => ret name
  | Some outer =>
      let* outerName := read outer _name in
      ret (outerName +:+ "::" +:+ name)
  end.

Definition createEnumUDT (symbol : IDiaSymbol)
    (outerNamespace : option TypeId) : M DDR_RC :=
  match get_symTag (data symbol) with
  | None => ret ERROR
  | Some symTag =>
      if negb (bool_decide (symTag = SymTagEnum_)) then ret ERROR
      else
        let '(rc, name) := getName (data symbol) in
        whenOK rc
          (if checkBlacklistedType name then ret OK
           else
             let '(rc, size) := getSize (data symbol) in
             whenOK rc
               (let* fullName := qualifiedBy outerNamespace name in
                let* found := isRegistered fullName in
                if StdString.empty fullName || negb found
                   || bool_decide (name = "<unnamed-tag>") then
                  let* (name, outerNamespace) :=
                    getNamespaceFromName name outerNamespace in
                  let* enumUDT := new_ (set_name name (newType EnumUDT 0)) in
                  let* rc := addEnumMembers symbol enumUDT in
                  match rc with
                  | DDR_RC_OK =>
                      let* _ := write enumUDT
                                  (set_outerNamespace outerNamespace) in
                      let* _ := match outerNamespace with
                                | Some outer =>
                                    write outer (push_subUDT enumUDT)
                                | None => ret tt
                                end in
                      let* _ := addType enumUDT
                                  (bool_decide (outerNamespace = None)) in
                      ret OK
                  | DDR_RC_ERROR =>
                      let* _ := delete enumUDT in
                      ret ERROR
                  end
                else
                  let* registered := getType fullName in
                  deref registered (fun enumUDT =>
                    let* owner := read enumUDT _outerNamespace in
                    let* _ :=
                      match owner, outerNamespace with
                      | None, Some outer =>
                          let* _ := write enumUDT
                                      (set_outerNamespace outerNamespace) in
                          write outer (push_subUDT enumUDT)
                      | _, _ => ret tt
                      end in
                    let* members := read enumUDT _enumMembers in
                    match members with
                    | [] => addEnumMembers symbol enumUDT
                    | _ :: _ => ret OK
                    end)))
  end.

(** The first loop of [addChildrenSymbols].  It returns [rc] and the
    inner type symbols it set aside. *)
Fixpoint addChildrenSymbols_outer (childSymbols : list Handle)
    (outerNamespace : option TypeId) (flags : ChildFlags)
    (innerTypeSymbols : list Handle) : M (DDR_RC * list Handle) :=
  match childSymbols with
  | [] => ret (OK, innerTypeSymbols)
  | child :: rest =>
      match get_symTag (data_of child) with
      | None => ret (ERROR, innerTypeSymbols)
      | Some symTag =>
          let '(rc, udtName) :=
            if bool_decide (symTag = SymTagEnum_)
               || bool_decide (symTag = SymTagUDT)
            then getName (data_of child)
            else (OK, "") in
          match rc with
          | DDR_RC_ERROR => ret (ERROR, innerTypeSymbols)
          | DDR_RC_OK =>
              if bool_decide (outerNamespace = None)
                 || negb (StdString.contains udtName "::") then
                let* flags :=
                  (if negb (alreadyCheckedFields flags)
                      && bool_decide (symTag = SymTagData) then
                     deref outerNamespace (fun outer =>
                       let* fieldMembers := read outer _fieldMembers in
                       ret {| alreadyHadFields :=
                                negb (bool_decide (fieldMembers = []));
                              alreadyCheckedFields := true;
                              alreadyHadSubtypes := alreadyHadSubtypes flags |})
                   else ret flags) in
                let* _ :=
                  (if (bool_decide (symTag = SymTagData)
                       && negb (alreadyHadFields flags))
                      || (negb (bool_decide (symTag = SymTagData))
                          && negb (alreadyHadSubtypes flags)) then
                     (* the result of addSymbol is not kept *)
                     let* _ := scan_addSymbol (scan_of child) outerNamespace in
                     ret tt
                   else ret tt) in
                addChildrenSymbols_outer rest outerNamespace flags
                  innerTypeSymbols
              else
                addChildrenSymbols_outer rest outerNamespace flags
                  (innerTypeSymbols ++ [child])
          end
      end
  end.

(** The second loop of [addChildrenSymbols]. *)
Fixpoint addChildrenSymbols_inner (innerTypeSymbols : list Handle)
    : M DDR_RC :=
  match innerTypeSymbols with
  | [] => ret OK
  | child :: rest =>
      let* rc := scan_addSymbol (scan_of child) None in
      match rc with
      | DDR_RC_OK => addChildrenSymbols_inner rest
      | DDR_RC_ERROR => ret ERROR
      end
  end.

(** [addChildrenSymbols(symbol, symTag, outerNamespace)], given the
    handles of all children of [symbol]. *)
Definition addChildrenSymbols (symbol : SymbolData) (children : list Handle)
    (symTag : SymTagEnum) (outerNamespace : option TypeId) : M DDR_RC :=
  let childSymbols := filter (fun c => matchesTag symTag (data_of c)) children in
  match enumeration symbol, childSymbols with
  | findChildren_FAILED, _ => ret ERROR
  | get_Count_FAILED, _ => ret ERROR
  | Next_FAILED, _ :: _ => ret ERROR
  | _, _ =>
      let* alreadyHadSubtypes :=
        match outerNamespace with
        | Some outer =>
            let* subUDTs := read outer _subUDTs in
            ret (negb (bool_decide (subUDTs = [])))
        | None => ret false
        end in
      let* (rc, innerTypeSymbols) :=
        addChildrenSymbols_outer childSymbols outerNamespace
          {| alreadyHadFields := false; alreadyCheckedFields := false;
             alreadyHadSubtypes := alreadyHadSubtypes |} [] in
      whenOK rc (addChildrenSymbols_inner innerTypeSymbols)
  end.

(** The [while] loop of the merge branch of [createClassUDT]; the heap
    bounds the length of a chain of typedefs that does not loop. *)
Fixpoint throughTypedefs (steps : nat) (previouslyCreatedType : TypeId)
    : M TypeId :=
  let* base := getBaseType previouslyCreatedType in
  match base, steps with
  | None, _ => ret previouslyCreatedType
  | Some _, O => abort Nontermination
  | Some base, S steps' => throughTypedefs steps' base
  end.

Definition createClassUDT (symbol : SymbolData) (children : list Handle)
    (outerUDT : option TypeId) : M DDR_RC :=
  match get_symTag symbol with
  | None => ret ERROR
  | Some symTag =>
      if negb (bool_decide (symTag = SymTagUDT)) then ret ERROR
      else
        let '(rc, name) := getName symbol in
        whenOK rc
          (if checkBlacklistedType name then ret OK
           else
             let '(rc, size) := getSize symbol in
             whenOK rc
               (let* fullName := qualifiedBy outerUDT name in
                let* found := isRegistered fullName in
                if StdString.empty fullName || negb found
                   || bool_decide (name = "<unnamed-tag>") then
                  let* (name, outerUDT) := getNamespaceFromName name outerUDT in
                  let* classUDT :=
                    new_ (set_outerNamespace outerUDT
                            (set_name name (newType ClassUDT size))) in
                  let* _ := match outerUDT with
                            | Some outer => write outer (push_subUDT classUDT)
                            | None => ret tt
                            end in
                  let* rc := addChildrenSymbols symbol children SymTagNull
                               (Some classUDT) in
                  match rc with
                  | DDR_RC_OK =>
                      let* owner := read classUDT _outerNamespace in
                      let* _ := addType classUDT (bool_decide (owner = None)) in
                      ret OK
                  | DDR_RC_ERROR =>
                      let* _ := delete classUDT in
                      ret ERROR
                  end
                else
                  let* registered := getType fullName in
                  deref registered (fun previouslyCreatedType =>
                    let* steps := gets (fun s => length (heap s)) in
                    let* classUDT := throughTypedefs steps previouslyCreatedType in
                    let* owner := read classUDT _outerNamespace in
                    let* _ :=
                      match owner, outerUDT with
                      | None, Some outer =>
                          let* _ := write classUDT (set_outerNamespace outerUDT) in
                          write outer (push_subUDT classUDT)
                      | _, _ => ret tt
                      end in
                    addChildrenSymbols symbol children SymTagNull
                      (Some classUDT))))
  end.

Definition createTypedef (symbol : IDiaSymbol) (typeSymbol : option Handle)
    (outerNamespace : option TypeId) : M DDR_RC :=
  let '(rc, typedefName) := getName (data symbol) in
  match rc with
  | DDR_RC_ERROR => ret ERROR
  | DDR_RC_OK =>
      if checkBlacklistedType typedefName then ret OK
      else
        match typedefBaseSymbol symbol SymTagNull OK with
        | None => abort Nontermination
        | Some (baseSymbol, symTag, rc) =>
            let '(rc, baseName) :=
              match rc with
              | DDR_RC_OK =>
                  if bool_decide (symTag = SymTagUDT)
                     || bool_decide (symTag = SymTagEnum_)
                  then getName (data baseSymbol)
                  else (OK, "")
              | DDR_RC_ERROR => (ERROR, "")
              end in
            whenOK rc
              (if checkBlacklistedType baseName then ret OK
               else
                 let* newTypedef :=
                   new_ (set_outerNamespace outerNamespace
                           (set_name typedefName (newType TypedefUDT 0))) in
                 let* _ := store (aliasedType_of newTypedef) None in
                 let* _ := match outerNamespace with
                           | Some outer => write outer (push_subUDT newTypedef)
                           | None => ret tt
                           end in
                 let* (rc, modifiers) :=
                   setType (data symbol) typeSymbol (aliasedType_of newTypedef)
                     noModifiers None in
                 let* _ := write newTypedef (set_modifiers modifiers) in
                 match rc with
                 | DDR_RC_OK =>
                     let* aliasedType := load (aliasedType_of newTypedef) in
                     deref aliasedType (fun aliasedType =>
                       let* size := read aliasedType _sizeOf in
                       let* _ := write newTypedef (set_sizeOf size) in
                       let* _ := addType newTypedef
                                   (bool_decide (outerNamespace = None)) in
                       ret OK)
                 | DDR_RC_ERROR =>
                     let* _ := delete newTypedef in
                     ret ERROR
                 end)
        end
  end.

Definition addSymbol (symbol : IDiaSymbol) (typeSymbol : option Handle)
    (children : list Handle) (outerNamespace : option TypeId) : M DDR_RC :=
  match get_symTag (data symbol) with
  | None => ret ERROR
  | Some symTag =>
      match symTag with
      | SymTagEnum_ => createEnumUDT symbol outerNamespace
      | SymTagUDT => createClassUDT (data symbol) children outerNamespace
      | SymTagData => addFieldMember (data symbol) typeSymbol outerNamespace
      | SymTagBaseClass => setSuperClassName (data symbol) outerNamespace
      | SymTagVTableShape | SymTagVTable | SymTagFunction => ret OK
      | SymTagTypedef =>
          match outerNamespace with
          | None =>
              (* the result of createTypedef is not kept *)
              let* _ := createTypedef symbol typeSymbol outerNamespace in
              ret OK
          | Some _ => ret OK
          end
      | _ => ret ERROR
      end
  end.

(** Tying the recursion: the entry points at every symbol of the tree. *)
Fixpoint scan (symbol : IDiaSymbol) : Scan :=
  match symbol with
  | DiaSymbol d type children =>
      let typeSymbol :=
        match type with
        | Some t => Some {| symbol_of := t; scan_of := scan t |}
        | None => None
        end in
      let children :=
        map (fun c => {| symbol_of := c; scan_of := scan c |}) children in
      {| scan_addSymbol := addSymbol symbol typeSymbol children;
         scan_createClassUDT := createClassUDT d children;
         scan_setType := fun type modifiers outerUDT =>
           setType d typeSymbol type modifiers outerUDT |}
  end.

Definition handle (symbol : IDiaSymbol) : Handle :=
  {| symbol_of := symbol; scan_of := scan symbol |}.

(** The builders at a symbol of the tree. *)
Definition addSymbol_of (symbol : IDiaSymbol) (outerNamespace : option TypeId)
    : M DDR_RC :=
  scan_addSymbol (scan symbol) outerNamespace.

Definition createClassUDT_of (symbol : IDiaSymbol) (outerUDT : option TypeId)
    : M DDR_RC :=
  scan_createClassUDT (scan symbol) outerUDT.

Definition createTypedef_of (symbol : IDiaSymbol)
    (outerNamespace : option TypeId) : M DDR_RC :=
  createTypedef symbol (option_map handle (get_type symbol)) outerNamespace.

(** A pass of [startScan] over the global scope:
    [addChildrenSymbols(diaSymbol, symTag, NULL)]. *)
Definition addChildrenSymbols_of (symbol : IDiaSymbol) (symTag : SymTagEnum)
    (outerNamespace : option TypeId) : M DDR_RC :=
  addChildrenSymbols (data symbol) (map handle (children symbol)) symTag
    outerNamespace.

(** ** After the last source *)

Definition updatePostponedField (it : PostponedType) : M unit :=
  let* found := isRegistered (name it) in
  if found then
    let* t := gets (fun s => _typeMap s !! name it) in
    store_through (type it) t
  else
    let* placeholder := new_ (set_name (name it) (newType ClassUDT 0)) in
    store_through (type it) (Some placeholder).

Definition updatePostponedFieldNames : M DDR_RC :=
  let* postponed := gets _postponedFields in
  let* _ := forEach updatePostponedField postponed in
  ret OK.

(** Modelled from the spec: the decimal digits [operator<<] writes for an
    unsigned integer. *)
Definition decimal (n : N) : string := NilZero.string_of_uint (N.to_uint n).

Definition isAnonymousName (name : string) : bool :=
  StdString.contains name "<unnamed-type-"
  || bool_decide (name = "<unnamed-tag>").

(** The renaming [renameAnonymousType] applies to the type itself. *)
Definition renameOne (type : TypeId) (unnamedTypeCount : N) : M N :=
  let* t := read type id in
  if isAnonymousName (_name t) then
    if bool_decide (getNamespace t = None)
       && negb (StdString.contains (_name t) "::") then
      let* _ := write type
                  (set_name ("AnonymousType" +:+ decimal unnamedTypeCount)) in
      ret (unnamedTypeCount + 1)%N
    else
      let* _ := write type (set_name "") in
      ret unnamedTypeCount
  else ret unnamedTypeCount.

(** A loop that hands the counter from one type to the next. *)
Fixpoint forEachCounting (body : TypeId -> N -> M N) (types : list TypeId)
    (unnamedTypeCount : N) : M N :=
  match types with
  | [] => ret unnamedTypeCount
  | type :: rest =>
      let* unnamedTypeCount := body type unnamedTypeCount in
      forEachCounting body rest unnamedTypeCount
  end.

(** [renameAnonymousType(type, &unnamedTypeCount)] returns the counter as
    it leaves it.  The recursion follows the child lists; [depth] bounds
    its nesting, and a graph whose child lists nest deeper (a cycle) is
    reported as not terminating. *)
Fixpoint renameAnonymousType (depth : nat) (type : TypeId)
    (unnamedTypeCount : N) : M N :=
  let* unnamedTypeCount := renameOne type unnamedTypeCount in
  let* t := read type id in
  match getSubUDTS t with
  | None => ret unnamedTypeCount
  | Some subUDTs =>
      match depth with
      | S depth' =>
          forEachCounting (renameAnonymousType depth') subUDTs
            unnamedTypeCount
      | O =>
          match subUDTs with
          | [] => ret unnamedTypeCount
          | _ :: _ => abort Nontermination
          end
      end
  end.

Definition renameAnonymousTypes : M unit :=
  let* types := gets _types in
  let* depth := gets (fun s => length (heap s)) in
  let* _ := forEachCounting (renameAnonymousType depth) types 0%N in
  ret tt.

(** ** The batch of input files *)

(** What [loadDataFromPdb] meets in one file: whether the data source
    can be created, whether the file loads, whether a session opens, and
    the global scope if there is one. *)
Record PdbFile := {
  createDataSource : bool;
  loadData : bool;
  openSession : bool;
  get_globalScope : option IDiaSymbol
}.

Definition hold (file : nat) (o : ComObject) : M unit :=
  modify (with_held (fun l => l ++ [(file, o)])).

(** [p->Release(); p = NULL;] for the three per-source pointers. *)
Definition release (file : nat) : M unit :=
  modify (with_held (filter (fun h => h.1 <> file))).

(** [loadDataFromPdb]: [rc] and the global scope it leaves in [*symbol]. *)
Definition loadDataFromPdb (index : nat) (file : PdbFile)
    : M (DDR_RC * option IDiaSymbol) :=
  if negb (createDataSource file) then ret (ERROR, None)
  else
    let* _ := hold index DataSource in
    if negb (loadData file) then ret (ERROR, None)
    else if negb (openSession file) then ret (ERROR, None)
    else
      let* _ := hold index Session in
      match get_globalScope file with
      | None => ret (ERROR, None)
      | Some diaSymbol =>
          let* _ := hold index GlobalScope in
          ret (OK, Some diaSymbol)
      end.

(** One iteration of the loop over [debugFiles], up to the [break]. *)
Definition scanFile (index : nat) (file : PdbFile) : M DDR_RC :=
  let* (rc, diaSymbol) := loadDataFromPdb index file in
  let pass symTag :=
    match diaSymbol with
    | Some diaSymbol => addChildrenSymbols_of diaSymbol symTag None
    | None => abort NullDereference
    end in
  let* rc := whenOK rc (pass SymTagUDT) in
  let* rc := whenOK rc (pass SymTagEnum_) in
  let* rc := whenOK rc (pass SymTagTypedef) in
  let* _ := release index in
  ret rc.

(** The loop over [debugFiles]; it is left at the first [rc] that is not
    [DDR_RC_OK].  The file names are taken to hold a character that is
    not white space, as [substr] needs. *)
Fixpoint scanFiles (index : nat) (debugFiles : list PdbFile) : M DDR_RC :=
  match debugFiles with
  | [] => ret OK
  | file :: rest =>
      let* rc := scanFile index file in
      match rc with
      | DDR_RC_OK => scanFiles (S index) rest
      | DDR_RC_ERROR => ret ERROR
      end
  end.

(** [startScan].  [coInitialize] tells whether [CoInitialize] succeeds,
    [loadBlacklist] is the result of loading the blacklist ([None] for an
    empty path). *)
Definition startScan (coInitialize : bool) (loadBlacklist : option DDR_RC)
    (debugFiles : list PdbFile) : M DDR_RC :=
  let* _ := initBaseTypeList in
  let rc := if coInitialize then OK else ERROR in
  let rc := match rc, loadBlacklist with
            | DDR_RC_OK, Some rc' => rc'
            | _, _ => rc
            end in
  let* rc := whenOK rc (scanFiles 0 debugFiles) in
  let* rc := whenOK rc updatePostponedFieldNames in
  let* _ := match rc with
            | DDR_RC_OK => renameAnonymousTypes
            | DDR_RC_ERROR => ret tt
            end in
  ret rc.

End Scanner.

(** [getUDTname(u)].  The recursion follows the owner links; [steps]
    bounds its depth, and a chain of owners that goes on beyond it (a
    cycle) is reported as not terminating. *)
Fixpoint getUDTname (steps : nat) (u : TypeId) : M string :=
  let* outer := read u _outerNamespace in
  match outer with
  | Some outer =>
      match steps with
      | O => abort Nontermination
      | S steps' =>
          let* outerName := getUDTname steps' outer in
          let* n := read u _name in
          ret (outerName +:+ "::" +:+ n)
      end
  | None => read u _name
  end.

(** ** Sample declarations, for the concrete scans below *)

Module Samples.

(** A symbol of the given tag, name and length whose accessors all
    succeed. *)
Definition symbolData (symTag : SymTagEnum) (name : string) (length : N)
    : SymbolData :=
  {| get_symTag := Some symTag; get_name := BSTR_chars name;
     get_length := Some length; get_baseType := Some 0%N;
     get_udtKind := Some 0%N; get_locationType := Some LocIsThisRel;
     get_offset := Some 0%Z; get_bitPosition := Some 0%N;
     get_reference := Some false; get_constType := Some false;
     get_volatileType := Some false; get_unalignedType := Some false;
     get_count := Some 0%N; enumeration := Enumerated |}.

(** The same symbol with one accessor failing. *)
Definition failing_get_name (d : SymbolData) : SymbolData :=
  {| get_symTag := get_symTag d; get_name := get_name_FAILED;
     get_length := get_length d; get_baseType := get_baseType d;
     get_udtKind := get_udtKind d; get_locationType := get_locationType d;
     get_offset := get_offset d; get_bitPosition := get_bitPosition d;
     get_reference := get_reference d; get_constType := get_constType d;
     get_volatileType := get_volatileType d;
     get_unalignedType := get_unalignedType d; get_count := get_count d;
     enumeration := enumeration d |}.

Definition failing_get_length (d : SymbolData) : SymbolData :=
  {| get_symTag := get_symTag d; get_name := get_name d;
     get_length := None; get_baseType := get_baseType d;
     get_udtKind := get_udtKind d; get_locationType := get_locationType d;
     get_offset := get_offset d; get_bitPosition := get_bitPosition d;
     get_reference := get_reference d; get_constType := get_constType d;
     get_volatileType := get_volatileType d;
     get_unalignedType := get_unalignedType d; get_count := get_count d;
     enumeration := enumeration d |}.

Definition with_baseType (code : N) (d : SymbolData) : SymbolData :=
  {| get_symTag := get_symTag d; get_name := get_name d;
     get_length := get_length d; get_baseType := Some code;
     get_udtKind := get_udtKind d; get_locationType := get_locationType d;
     get_offset := get_offset d; get_bitPosition := get_bitPosition d;
     get_reference := get_reference d; get_constType := get_constType d;
     get_volatileType := get_volatileType d;
     get_unalignedType := get_unalignedType d; get_count := get_count d;
     enumeration := enumeration d |}.

Definition with_offset (offset : Z) (d : SymbolData) : SymbolData :=
  {| get_symTag := get_symTag d; get_name := get_name d;
     get_length := get_length d; get_baseType := get_baseType d;
     get_udtKind := get_udtKind d; get_locationType := get_locationType d;
     get_offset := Some offset; get_bitPosition := get_bitPosition d;
     get_reference := get_reference d; get_constType := get_constType d;
     get_volatileType := get_volatileType d;
     get_unalignedType := get_unalignedType d; get_count := get_count d;
     enumeration := enumeration d |}.

(** [struct name { children }] of the given size. *)
Definition udt (name : string) (size : N) (children : list IDiaSymbol)
    : IDiaSymbol :=
  DiaSymbol (symbolData SymTagUDT name size) None children.

(** A base type of the given code and width. *)
Definition baseType (code width : N) : IDiaSymbol :=
  DiaSymbol (with_baseType code (symbolData SymTagBaseType "" width)) None [].

(** A data member at the given offset. *)
Definition dataMember (name : string) (offset : Z) (type : IDiaSymbol)
    : IDiaSymbol :=
  DiaSymbol (with_offset offset (symbolData SymTagData name 0)) (Some type) [].

Definition pointerTo (type : IDiaSymbol) : IDiaSymbol :=
  DiaSymbol (symbolData SymTagPointerType "" 8) (Some type) [].

Definition typedef (name : string) (type : IDiaSymbol) : IDiaSymbol :=
  DiaSymbol (symbolData SymTagTypedef name 0) (Some type) [].

Definition baseClass (name : string) : IDiaSymbol :=
  DiaSymbol (symbolData SymTagBaseClass name 0) None [].

(** The global scope of a file and the file itself. *)
Definition globalScope (declarations : list IDiaSymbol) : IDiaSymbol :=
  DiaSymbol (symbolData SymTagExe "" 0) None declarations.

Definition pdb (declarations : list IDiaSymbol) : PdbFile :=
  {| createDataSource := true; loadData := true; openSession := true;
     get_globalScope := Some (globalScope declarations) |}.

(** A file that does not load. *)
Definition unreadable : PdbFile :=
  {| createDataSource := true; loadData := false; openSession := false;
     get_globalScope := None |}.

(** No blacklist: nothing is blacklisted. *)
Definition noBlacklist (name : string) : bool := false.

(** The scanner once the base types are registered. *)
Definition initialised : PdbScanner :=
  match initBaseTypeList emptyScanner with
  | Ret _ s => s
  | Abort _ => emptyScanner
  end.

(** The state a call leaves, if it returns. *)
Definition stateAfter {A} (o : Outcome A) : PdbScanner :=
  match o with
  | Ret _ s => s
  | Abort _ => emptyScanner
  end.

End Samples.

(** ** Definitions the statements below are written with *)

(** The canonical base type of a code and a byte width, in the words of
    the specification: unsigned 1/2/4/8/16 is U8/U16/U32/U64/U128, signed
    1/2/4/8 is I8/I16/I32/I64, floating point 4/8 is float/double. *)
Definition canonicalBaseType (code width : N) : option string :=
  if (code =? btUInt)%N then
    match width with
    | 1 => Some "U8" | 2 => Some "U16" | 4 => Some "U32" | 8 => Some "U64"
    | 16 => Some "U128" | _ => None
    end%N
  else if (code =? btInt)%N then
    match width with
    | 1 => Some "I8" | 2 => Some "I16" | 4 => Some "I32" | 8 => Some "I64"
    | _ => None
    end%N
  else if (code =? btFloat)%N then
    match width with
    | 4 => Some "float" | 8 => Some "double" | _ => None
    end%N
  else None.

(** The initial state is never unfolded on the way; evaluation computes
    it. *)
Opaque Samples.initialised.

(** The node a base type name is registered with when the scan starts. *)
Definition canonicalNode (name : string) : option TypeId :=
  _typeMap Samples.initialised !! name.

(** The registry of [s'] holds every entry of the registry of [s]. *)
Definition registry_grows (s s' : PdbScanner) : Prop :=
  forall (n : string) (t : TypeId),
    _typeMap s !! n = Some t -> _typeMap s' !! n = Some t.

(** The heap of [s'] holds at least the objects of [s]. *)
Definition heap_grows (s s' : PdbScanner) : Prop :=
  length (heap s) <= length (heap s').

(** The references of the files held in [s'] are those held in [s]. *)
Definition held_same (s s' : PdbScanner) : Prop := held s' = held s.

(** A call that, when it returns, leaves a state related to the one it
    started in. *)
Definition preserves (R : PdbScanner -> PdbScanner -> Prop) {A} (m : M A)
    : Prop :=
  forall (s s' : PdbScanner) (a : A), m s = Ret a s' -> R s s'.

(** The entry points at a symbol do. *)
Definition scan_preserves (R : PdbScanner -> PdbScanner -> Prop) (sc : Scan)
    : Prop :=
  (forall outer, preserves R (scan_addSymbol sc outer))
  /\ (forall outer, preserves R (scan_createClassUDT sc outer))
  /\ (forall type modifiers outer,
        preserves R (scan_setType sc type modifiers outer)).

(** The chain of owners of an object ends after that many links. *)
Inductive chainEnds (h : list Type_) : TypeId -> nat -> Prop :=
  | chainEnds_here (t : TypeId) :
      _outerNamespace (at_ h t) = None -> chainEnds h t 0
  | chainEnds_next (t outer : TypeId) (k : nat) :
      _outerNamespace (at_ h t) = Some outer ->
      chainEnds h outer k -> chainEnds h t (S k).

(** The address of a member of an object that has not been deleted. *)
Definition slot_live (s : PdbScanner) (type : Slot) : Prop :=
  match memberOf type with
  | Some object => object ∉ deleted s
  | None => True
  end.

#[global] Instance slot_live_dec (s : PdbScanner) (type : Slot) :
  Decision (slot_live s type).
Proof. unfold slot_live. destruct (memberOf type); apply _. Defined.

(** The unresolved placeholder the patcher synthesises for a name. *)
Definition placeholder (n : string) : Type_ :=
  set_name n (newType ClassUDT 0).

(** The postponed references of a list whose name the registry does not
    know. *)
Definition unresolved (registry : gmap string TypeId)
    (postponed : list PostponedType) : list PostponedType :=
  filter (fun p => registry !! name p = None) postponed.

Module Scenarios.
Import Samples.

(** A class with a field whose type no source declares. *)
Definition danglingField : PdbFile :=
  pdb [ udt "Foo" 8 [ dataMember "next" 0 (pointerTo (udt "Bar" 0 [])) ] ].

(** A nested class whose name cannot be read. *)
Definition unreadableNested : IDiaSymbol :=
  DiaSymbol (failing_get_name (symbolData SymTagUDT "Inner" 4)) None [].

(** A class with a base class that no source declares and a nested
    class whose name cannot be read. *)
Definition fooWithBase : PdbFile :=
  pdb [ udt "Foo" 8 [ baseClass "Base"; unreadableNested ] ].

(** One class in two namespaces that no declaration introduces. *)
Definition leaf : IDiaSymbol := udt "Outer::Inner::Leaf" 8 [].

Definition nestedLeaf : PdbFile := pdb [ leaf ].

(** A typedef of an unsigned integer of three bytes. *)
Definition oddTypedef : IDiaSymbol := typedef "Odd" (baseType btUInt 3).

(** A class whose size cannot be read, and a file that declares it. *)
Definition unsizedClass : IDiaSymbol :=
  DiaSymbol (failing_get_length (symbolData SymTagUDT "Broken" 0)) None [].


(** A nested class met before the class that contains it, and that
    class, with a member of an anonymous union type. *)
Definition fooBar : IDiaSymbol := udt "Foo::Bar" 4 [].

Definition fooWithUnion : IDiaSymbol :=
  udt "Foo" 8
    [ dataMember "u" 0
        (udt "<unnamed-tag>" 4 [ dataMember "i" 0 (baseType btInt 4) ]) ].

(** The state once [Foo::Bar] is scanned: [Foo] is object 35, with
    [Bar], object 36, as its only child. *)
Definition afterFooBar : PdbScanner :=
  stateAfter (addSymbol_of noBlacklist fooBar None initialised).


(** A class [N::Foo] with two fields and a nested class, as two files
    declare it. *)
Definition nFoo : IDiaSymbol :=
  udt "N::Foo" 12
    [ udt "Bar" 4 [ dataMember "x" 0 (baseType btInt 4) ];
      dataMember "a" 0 (baseType btUInt 4);
      dataMember "b" 4 (baseType btUInt 8) ].

Definition nFooFile : PdbFile := pdb [ nFoo ].






Definition brokenFile : PdbFile := pdb [ unsizedClass ].

(** A file with one sound class, to come after another file. *)
Definition lateFile : PdbFile := pdb [ udt "Late" 4 [] ].

(** A typedef of a pointer to a class that is declared nowhere. *)
Definition handleTypedef : IDiaSymbol :=
  typedef "Handle" (pointerTo (udt "Opaque" 0 [])).

(** Anonymous types at the root, nested in a class, and in a
    namespace. *)
Definition anonymousTypes : PdbFile :=
  pdb [ udt "<unnamed-type-a>" 4 [];
        udt "Outer" 8 [ udt "<unnamed-type-in>" 4 [] ];
        udt "<unnamed-tag>" 4 [];
        udt "N::<unnamed-type-b>" 4 [] ].

(** An anonymous class in two namespaces that no declaration
    introduces. *)
Definition anonymousInNamespaces : PdbFile :=
  pdb [ udt "N::M::<unnamed-type-b>" 4 [] ].

(** A class with a typedef of it under a name inside it, and the class
    with a nested class of that name. *)
Definition classAndAlias : PdbFile :=
  pdb [ udt "A" 4 []; typedef "A::B" (udt "A" 4 []) ].

Definition classWithNested : PdbFile :=
  pdb [ udt "A" 4 [ udt "B" 4 [] ] ].

(** The state in which [startScan] calls the renamer for the scan of one
    file. *)
Definition beforeRenaming (file : PdbFile) : PdbScanner :=
  stateAfter
    ((let* _ := scanFiles noBlacklist 0 [file] in updatePostponedFieldNames)
       initialised).

End Scenarios.

(** *** The order in which the renamer visits the graph *)

Fixpoint concatVisits (visit : TypeId -> option (list TypeId))
    (types : list TypeId) : option (list TypeId) :=
  match types with
  | [] => Some []
  | type :: rest =>
      match visit type, concatVisits visit rest with
      | Some first, Some others => Some (first ++ others)
      | _, _ => None
      end
  end.

(** A type, then its children and theirs, child list by child list;
    [None] when the child lists nest deeper than [depth]. *)
Fixpoint visitOrder (depth : nat) (h : list Type_) (type : TypeId)
    : option (list TypeId) :=
  match getSubUDTS (at_ h type) with
  | None => Some [type]
  | Some subUDTs =>
      match depth with
      | S depth' =>
          match concatVisits (visitOrder depth' h) subUDTs with
          | Some below => Some (type :: below)
          | None => None
          end
      | O =>
          match subUDTs with
          | [] => Some [type]
          | _ :: _ => None
          end
      end
  end.

(** The visits of the whole pass: every root type in the order of the
    root list. *)
Definition visitOrderOfPass (s : PdbScanner) : option (list TypeId) :=
  concatVisits (visitOrder (length (heap s)) (heap s)) (_types s).




Definition anonymousNested (h : list Type_) (t : TypeId) : bool :=
  isAnonymousName (_name (at_ h t))
  && negb (bool_decide (getNamespace (at_ h t) = None)
           && negb (StdString.contains (_name (at_ h t)) "::")).





(** *** The guards of the child loop *)




(** *** The base type table *)

(** The names [initBaseTypeList] creates a type for, in the order in which
    it creates them. *)
Definition baseTypeNames : list string := baseTypeArray ++ [errorNoType].

(** The base type object of a name. *)
Definition baseTypeNode (n : string) : Type_ := set_name n (newType BaseType 0).

(** The last position of a name in a list of names. *)
Fixpoint lastIndexOf (n : string) (names : list string) : option nat :=
  match names with
  | [] => None
  | first :: rest =>
      match lastIndexOf n rest with
      | Some i => Some (S i)
      | None => if bool_decide (first = n) then Some 0 else None
      end
  end.

(** *** Enum members *)

(** The member names [addEnumMembers] reads: those before the first
    child whose name cannot be read. *)
Fixpoint readableNames (childSymbols : list SymbolData) : list string :=
  match childSymbols with
  | [] => []
  | childSymbol :: rest =>
      match getName childSymbol with
      | (DDR_RC_OK, n) => n :: readableNames rest
      | (DDR_RC_ERROR, _) => []
      end
  end.

Definition namesReadable (childSymbols : list SymbolData) : bool :=
  forallb (fun c => bool_decide ((getName c).1 = DDR_RC_OK)) childSymbols.

(** An enum with further members pushed, one after the other. *)
Definition push_enumMembers (names : list string) (t : Type_) : Type_ :=
  foldl (fun t n => push_enumMember n t) t names.

(** *** The declared type of a typedef *)

(** The tags at which the walk of [createTypedef] stops. *)
Definition leavesWalk (symTag : SymTagEnum) : bool :=
  bool_decide (symTag = SymTagUDT) || bool_decide (symTag = SymTagEnum_)
  || bool_decide (symTag = SymTagBaseType)
  || bool_decide (symTag = SymTagFunctionType).

(** The first symbol behind a symbol, through [get_type], whose tag is
    one of these, when [get_type] and [get_symTag] succeed all the way to
    it. *)
Fixpoint declaredType (symbol : IDiaSymbol)
    : option (IDiaSymbol * SymTagEnum) :=
  match get_type symbol with
  | None => None
  | Some next =>
      match get_symTag (data next) with
      | None => None
      | Some symTag =>
          if leavesWalk symTag then Some (next, symTag)
          else declaredType next
      end
  end.

Module MoreScenarios.
Import Samples.

(** A typedef of an unsigned integer of four bytes. *)
Definition typedefOfU32 : IDiaSymbol := typedef "U32_t" (baseType btUInt 4).

(** [int *m[3][4]]: a member that is an array of three arrays of four
    pointers to a signed integer of four bytes. *)
Definition arrayOf (count : N) (type : IDiaSymbol) : IDiaSymbol :=
  DiaSymbol
    {| get_symTag := Some SymTagArrayType; get_name := BSTR_chars "";
       get_length := Some 0%N; get_baseType := Some 0%N;
       get_udtKind := Some 0%N; get_locationType := Some LocIsThisRel;
       get_offset := Some 0%Z; get_bitPosition := Some 0%N;
       get_reference := Some false; get_constType := Some false;
       get_volatileType := Some false; get_unalignedType := Some false;
       get_count := Some count; enumeration := Enumerated |}
    (Some type) [].

Definition matrixOfPointers : IDiaSymbol :=
  dataMember "m" 0 (arrayOf 3 (arrayOf 4 (pointerTo (baseType btInt 4)))).

(** [enum Color { Red, Green }] *)
Definition colorEnum : IDiaSymbol :=
  DiaSymbol (symbolData SymTagEnum_ "Color" 4) None
    [ DiaSymbol (symbolData SymTagData "Red" 0) None [];
      DiaSymbol (symbolData SymTagData "Green" 0) None [] ].

(** A class [Bar] whose children cannot be enumerated. *)
Definition closedClass : IDiaSymbol :=
  DiaSymbol
    {| get_symTag := Some SymTagUDT; get_name := BSTR_chars "Bar";
       get_length := Some 4%N; get_baseType := Some 0%N;
       get_udtKind := Some 0%N; get_locationType := Some LocIsThisRel;
       get_offset := Some 0%Z; get_bitPosition := Some 0%N;
       get_reference := Some false; get_constType := Some false;
       get_volatileType := Some false; get_unalignedType := Some false;
       get_count := Some 0%N; enumeration := findChildren_FAILED |}
    None [].

(** The state once a class [Foo] is scanned: [Foo] is object 35. *)
Definition afterFoo : PdbScanner :=
  stateAfter (addSymbol_of noBlacklist (udt "Foo" 8 []) None initialised).

(** A typedef whose type cannot be read. *)
Definition typedefOfNothing : IDiaSymbol :=
  DiaSymbol (symbolData SymTagTypedef "T" 0) None [].

End MoreScenarios.

(** The name [createTypedef] asks the blacklist about for the declared
    type: the name of a class or an enum, the empty name for a base type
    or a function type. *)
Definition declaredTypeName (declared : IDiaSymbol) (symTag : SymTagEnum)
    : DDR_RC * string :=
  if bool_decide (symTag = SymTagUDT) || bool_decide (symTag = SymTagEnum_)
  then getName (data declared)
  else (DDR_RC_OK, "").

(** *** The levels of a declared type *)

(** A level [setType] passes on its way from a symbol to its declared
    type: an array with its dimension, a pointer, a reference. *)
Inductive TypeLevel :=
  | ArrayLevel (size : N)
  | PointerLevel
  | ReferenceLevel.

(** The levels from a symbol on, outermost first.  Whether a pointer
    level counts as a reference is what [get_reference] answers for the
    symbol that has the pointer as its type: that is the symbol
    [setType] hands to [setPointerType]. *)
Fixpoint typeLevels (symbol : IDiaSymbol) : list TypeLevel :=
  match get_type symbol with
  | None => []
  | Some typeSymbol =>
      match get_symTag (data typeSymbol) with
      | Some SymTagArrayType =>
          match get_count (data typeSymbol) with
          | Some size => ArrayLevel size :: typeLevels typeSymbol
          | None => []
          end
      | Some SymTagPointerType =>
          match get_reference (data symbol) with
          | Some true => ReferenceLevel :: typeLevels typeSymbol
          | Some false => PointerLevel :: typeLevels typeSymbol
          | None => []
          end
      | _ => []
      end
  end.

Fixpoint dimensions (levels : list TypeLevel) : list N :=
  match levels with
  | [] => []
  | ArrayLevel size :: rest => size :: dimensions rest
  | _ :: rest => dimensions rest
  end.

Fixpoint pointerLevels (levels : list TypeLevel) : N :=
  match levels with
  | [] => 0
  | PointerLevel :: rest => 1 + pointerLevels rest
  | _ :: rest => pointerLevels rest
  end.

Fixpoint referenceLevels (levels : list TypeLevel) : N :=
  match levels with
  | [] => 0
  | ReferenceLevel :: rest => 1 + referenceLevels rest
  | _ :: rest => referenceLevels rest
  end.

(** *** What fails the pass over a file *)

(** A declaration whose tag can be read and, for a class or an enum,
    whose name can be read: what the loop of [addChildrenSymbols] asks of
    a child before it hands it to the dispatcher. *)
Definition readableDeclaration (d : SymbolData) : bool :=
  match get_symTag d with
  | None => false
  | Some symTag =>
      if bool_decide (symTag = SymTagEnum_) || bool_decide (symTag = SymTagUDT)
      then bool_decide ((getName d).1 = DDR_RC_OK)
      else true
  end.

(** The children of a tag can be enumerated and every one of them is
    readable. *)
Definition passSucceeds (symbol : IDiaSymbol) (symTag : SymTagEnum) : bool :=
  let childSymbols :=
    filter (fun c => matchesTag symTag (data c)) (children symbol) in
  match enumeration (data symbol), childSymbols with
  | findChildren_FAILED, _ => false
  | get_Count_FAILED, _ => false
  | Next_FAILED, _ :: _ => false
  | _, _ => forallb (fun c => readableDeclaration (data c)) childSymbols
  end.

(** The file opens and its three passes succeed. *)
Definition fileSucceeds (file : PdbFile) : bool :=
  createDataSource file && loadData file && openSession file
  && match get_globalScope file with
     | None => false
     | Some diaSymbol =>
         passSucceeds diaSymbol SymTagUDT
         && passSucceeds diaSymbol SymTagEnum_
         && passSucceeds diaSymbol SymTagTypedef
     end.

(** *** What a scan does to the objects it finds *)

(** An update of an object that keeps its class, keeps or blanks its
    name, and only appends to its lists of children, of fields and of
    enum members. *)
Definition extends (f : Type_ -> Type_) : Prop :=
  forall x : Type_,
    _class (f x) = _class x
    /\ (_name (f x) = _name x \/ _name (f x) = "")
    /\ _subUDTs x `prefix_of` _subUDTs (f x)
    /\ _fieldMembers x `prefix_of` _fieldMembers (f x)
    /\ _enumMembers x `prefix_of` _enumMembers (f x).

(** The objects of [s] are objects of [s'], each of the same class, with
    its name or no name, and with its children, fields and enum members
    first among those it has in [s']. *)
Definition structure_grows (s s' : PdbScanner) : Prop :=
  length (heap s) <= length (heap s')
  /\ forall t : TypeId,
       t < length (heap s) ->
       _class (at_ (heap s') t) = _class (at_ (heap s) t)
       /\ (_name (at_ (heap s') t) = _name (at_ (heap s) t)
           \/ _name (at_ (heap s') t) = "")
       /\ _subUDTs (at_ (heap s) t) `prefix_of` _subUDTs (at_ (heap s') t)
       /\ _fieldMembers (at_ (heap s) t)
            `prefix_of` _fieldMembers (at_ (heap s') t)
       /\ _enumMembers (at_ (heap s) t)
            `prefix_of` _enumMembers (at_ (heap s') t).

(** The postponed references of [s] are the first of those of [s']. *)
Definition postponed_grows (s s' : PdbScanner) : Prop :=
  _postponedFields s `prefix_of` _postponedFields s'.

(** The part of a qualified name behind its last separator, the
    separators being taken from left to right. *)
Fixpoint simpleName (name : string) : string :=
  match name with
  | EmptyString => EmptyString
  | String c rest =>
      if String.prefix "::" name then
        match rest with
        | String _ rest' => simpleName rest'
        | EmptyString => name
        end
      else if StdString.contains rest "::" then simpleName rest
      else name
  end.

(** * Properties *)

(** ** Facts about the string operations *)

Module StdStringFacts.
Import StdString.



Lemma substring_whole (q : string) :
  String.substring 0 (String.length q) q = q.
Proof. induction q as [|c q IH]; simpl; [reflexivity | by rewrite IH]. Qed.

Lemma length_app (p q : string) :
  String.length (p +:+ q) = String.length p + String.length q.
Proof. induction p as [|c p IH]; simpl; [reflexivity | by rewrite IH]. Qed.

Lemma app_cons (c : ascii) (p q : string) :
  String c p +:+ q = String c (p +:+ q).
Proof. reflexivity. Qed.

Lemma app_assoc (p q r : string) : p +:+ q +:+ r = (p +:+ q) +:+ r.
Proof.
  induction p as [|c p IH]; [reflexivity |].
  by rewrite !app_cons, IH.
Qed.




End StdStringFacts.

(** ** Running the state-passing code *)

Lemma bind_Ret {A B} (m : M A) (k : A -> M B) (s s' : PdbScanner) (a : A) :
  m s = Ret a s' -> bind m k s = k a s'.
Proof. intros H. unfold bind. by rewrite H. Qed.

Lemma bind_Abort {A B} (m : M A) (k : A -> M B) (s : PdbScanner) (f : Fault) :
  m s = Abort f -> bind m k s = Abort f.
Proof. intros H. unfold bind. by rewrite H. Qed.

Lemma bind_inv {A B} (m : M A) (k : A -> M B) (s s' : PdbScanner) (b : B) :
  bind m k s = Ret b s' ->
  exists a s1, m s = Ret a s1 /\ k a s1 = Ret b s'.
Proof.
  unfold bind. destruct (m s) as [a s1|]; [| discriminate]. by eexists _, _.
Qed.

Lemma isRegistered_spec (n : string) (s : PdbScanner) :
  isRegistered n s
  = Ret (match _typeMap s !! n with Some _ => true | None => false end) s.
Proof.
  unfold isRegistered, gets. f_equal.
  destruct (_typeMap s !! n) eqn:E.
  - apply bool_decide_eq_true. eauto.
  - apply bool_decide_eq_false. intros [x Hx]. congruence.
Qed.

(** ** Qualified names and the registry *)

Lemma getFullName_inv (t : TypeId) (s s' : PdbScanner) (fullName : string) :
  getFullName t s = Ret fullName s' ->
  s' = s /\ getFullName_from (length (heap s)) (heap s) t = Some fullName.
Proof.
  unfold getFullName.
  destruct (getFullName_from _ _ _); [| discriminate]. by intros [= -> ->].
Qed.

Lemma getFullName_named (t : TypeId) (s : PdbScanner) (fullName : string) :
  getFullName_from (length (heap s)) (heap s) t = Some fullName ->
  getFullName t s = Ret fullName s.
Proof. unfold getFullName. by intros ->. Qed.

(** [addType] in one step, for a type that has a qualified name: what it
    does by the registry. *)
Lemma addType_run (type : TypeId) (addToIR : bool) (s : PdbScanner)
    (fullName : string) :
  getFullName_from (length (heap s)) (heap s) type = Some fullName ->
  addType type addToIR s
  = Ret tt
      (match _typeMap s !! fullName with
       | Some _ => s
       | None =>
           if StdString.empty fullName then s
           else with_typeMap (insert fullName type)
                  (if addToIR then with_types (fun l => l ++ [type]) s else s)
       end).
Proof.
  intros Hname. unfold addType.
  erewrite bind_Ret by (by apply getFullName_named).
  unfold bind, gets. rewrite isRegistered_spec. simpl.
  destruct (_typeMap s !! _); [by destruct (StdString.empty _) |].
  destruct (StdString.empty _); [reflexivity |].
  by destruct addToIR.
Qed.

(** [addType] returns only for a type that has a qualified name. *)
Lemma addType_inv (type : TypeId) (addToIR : bool) (s s' : PdbScanner)
    (u : unit) :
  addType type addToIR s = Ret u s' ->
  exists fullName : string,
    getFullName_from (length (heap s)) (heap s) type = Some fullName
    /\ s' = match _typeMap s !! fullName with
            | Some _ => s
            | None =>
                if StdString.empty fullName then s
                else with_typeMap (insert fullName type)
                       (if addToIR
                        then with_types (fun l => l ++ [type]) s else s)
            end.
Proof.
  intros Hrun.
  destruct (getFullName_from (length (heap s)) (heap s) type)
    as [fullName|] eqn:Hname.
  - exists fullName. split; [reflexivity |].
    rewrite (addType_run _ _ _ _ Hname) in Hrun. by injection Hrun as <-.
  - unfold addType, bind at 1, getFullName in Hrun. by rewrite Hname in Hrun.
Qed.

(** *** The chain of owners

    [getFullName] follows the owner links for as many steps as the heap
    has objects. *)

Lemma chainEnds_unique (h : list Type_) (t : TypeId) (k k' : nat) :
  chainEnds h t k -> chainEnds h t k' -> k = k'.
Proof.
  intros Hk. revert k'.
  induction Hk as [t Hnone | t outer k Houter _ IH]; intros k' Hk';
    inversion Hk' as [t' Hnone' | t' outer' j Houter' Hj]; subst;
    try congruence.
  f_equal. apply IH. congruence.
Qed.

Lemma getFullName_from_chainEnds (h : list Type_) :
  forall (steps : nat) (t : TypeId) (fullName : string),
    getFullName_from steps h t = Some fullName ->
    exists k, k <= steps /\ chainEnds h t k.
Proof.
  induction steps as [|steps IH]; intros t fullName; simpl;
    destruct (_outerNamespace (at_ h t)) as [outer|] eqn:Houter;
    try discriminate.
  - intros _. exists 0. split; [lia | by constructor].
  - destruct (getFullName_from steps h outer) as [outerName|] eqn:E;
      [| discriminate].
    intros _. destruct (IH _ _ E) as (k & Hk & Hends).
    exists (S k). split; [lia | by econstructor].
  - intros _. exists 0. split; [lia | by constructor].
Qed.

Lemma chainEnds_getFullName (h : list Type_) (t : TypeId) (k : nat) :
  chainEnds h t k ->
  exists fullName,
    forall steps, k <= steps -> getFullName_from steps h t = Some fullName.
Proof.
  induction 1 as [t Hnone | t outer k Houter _ [outerName IH]].
  - exists (_name (at_ h t)). intros [|steps] _; simpl; by rewrite Hnone.
  - exists (outerName +:+ "::" +:+ _name (at_ h t)).
    intros [|steps] Hsteps; [lia |]. simpl. rewrite Houter.
    by rewrite IH by lia.
Qed.

(** Only an object of the heap has an owner. *)
Lemma owner_in_heap (h : list Type_) (t outer : TypeId) :
  _outerNamespace (at_ h t) = Some outer -> t < length h.
Proof.
  intros Houter. destruct (decide (t < length h)) as [|Hout]; [done |].
  unfold at_ in Houter. rewrite list_lookup_total_alt in Houter.
  rewrite lookup_ge_None_2 in Houter by lia. discriminate.
Qed.

(** A chain of owners that ends meets no object twice. *)
Lemma chainEnds_objects (h : list Type_) (t : TypeId) (k : nat) :
  chainEnds h t k ->
  exists l : list TypeId,
    length l = k /\ NoDup l
    /\ forall x, x ∈ l -> x < length h
                          /\ exists j, 0 < j <= k /\ chainEnds h x j.
Proof.
  induction 1 as [t Hnone | t outer k Houter Hends (l & Hlen & Hnodup & Hl)].
  - exists []. split; [done |]. split; [constructor |].
    intros x Hx. by apply elem_of_nil in Hx.
  - exists (t :: l). split; [simpl; by rewrite Hlen |]. split.
    + constructor; [| done]. intros Ht.
      destruct (Hl t Ht) as (_ & j & Hj & Hends').
      assert (j = S k)
        by (eapply chainEnds_unique; [exact Hends' | by econstructor]).
      lia.
    + intros x [-> | Hx]%elem_of_cons.
      * split; [by eapply owner_in_heap |].
        exists (S k). split; [lia | by econstructor].
      * destruct (Hl x Hx) as (Hin & j & Hj & Hends'). split; [done |].
        exists j. split; [lia | done].
Qed.

Lemma chainEnds_bound (h : list Type_) (t : TypeId) (k : nat) :
  chainEnds h t k -> k <= length h.
Proof.
  intros (l & <- & Hnodup & Hl)%chainEnds_objects.
  trans (length (seq 0 (length h))); [| by rewrite length_seq].
  apply submseteq_length, NoDup_submseteq; [done |].
  intros x Hx. apply elem_of_seq. destruct (Hl x Hx). lia.
Qed.

(** The steps [getFullName] gives the recursion are enough: where it finds
    no name within them, there is none at any depth. *)
Lemma getFullName_from_enough (h : list Type_) (t : TypeId) :
  getFullName_from (length h) h t = None ->
  forall steps, getFullName_from steps h t = None.
Proof.
  intros Hnone steps.
  destruct (getFullName_from steps h t) as [fullName|] eqn:E; [| done].
  apply getFullName_from_chainEnds in E as (k & _ & Hends).
  destruct (chainEnds_getFullName _ _ _ Hends) as [fullName' Hname].
  rewrite Hname in Hnone by (by eapply chainEnds_bound). discriminate.
Qed.

(** More steps do not change the name. *)
Lemma getFullName_from_more (h : list Type_) (t : TypeId) (fullName : string)
    (steps steps' : nat) :
  getFullName_from steps h t = Some fullName ->
  steps <= steps' ->
  getFullName_from steps' h t = Some fullName.
Proof.
  intros E Hle.
  destruct (getFullName_from_chainEnds _ _ _ _ E) as (k & Hk & Hends).
  destruct (chainEnds_getFullName _ _ _ Hends) as [fullName' Hname].
  rewrite Hname in E by done. rewrite Hname by lia. done.
Qed.

(** ** C8: superclass resolution never fails *)

(** C8: for every base-class declaration and every class, [setSuperClassName]
    returns [DDR_RC_OK].  A registered superclass name is bound to the
    class's superclass reference at once; a name that is not registered is
    recorded in the postponed list; an empty name, or a name that cannot
    be read, changes nothing. *)
Theorem setSuperClassName_always_succeeds :
  forall (symbol : SymbolData) (newUDT : TypeId) (s : PdbScanner),
  exists s',
    setSuperClassName symbol (Some newUDT) s = Ret DDR_RC_OK s'
    /\ match getName symbol with
       | (DDR_RC_ERROR, _) => s' = s
       | (DDR_RC_OK, superName) =>
           if StdString.empty superName then s' = s
           else
             match _typeMap s !! superName with
             | Some superClass =>
                 s' = with_slots
                        (store_slot (superClass_of newUDT) (Some superClass)) s
             | None =>
                 s' = with_postponedFields
                        (fun l => l ++ [{| type := superClass_of newUDT;
                                           name := superName |}]) s
             end
       end.
Proof.
  intros symbol newUDT s. unfold setSuperClassName.
  destruct (getName symbol) as [[|] superName]; [| by eexists].
  destruct (StdString.empty superName); simpl; [by eexists |].
  unfold bind at 1. unfold bind at 1. rewrite isRegistered_spec.
  destruct (_typeMap s !! superName) as [superClass|] eqn:E; simpl.
  - eexists; split; [reflexivity |].
    unfold gets, store, modify, bind. simpl. by rewrite E.
  - by eexists.
Qed.

(** ** C10: names are read through [getName] *)

Section GetName.
Import StdString StdStringFacts.







End GetName.


(** Only the first marker goes: a second one stays in the name. *)
Example second_marker_is_kept :
  stripAnonymousNamespace
    "`anonymous-namespace'::A::`anonymous-namespace'::B"
  = "A::`anonymous-namespace'::B".
Proof. reflexivity. Qed.

(** The hyphenated marker is looked for first, wherever it is. *)
Example hyphenated_marker_first :
  stripAnonymousNamespace
    "`anonymous namespace'::A::`anonymous-namespace'::B"
  = "`anonymous namespace'::A::B".
Proof. reflexivity. Qed.

(** ** C6: base types are canonical *)

Lemma getType_spec (n : string) (s : PdbScanner) :
  n <> "" -> getType n s = Ret (_typeMap s !! n) s.
Proof. intros Hn. unfold getType. by destruct n. Qed.

Lemma bindTo_registered (n : string) (type : Slot) (s : PdbScanner) :
  n <> "" ->
  (let* t := getType n in let* _ := store type t in ret DDR_RC_OK) s
  = Ret DDR_RC_OK (with_slots (store_slot type (_typeMap s !! n)) s).
Proof.
  intros Hn. unfold bind. by rewrite getType_spec.
Qed.

Lemma canonicalBaseType_nonempty (code width : N) (n : string) :
  canonicalBaseType code width = Some n -> n <> "".
Proof.
  unfold canonicalBaseType.
  repeat case_match; intros [= <-]; discriminate.
Qed.

Lemma canonicalBaseType_node (code width : N) (n : string) :
  canonicalBaseType code width = Some n ->
  exists t, canonicalNode n = Some t
            /\ _name (at_ (heap Samples.initialised) t) = n.
Proof.
  unfold canonicalBaseType.
  repeat case_match; intros [= <-]; eexists; split;
    solve [vm_compute; reflexivity].
Qed.

(** The three width switches against the table of the specification. *)
Lemma setBaseType_by_width (typeSymbol : SymbolData) (type : Slot)
    (s : PdbScanner) (code width : N) :
  get_baseType typeSymbol = Some code ->
  get_length typeSymbol = Some width ->
  code = btUInt \/ code = btInt \/ code = btFloat ->
  setBaseType typeSymbol type s
  = match canonicalBaseType code width with
    | Some n => Ret DDR_RC_OK (with_slots (store_slot type (_typeMap s !! n)) s)
    | None => Ret DDR_RC_ERROR s
    end.
Proof.
  intros Hcode Hwidth Hcases.
  unfold setBaseType, getSize. rewrite Hcode, Hwidth. simpl.
  unfold canonicalBaseType.
  destruct Hcases as [-> | [-> | ->]]; simpl;
    unfold setBaseTypeUInt, setBaseTypeInt, setBaseTypeFloat;
    repeat case_match; try reflexivity;
    by apply bindTo_registered.
Qed.

(** *** What every call of a scan preserves

    A relation between the state before and the state after, reflexive
    and transitive, that every update of the state respects is respected
    by every builder, at every symbol. *)

(** Induction over a symbol tree: through [get_type] and through the
    children. *)
Lemma IDiaSymbol_tree_ind (P : IDiaSymbol -> Prop) :
  (forall d type children,
      (forall t, type = Some t -> P t) ->
      Forall P children ->
      P (DiaSymbol d type children)) ->
  forall symbol, P symbol.
Proof.
  intros step.
  fix IH 1. intros [d type children]. apply step.
  - destruct type as [t|]; intros t' E; [| discriminate].
    injection E as <-. apply IH.
  - revert children. fix IHchildren 1.
    intros [|c cs]; constructor; [apply IH | apply IHchildren].
Qed.

Section Preservation.
Variable R : PdbScanner -> PdbScanner -> Prop.
Hypothesis R_refl : forall s, R s s.
Hypothesis R_trans : forall s1 s2 s3, R s1 s2 -> R s2 s3 -> R s1 s3.
Hypothesis R_new : forall s t, R s (with_heap (fun h => h ++ [t]) s).
Hypothesis R_write : forall s t f, R s (with_heap (alter f t) s).
Hypothesis R_fieldHeap : forall s f, R s (with_fieldHeap f s).
Hypothesis R_slots : forall s f, R s (with_slots f s).
Hypothesis R_types : forall s f, R s (with_types f s).
Hypothesis R_postponed : forall s f, R s (with_postponedFields f s).
Hypothesis R_deleted : forall s f, R s (with_deleted f s).
Hypothesis R_held : forall s f, R s (with_held f s).
Hypothesis R_register :
  forall s n t, _typeMap s !! n = None -> R s (with_typeMap (insert n t) s).


Lemma keeps_ret {A} (a : A) : preserves R (ret a).
Proof. intros s s' a' [= _ <-]. apply R_refl. Qed.

Lemma keeps_abort {A} (f : Fault) : preserves R (@abort A f).
Proof. intros s s' a. discriminate. Qed.

Lemma keeps_gets {A} (f : PdbScanner -> A) : preserves R (gets f).
Proof. intros s s' a [= _ <-]. apply R_refl. Qed.

Lemma keeps_bind {A B} (m : M A) (k : A -> M B) :
  preserves R m -> (forall a, preserves R (k a)) ->
  preserves R (bind m k).
Proof.
  intros Hm Hk s s' b. unfold bind.
  destruct (m s) as [a s1|] eqn:E; [| discriminate].
  intros Hka. eapply R_trans; [by eapply Hm | by eapply Hk].
Qed.

Lemma keeps_getFullName (t : TypeId) : preserves R (getFullName t).
Proof. intros s s' n [-> _]%getFullName_inv. apply R_refl. Qed.

Lemma keeps_addType (type : TypeId) (addToIR : bool) :
  preserves R (addType type addToIR).
Proof.
  intros s s' a Hrun.
  destruct (addType_inv _ _ _ _ _ Hrun) as (fullName & _ & ->).
  destruct (_typeMap s !! fullName) eqn:E;
    destruct (StdString.empty fullName); simpl;
    try apply R_refl.
  destruct addToIR.
  - eapply R_trans; [apply R_types |]. by apply R_register.
  - by apply R_register.
Qed.

Lemma keeps_whenOK (rc : DDR_RC) (m : M DDR_RC) :
  preserves R m -> preserves R (whenOK rc m).
Proof. destruct rc; simpl; [auto | intros _; apply keeps_ret]. Qed.

Lemma keeps_deref {A} (p : option TypeId) (k : TypeId -> M A) :
  (forall t, preserves R (k t)) -> preserves R (deref p k).
Proof. destruct p; simpl; [auto | intros _; apply keeps_abort]. Qed.

Lemma keeps_primitives :
  (forall t, preserves R (new_ t))
  /\ preserves R new_Field
  /\ (forall t, preserves R (delete t))
  /\ (forall t f, preserves R (write t f))
  /\ (forall fid f, preserves R (writeField fid f))
  /\ (forall type t, preserves R (store type t))
  /\ (forall type n, preserves R (postpone type n))
  /\ (forall f, preserves R (modify (with_types f))).
Proof.
  repeat split; intros; intros s s' a [= _ <-];
    auto using R_new, R_write, R_fieldHeap, R_slots, R_postponed, R_deleted,
               R_types.
Qed.

(** One step of a proof that a body preserves the relation. *)
Ltac keeps_step :=
  lazymatch goal with
  | |- preserves R (bind _ _) => apply keeps_bind; [| intros ?]
  | |- preserves R (ret _) => apply keeps_ret
  | |- preserves R (abort _) => apply keeps_abort
  | |- preserves R (gets _) => apply keeps_gets
  | |- preserves R (read _ _) => apply keeps_gets
  | |- preserves R (load _) => apply keeps_gets
  | |- preserves R (isRegistered _) => apply keeps_gets
  | |- preserves R (getFullName _) => apply keeps_getFullName
  | |- preserves R (getBaseType _) => apply keeps_gets
  | |- preserves R (whenOK _ _) => apply keeps_whenOK
  | |- preserves R (deref _ _) => apply keeps_deref; intros ?
  | |- preserves R (addType _ _) => apply keeps_addType
  | |- preserves R (new_ _) => apply keeps_primitives
  | |- preserves R new_Field => apply keeps_primitives
  | |- preserves R (delete _) => apply keeps_primitives
  | |- preserves R (write _ _) => apply keeps_primitives
  | |- preserves R (writeField _ _) => apply keeps_primitives
  | |- preserves R (store _ _) => apply keeps_primitives
  | |- preserves R (postpone _ _) => apply keeps_primitives
  | |- preserves R (modify (with_types _)) => apply keeps_primitives
  | |- preserves R (match ?x with _ => _ end) => destruct x eqn:?
  | |- preserves R (let (_, _) := ?x in _) => destruct x eqn:?
  end.

Ltac keeps := repeat keeps_step; eauto.

(** The registry has grown along a call that returned. *)
Ltac keeps_from E :=
  refine ((_ : preserves R _) _ _ _ E).

Lemma keeps_getType (n : string) : preserves R (getType n).
Proof. unfold getType. keeps. Qed.

Lemma keeps_setBaseType (typeSymbol : SymbolData) (type : Slot) :
  preserves R (setBaseType typeSymbol type).
Proof.
  unfold setBaseType, setBaseTypeUInt, setBaseTypeInt, setBaseTypeFloat.
  keeps; apply keeps_getType.
Qed.

Lemma keeps_setMemberOffset (symbol : SymbolData) (newField : FieldId) :
  preserves R (setMemberOffset symbol newField).
Proof. unfold setMemberOffset. keeps. Qed.

Lemma keeps_getNamespaceFromName_loop (iterations : nat) (n : string) :
  forall (previousPos : nat) (outerNamespace : option TypeId),
    preserves R
      (getNamespaceFromName_loop iterations n previousPos outerNamespace).
Proof.
  induction iterations as [|iterations IH]; intros previousPos outerNamespace;
    simpl; keeps; apply keeps_getType.
Qed.

Lemma keeps_getNamespaceFromName (n : string) (outerUDT : option TypeId) :
  preserves R (getNamespaceFromName n outerUDT).
Proof.
  unfold getNamespaceFromName. keeps. apply keeps_getNamespaceFromName_loop.
Qed.

Variable checkBlacklistedType : string -> bool.

Lemma keeps_setTypeUDT (typeSymbol : Handle) (type : Slot)
    (outerUDT : option TypeId) :
  scan_preserves R (scan_of typeSymbol) ->
  preserves R (setTypeUDT typeSymbol type outerUDT).
Proof.
  intros (_ & Hclass & _). unfold setTypeUDT. keeps.
Qed.

Lemma keeps_setType (symbol : SymbolData) (typeSymbol : option Handle)
    (type : Slot) (modifiers : Modifiers) (outerUDT : option TypeId) :
  (forall h, typeSymbol = Some h -> scan_preserves R (scan_of h)) ->
  preserves R (setType symbol typeSymbol type modifiers outerUDT).
Proof.
  intros Hh. unfold setType.
  destruct typeSymbol as [h|]; [| apply keeps_abort].
  pose proof (Hh h eq_refl) as Hscan.
  pose proof Hscan as (_ & _ & Hset).
  keeps; try apply keeps_setTypeUDT; try apply keeps_setBaseType;
    try apply keeps_getType; eauto.
Qed.

Lemma keeps_addFieldMember (symbol : SymbolData) (typeSymbol : option Handle)
    (udt : option TypeId) :
  (forall h, typeSymbol = Some h -> scan_preserves R (scan_of h)) ->
  preserves R (addFieldMember symbol typeSymbol udt).
Proof.
  intros Hh. unfold addFieldMember.
  keeps; try apply keeps_setMemberOffset; by apply keeps_setType.
Qed.

Lemma keeps_setSuperClassName (symbol : SymbolData) (newUDT : option TypeId) :
  preserves R (setSuperClassName symbol newUDT).
Proof. unfold setSuperClassName. keeps. Qed.

Lemma keeps_addEnumMembers_loop (childSymbols : list SymbolData)
    (enumUDT : TypeId) :
  forall rc, preserves R (addEnumMembers_loop childSymbols enumUDT rc).
Proof.
  induction childSymbols as [|c cs IH]; intros rc; simpl; keeps.
Qed.

Lemma keeps_addEnumMembers (symbol : IDiaSymbol) (enumUDT : TypeId) :
  preserves R (addEnumMembers symbol enumUDT).
Proof.
  unfold addEnumMembers. keeps; apply keeps_addEnumMembers_loop.
Qed.

Lemma keeps_qualifiedBy (outer : option TypeId) (n : string) :
  preserves R (qualifiedBy outer n).
Proof. unfold qualifiedBy. keeps. Qed.

Lemma keeps_createEnumUDT (symbol : IDiaSymbol)
    (outerNamespace : option TypeId) :
  preserves R (createEnumUDT checkBlacklistedType symbol outerNamespace).
Proof.
  unfold createEnumUDT.
  keeps; try apply keeps_qualifiedBy; try apply keeps_getNamespaceFromName;
    try apply keeps_addEnumMembers; try apply keeps_getType.
Qed.

Lemma keeps_addChildrenSymbols_outer (childSymbols : list Handle)
    (outerNamespace : option TypeId) :
  Forall (fun h => scan_preserves R (scan_of h)) childSymbols ->
  forall flags innerTypeSymbols s s' rc inner,
    Forall (fun h => scan_preserves R (scan_of h)) innerTypeSymbols ->
    addChildrenSymbols_outer childSymbols outerNamespace flags
      innerTypeSymbols s = Ret (rc, inner) s' ->
    R s s'
    /\ Forall (fun h => scan_preserves R (scan_of h)) inner.
Proof.
  induction 1 as [|child rest Hchild _ IH];
    intros flags acc s s' rc inner Hacc; simpl.
  { intros [= _ <- <-]. split; [apply R_refl | done]. }
  destruct (get_symTag (data_of child)) as [tag|];
    [| intros [= _ <- <-]; split; [apply R_refl | done]].
  match goal with
  | |- context [match ?x with (_, _) => _ end] => destruct x as [[|] udtName]
  end; [| intros [= _ <- <-]; split; [apply R_refl | done]].
  match goal with
  | |- (if ?b then _ else _) _ = _ -> _ => destruct b
  end.
  - intros E.
    apply bind_inv in E as (flags' & s1 & E1 & E).
    apply bind_inv in E as (u & s2 & E2 & E3).
    assert (R s s1) as G1 by (keeps_from E1; keeps).
    assert (R s1 s2) as G2
      by (keeps_from E2; destruct Hchild as (Hadd & _); keeps).
    destruct (IH _ _ _ _ _ _ Hacc E3) as [G3 Hin].
    eauto using R_trans.
  - intros E. eapply IH; [| exact E].
    apply Forall_app; split; [done | by constructor].
Qed.

Lemma keeps_addChildrenSymbols_inner (innerTypeSymbols : list Handle) :
  Forall (fun h => scan_preserves R (scan_of h)) innerTypeSymbols ->
  preserves R (addChildrenSymbols_inner innerTypeSymbols).
Proof.
  induction 1 as [|child rest (Hadd & _) _ IH]; simpl; keeps.
Qed.

Lemma keeps_addChildrenSymbols_loops (childSymbols : list Handle)
    (outerNamespace : option TypeId) (hadSubtypes : M bool) :
  Forall (fun h => scan_preserves R (scan_of h)) childSymbols ->
  preserves R hadSubtypes ->
  preserves R
    (let* alreadyHadSubtypes := hadSubtypes in
     let* (rc, innerTypeSymbols) :=
       addChildrenSymbols_outer childSymbols outerNamespace
         {| alreadyHadFields := false; alreadyCheckedFields := false;
            alreadyHadSubtypes := alreadyHadSubtypes |} [] in
     whenOK rc (addChildrenSymbols_inner innerTypeSymbols)).
Proof.
  intros Hchildren Hhad s s' a E.
  apply bind_inv in E as (hadSub & s1 & E1 & E).
  apply bind_inv in E as ([rc inner] & s2 & E2 & E3).
  pose proof (Hhad _ _ _ E1) as G1.
  destruct (keeps_addChildrenSymbols_outer _ _ Hchildren _ _ _ _ _ _
              (Forall_nil_2 _) E2) as [G2 Hin].
  assert (R s2 s') as G3
    by (keeps_from E3; apply keeps_whenOK;
        by apply keeps_addChildrenSymbols_inner).
  eauto using R_trans.
Qed.

Lemma keeps_addChildrenSymbols (symbol : SymbolData) (children : list Handle)
    (symTag : SymTagEnum) (outerNamespace : option TypeId) :
  Forall (fun h => scan_preserves R (scan_of h)) children ->
  preserves R (addChildrenSymbols symbol children symTag outerNamespace).
Proof.
  intros Hchildren. unfold addChildrenSymbols.
  assert (Forall (fun h => scan_preserves R (scan_of h))
            (filter (fun c => matchesTag symTag (data_of c)) children))
    as Hfiltered.
  { apply Forall_forall. intros h Hh.
    apply list_elem_of_filter in Hh as [_ Hh].
    by eapply Forall_forall in Hchildren. }
  pose proof (keeps_addChildrenSymbols_loops _ outerNamespace
                (match outerNamespace with
                 | Some outer =>
                     let* subUDTs := read outer _subUDTs in
                     ret (negb (bool_decide (subUDTs = [])))
                 | None => ret false
                 end) Hfiltered) as Hloops.
  destruct (enumeration symbol), (filter _ children);
    try apply keeps_ret; apply Hloops; keeps.
Qed.

Lemma keeps_throughTypedefs (steps : nat) :
  forall previouslyCreatedType,
    preserves R (throughTypedefs steps previouslyCreatedType).
Proof. induction steps as [|steps IH]; intros t; simpl; keeps. Qed.

Lemma keeps_createClassUDT (symbol : SymbolData) (children : list Handle)
    (outerUDT : option TypeId) :
  Forall (fun h => scan_preserves R (scan_of h)) children ->
  preserves R
    (createClassUDT checkBlacklistedType symbol children outerUDT).
Proof.
  intros Hchildren. unfold createClassUDT.
  keeps; try apply keeps_qualifiedBy; try apply keeps_getNamespaceFromName;
    try apply keeps_getType; try apply keeps_throughTypedefs;
    by apply keeps_addChildrenSymbols.
Qed.

Lemma keeps_createTypedef (symbol : IDiaSymbol) (typeSymbol : option Handle)
    (outerNamespace : option TypeId) :
  (forall h, typeSymbol = Some h -> scan_preserves R (scan_of h)) ->
  preserves R
    (createTypedef checkBlacklistedType symbol typeSymbol outerNamespace).
Proof.
  intros Hh. unfold createTypedef.
  keeps; by apply keeps_setType.
Qed.

Lemma keeps_addSymbol (symbol : IDiaSymbol) (typeSymbol : option Handle)
    (children : list Handle) (outerNamespace : option TypeId) :
  (forall h, typeSymbol = Some h -> scan_preserves R (scan_of h)) ->
  Forall (fun h => scan_preserves R (scan_of h)) children ->
  preserves R
    (addSymbol checkBlacklistedType symbol typeSymbol children outerNamespace).
Proof.
  intros Hh Hchildren. unfold addSymbol.
  keeps; first [ apply keeps_createEnumUDT
               | by apply keeps_createClassUDT
               | by apply keeps_addFieldMember
               | apply keeps_setSuperClassName
               | by apply keeps_createTypedef ].
Qed.

(** Every entry point at every symbol only adds to the registry. *)
Lemma keeps_scan (symbol : IDiaSymbol) :
  scan_preserves R (scan checkBlacklistedType symbol).
Proof.
  induction symbol as [d type children IHtype IHchildren]
    using IDiaSymbol_tree_ind.
  assert (forall h,
            match type with
            | Some t => Some {| symbol_of := t;
                                scan_of := scan checkBlacklistedType t |}
            | None => None
            end = Some h -> scan_preserves R (scan_of h)) as Htype.
  { destruct type as [t|]; intros h [= <-]. by apply IHtype. }
  assert (Forall (fun h => scan_preserves R (scan_of h))
            (map (fun c => {| symbol_of := c;
                              scan_of := scan checkBlacklistedType c |})
               children)) as Hchildren.
  { apply Forall_map. exact IHchildren. }
  repeat split; intros; simpl.
  - by apply keeps_addSymbol.
  - by apply keeps_createClassUDT.
  - by apply keeps_setType.
Qed.

Lemma keeps_scanFile (index : nat) (file : PdbFile) :
  preserves R (scanFile checkBlacklistedType index file).
Proof.
  assert (forall d symTag,
            preserves R
              (addChildrenSymbols_of checkBlacklistedType d symTag None))
    as Hpass.
  { intros d symTag. apply keeps_addChildrenSymbols.
    apply Forall_map, Forall_forall. intros c _. apply keeps_scan. }
  assert (forall f, preserves R (modify (with_held f))) as Hheld
    by (intros f s s' a [= _ <-]; apply R_held).
  unfold scanFile, loadDataFromPdb, hold, release.
  keeps.
Qed.

Lemma keeps_scanFiles (debugFiles : list PdbFile) :
  forall index, preserves R (scanFiles checkBlacklistedType index debugFiles).
Proof.
  induction debugFiles as [|file rest IH]; intros index; simpl; keeps.
  apply keeps_scanFile.
Qed.

End Preservation.


(** *** The registry only grows during a scan *)

Lemma registry_grows_refl (s : PdbScanner) : registry_grows s s.
Proof. by intros n t. Qed.

Lemma registry_grows_trans (s1 s2 s3 : PdbScanner) :
  registry_grows s1 s2 -> registry_grows s2 s3 -> registry_grows s1 s3.
Proof. intros H12 H23 n t H. by apply H23, H12. Qed.

Lemma registry_grows_same (s s' : PdbScanner) :
  _typeMap s' = _typeMap s -> registry_grows s s'.
Proof. intros E n t. by rewrite E. Qed.

Lemma registry_grows_register (s : PdbScanner) (n : string) (t : TypeId) :
  _typeMap s !! n = None -> registry_grows s (with_typeMap (insert n t) s).
Proof.
  intros Hfree n' t' H. simpl.
  rewrite lookup_insert_ne; [done | congruence].
Qed.

Lemma scanFiles_registry_grows (checkBlacklistedType : string -> bool)
    (debugFiles : list PdbFile) (index : nat) :
  preserves registry_grows (scanFiles checkBlacklistedType index debugFiles).
Proof.
  apply keeps_scanFiles;
    auto using registry_grows_refl, registry_grows_register;
    try (intros; by apply registry_grows_same).
  apply registry_grows_trans.
Qed.

(** Every state of a scan that started with [initBaseTypeList] still
    registers the base types as they were registered then. *)
Lemma scanFiles_keeps_base_types (checkBlacklistedType : string -> bool)
    (debugFiles : list PdbFile) (rc : DDR_RC) (s : PdbScanner) :
  scanFiles checkBlacklistedType 0 debugFiles Samples.initialised = Ret rc s ->
  registry_grows Samples.initialised s.
Proof. apply scanFiles_registry_grows. Qed.

Lemma canonicalNode_registered (s : PdbScanner) (n : string) (t : TypeId) :
  registry_grows Samples.initialised s ->
  canonicalNode n = Some t -> _typeMap s !! n = Some t.
Proof. intros Hs Hn. exact (Hs n t Hn). Qed.

(** C6: for a base type whose code is unsigned integer, signed integer or
    floating point, [setBaseType] binds the slot to the canonical node of
    the code and width (U8/U16/U32/U64/U128 for unsigned 1/2/4/8/16,
    I8/I16/I32/I64 for signed 1/2/4/8, float/double for floating point
    4/8) and fails with an error, binding nothing, for every other width.
    Two fields of the same code and width, resolved at any two moments of
    the scan, are bound to the same node: the one registered under that
    name when the scan started. *)
Theorem setBaseType_canonical :
  forall (typeSymbol1 typeSymbol2 : SymbolData) (type1 type2 : Slot)
         (s1 s2 : PdbScanner) (code width : N),
    registry_grows Samples.initialised s1 ->
    registry_grows Samples.initialised s2 ->
    get_baseType typeSymbol1 = Some code ->
    get_length typeSymbol1 = Some width ->
    get_baseType typeSymbol2 = Some code ->
    get_length typeSymbol2 = Some width ->
    code = btUInt \/ code = btInt \/ code = btFloat ->
    match canonicalBaseType code width with
    | Some n =>
        exists node,
          canonicalNode n = Some node
          /\ _name (at_ (heap Samples.initialised) node) = n
          /\ setBaseType typeSymbol1 type1 s1
             = Ret DDR_RC_OK (with_slots (store_slot type1 (Some node)) s1)
          /\ setBaseType typeSymbol2 type2 s2
             = Ret DDR_RC_OK (with_slots (store_slot type2 (Some node)) s2)
    | None =>
        setBaseType typeSymbol1 type1 s1 = Ret DDR_RC_ERROR s1
        /\ setBaseType typeSymbol2 type2 s2 = Ret DDR_RC_ERROR s2
    end.
Proof.
  intros typeSymbol1 typeSymbol2 type1 type2 s1 s2 code width
    Hs1 Hs2 Hc1 Hw1 Hc2 Hw2 Hcode.
  rewrite (setBaseType_by_width typeSymbol1 type1 s1 code width) by done.
  rewrite (setBaseType_by_width typeSymbol2 type2 s2 code width) by done.
  destruct (canonicalBaseType code width) as [n|] eqn:En; [| done].
  destruct (canonicalBaseType_node _ _ _ En) as (node & Hnode & Hname).
  exists node.
  split; [exact Hnode |]. split; [exact Hname |].
  pose proof (canonicalNode_registered _ _ _ Hs1 Hnode) as H1.
  pose proof (canonicalNode_registered _ _ _ Hs2 Hnode) as H2.
  split; f_equal; f_equal; f_equal; assumption.
Qed.

Lemma setBaseType_canonical_witness :
  exists node,
    canonicalNode "U32" = Some node
    /\ _name (at_ (heap Samples.initialised) node) = "U32"
    /\ setBaseType (data (Samples.baseType btUInt 4)) (fieldType_of 0)
         Samples.initialised
       = Ret DDR_RC_OK
           (with_slots (store_slot (fieldType_of 0) (Some node))
              Samples.initialised)
    /\ setBaseType (data (Samples.baseType btUInt 4)) (fieldType_of 1)
         Samples.initialised
       = Ret DDR_RC_OK
           (with_slots (store_slot (fieldType_of 1) (Some node))
              Samples.initialised).
Proof.
  apply (setBaseType_canonical
           (data (Samples.baseType btUInt 4)) (data (Samples.baseType btUInt 4))
           (fieldType_of 0) (fieldType_of 1)
           Samples.initialised Samples.initialised btUInt 4).
  - intros n t H. exact H.
  - intros n t H. exact H.
  - reflexivity.
  - reflexivity.
  - reflexivity.
  - reflexivity.
  - left. reflexivity.
Defined.

(** ** C4: the postponed references are patched *)

(** A write through a postponed address, into an object that is still
    there and into one that was deleted. *)
Lemma store_through_live (type : Slot) (t : option TypeId) (s : PdbScanner) :
  slot_live s type ->
  store_through type t s = Ret tt (with_slots (store_slot type t) s).
Proof.
  unfold slot_live, store_through, bind, gets.
  destruct (memberOf type) as [object|]; [| reflexivity].
  intros Hlive. by rewrite bool_decide_eq_false_2.
Qed.

Lemma store_through_freed (type : Slot) (t : option TypeId) (s : PdbScanner) :
  ~ slot_live s type -> store_through type t s = Abort UseAfterFree.
Proof.
  unfold slot_live, store_through, bind, gets.
  destruct (memberOf type) as [object|]; [| by intros []].
  intros Hfreed. rewrite bool_decide_eq_true_2; [reflexivity |].
  by apply dec_stable.
Qed.

Lemma updatePostponedField_spec (it : PostponedType) (s : PdbScanner) :
  slot_live s (type it) ->
  updatePostponedField it s
  = Ret tt
      (match _typeMap s !! name it with
       | Some t => with_slots (store_slot (type it) (Some t)) s
       | None =>
           with_slots (store_slot (type it) (Some (length (heap s))))
             (with_heap (fun h => h ++ [placeholder (name it)]) s)
       end).
Proof.
  intros Hlive.
  unfold updatePostponedField. unfold bind at 1. rewrite isRegistered_spec.
  destruct (_typeMap s !! name it) as [t|] eqn:E.
  - unfold bind at 1, gets at 1. rewrite E. by apply store_through_live.
  - simpl. unfold bind at 1, new_ at 1. by rewrite store_through_live.
Qed.

Lemma updatePostponedField_freed (it : PostponedType) (s : PdbScanner) :
  ~ slot_live s (type it) ->
  updatePostponedField it s = Abort UseAfterFree.
Proof.
  intros Hfreed.
  unfold updatePostponedField. unfold bind at 1. rewrite isRegistered_spec.
  destruct (_typeMap s !! name it) as [t|] eqn:E.
  - unfold bind at 1, gets at 1. by apply store_through_freed.
  - simpl. unfold bind at 1, new_ at 1. by rewrite store_through_freed.
Qed.

Lemma store_slot_eq (type : Slot) (t : option TypeId)
    (m : Slot -> option TypeId) :
  store_slot type t m type = t.
Proof. unfold store_slot. by rewrite decide_True. Qed.

Lemma store_slot_ne (type other : Slot) (t : option TypeId)
    (m : Slot -> option TypeId) :
  other <> type -> store_slot type t m other = m other.
Proof. intros H. unfold store_slot. by rewrite decide_False. Qed.

(** The loop of the patcher over a list of addresses none of which lies
    in a deleted object, from any state. *)
Lemma forEach_updatePostponedField (postponed : list PostponedType) :
  forall s : PdbScanner,
  Forall (fun p => slot_live s (type p)) postponed ->
  exists s',
    forEach updatePostponedField postponed s = Ret tt s'
    /\ _typeMap s' = _typeMap s
    /\ _types s' = _types s
    /\ _postponedFields s' = _postponedFields s
    /\ heap s' = heap s ++ map (fun p => placeholder (name p))
                             (unresolved (_typeMap s) postponed)
    /\ (forall slot, is_Some (slots s slot) -> is_Some (slots s' slot))
    /\ (forall slot, (forall p, p ∈ postponed -> type p <> slot) ->
                     slots s' slot = slots s slot)
    /\ (forall p, p ∈ postponed -> is_Some (slots s' (type p)))
    /\ (forall i p,
          postponed !! i = Some p ->
          (forall j q, i < j -> postponed !! j = Some q -> type q <> type p) ->
          match _typeMap s !! name p with
          | Some t => slots s' (type p) = Some t
          | None =>
              exists t, slots s' (type p) = Some t
                        /\ length (heap s) <= t
                        /\ heap s' !! t = Some (placeholder (name p))
          end).
Proof.
  induction postponed as [|it rest IH]; intros s Hlive.
  { exists s. repeat split; try done.
    - simpl. by rewrite app_nil_r.
    - intros p Hp. by apply elem_of_nil in Hp. }
  apply Forall_cons in Hlive as [Hit Hlive].
  simpl. erewrite bind_Ret by (by apply updatePostponedField_spec).
  set (s1 := match _typeMap s !! name it with
             | Some t => _ | None => _ end).
  assert (_typeMap s1 = _typeMap s) as Hmap
    by (subst s1; by destruct (_typeMap s !! name it)).
  assert (deleted s1 = deleted s) as Hdeleted
    by (subst s1; by destruct (_typeMap s !! name it)).
  assert (Forall (fun p => slot_live s1 (type p)) rest) as Hlive1.
  { eapply Forall_impl; [exact Hlive |]. intros p.
    unfold slot_live. by rewrite Hdeleted. }
  assert (is_Some (slots s1 (type it))) as Hbound.
  { subst s1. destruct (_typeMap s !! name it); simpl;
      rewrite store_slot_eq; eauto. }
  assert (forall slot, slot <> type it -> slots s1 slot = slots s slot)
    as Hother.
  { intros slot Hne. subst s1. destruct (_typeMap s !! name it); simpl;
      by rewrite store_slot_ne. }
  destruct (IH s1 Hlive1) as (s' & Hrun & Hmap' & Htypes & Hpost & Hheap
                              & Hmono & Hframe & Hsome & Hlast).
  exists s'. split; [exact Hrun |].
  split; [congruence |].
  split; [rewrite Htypes; subst s1; by destruct (_typeMap s !! name it) |].
  split; [rewrite Hpost; subst s1; by destruct (_typeMap s !! name it) |].
  split.
  { rewrite Hheap, Hmap. unfold unresolved. rewrite filter_cons.
    subst s1. destruct (_typeMap s !! name it) as [t|] eqn:E; simpl.
    - reflexivity.
    - by rewrite <- app_assoc. }
  split.
  { intros slot Hslot. apply Hmono.
    destruct (decide (slot = type it)) as [-> | Hne]; [done |].
    by rewrite Hother. }
  split.
  { intros slot Hslot. rewrite Hframe.
    - apply Hother. intros Heq.
      apply (Hslot it); [apply elem_of_cons; by left | by symmetry].
    - intros p Hp. apply Hslot. apply elem_of_cons. by right. }
  split.
  { intros p [-> | Hp]%elem_of_cons; [by apply Hmono | by apply Hsome]. }
  intros [|i] p Hi Hlater; simpl in Hi.
  - injection Hi as ->.
    rewrite Hframe.
    + subst s1. destruct (_typeMap s !! name p) as [t|] eqn:E; simpl;
        rewrite store_slot_eq; [done |].
      exists (length (heap s)). split; [done |]. split; [done |].
      rewrite Hheap. simpl. rewrite <- app_assoc.
      rewrite lookup_app_r by done. by rewrite Nat.sub_diag.
    + intros q Hq. apply list_elem_of_lookup in Hq as [j Hj].
      apply (Hlater (S j)); [lia | done].
  - specialize (Hlast i p Hi).
    rewrite Hmap in Hlast.
    assert (forall j q, i < j -> rest !! j = Some q -> type q <> type p)
      as Hlater'.
    { intros j q Hij Hj. apply (Hlater (S j)); [lia | done]. }
    specialize (Hlast Hlater').
    destruct (_typeMap s !! name p); [done |].
    destruct Hlast as (t & Hslot & Hlen & Hat).
    exists t. split; [done |]. split; [| done].
    etrans; [| exact Hlen]. subst s1.
    destruct (_typeMap s !! name it); simpl; [done |].
    rewrite length_app. lia.
Qed.

Lemma initBaseTypeList_initialised :
  initBaseTypeList emptyScanner = Ret tt Samples.initialised.
Proof. vm_compute. reflexivity. Qed.

(** [startScan] once the prelude succeeded: the loop over the files, then
    the patcher and the renamer if the loop succeeded. *)
Lemma startScan_after_files (checkBlacklistedType : string -> bool)
    (debugFiles : list PdbFile) (rc : DDR_RC) (s : PdbScanner) :
  scanFiles checkBlacklistedType 0 debugFiles Samples.initialised = Ret rc s ->
  startScan checkBlacklistedType true None debugFiles emptyScanner
  = match rc with
    | DDR_RC_OK =>
        (let* rc := updatePostponedFieldNames in
         let* _ := match rc with
                   | DDR_RC_OK => renameAnonymousTypes
                   | DDR_RC_ERROR => ret tt
                   end in
         ret rc) s
    | DDR_RC_ERROR => Ret DDR_RC_ERROR s
    end.
Proof.
  intros Hfiles. unfold startScan.
  erewrite bind_Ret by apply initBaseTypeList_initialised.
  simpl. erewrite bind_Ret by exact Hfiles.
  by destruct rc.
Qed.

(** X25: the patcher where no postponed address lies in a deleted
    object.  When all sources have been scanned successfully and that
    holds of the state they left, the patcher returns success and
    [startScan] goes on from its result to the renamer.  The patcher
    leaves the registry and the root list as they were and adds to the
    heap one placeholder [ClassUDT] per postponed reference whose name is
    not registered, in the order of the postponed list, each carrying
    that name and owned by nothing.  After it no postponed slot is null;
    the slot of each postponed reference holds the registered type of
    that name, or else the placeholder made for it (for a slot that was
    postponed several times, the last reference decides). *)
Theorem updatePostponedFieldNames_binds_every_slot :
  forall (checkBlacklistedType : string -> bool) (debugFiles : list PdbFile)
         (s : PdbScanner),
    scanFiles checkBlacklistedType 0 debugFiles Samples.initialised
    = Ret DDR_RC_OK s ->
    Forall (fun p => slot_live s (type p)) (_postponedFields s) ->
    exists s',
      updatePostponedFieldNames s = Ret DDR_RC_OK s'
      /\ startScan checkBlacklistedType true None debugFiles emptyScanner
         = (let* _ := renameAnonymousTypes in ret DDR_RC_OK) s'
      /\ _typeMap s' = _typeMap s
      /\ _types s' = _types s
      /\ heap s' = heap s ++ map (fun p => placeholder (name p))
                               (unresolved (_typeMap s) (_postponedFields s))
      /\ (forall p, p ∈ _postponedFields s -> is_Some (slots s' (type p)))
      /\ (forall i p,
            _postponedFields s !! i = Some p ->
            (forall j q, i < j -> _postponedFields s !! j = Some q ->
                         type q <> type p) ->
            match _typeMap s !! name p with
            | Some t => slots s' (type p) = Some t
            | None =>
                exists t, slots s' (type p) = Some t
                          /\ length (heap s) <= t
                          /\ heap s' !! t = Some (placeholder (name p))
            end).
Proof.
  intros checkBlacklistedType debugFiles s Hfiles Hlive.
  destruct (forEach_updatePostponedField (_postponedFields s) s Hlive)
    as (s' & Hrun & Hmap & Htypes & _ & Hheap & _ & _ & Hsome & Hlast).
  assert (updatePostponedFieldNames s = Ret DDR_RC_OK s') as Hpatch.
  { unfold updatePostponedFieldNames. unfold bind at 1. unfold gets at 1.
    by erewrite bind_Ret by exact Hrun. }
  exists s'. split; [exact Hpatch |].
  split.
  { rewrite (startScan_after_files _ _ _ _ Hfiles).
    by erewrite bind_Ret by exact Hpatch. }
  by repeat split.
Qed.

(** The loop of the patcher over a list that holds an address in a
    deleted object: the write through that address is a write into freed
    memory. *)
Lemma forEach_updatePostponedField_freed (postponed : list PostponedType) :
  forall s : PdbScanner,
    Exists (fun p => ~ slot_live s (type p)) postponed ->
    forEach updatePostponedField postponed s = Abort UseAfterFree.
Proof.
  induction postponed as [|it rest IH]; intros s Hfreed;
    [by apply Exists_nil in Hfreed |].
  simpl.
  destruct (decide (slot_live s (type it))) as [Hlive | Hit].
  - erewrite bind_Ret by (by apply updatePostponedField_spec).
    apply IH. apply Exists_cons in Hfreed as [Hfreed | Hfreed]; [done |].
    eapply Exists_impl; [exact Hfreed |]. intros p. unfold slot_live.
    by destruct (_typeMap s !! name it).
  - rewrite bind_Abort with (f := UseAfterFree); [reflexivity |].
    by apply updatePostponedField_freed.
Qed.

Lemma updatePostponedFieldNames_freed (s : PdbScanner) :
  Exists (fun p => ~ slot_live s (type p)) (_postponedFields s) ->
  updatePostponedFieldNames s = Abort UseAfterFree.
Proof.
  intros Hfreed. unfold updatePostponedFieldNames.
  unfold bind at 1, gets at 1.
  by rewrite bind_Abort with (f := UseAfterFree)
    by (by apply forEach_updatePostponedField_freed).
Qed.

(** When a source failed, the patcher is not run: [startScan] returns
    the error with the state the loop left. *)
Lemma startScan_does_not_patch_after_error
    (checkBlacklistedType : string -> bool) (debugFiles : list PdbFile)
    (s : PdbScanner) :
  scanFiles checkBlacklistedType 0 debugFiles Samples.initialised
  = Ret DDR_RC_ERROR s ->
  startScan checkBlacklistedType true None debugFiles emptyScanner
  = Ret DDR_RC_ERROR s.
Proof. intros Hfiles. by rewrite (startScan_after_files _ _ _ _ Hfiles). Qed.

Lemma updatePostponedFieldNames_binds_every_slot_witness :
  let s := Samples.stateAfter
             (scanFiles Samples.noBlacklist 0 [Scenarios.danglingField]
                Samples.initialised) in
  scanFiles Samples.noBlacklist 0 [Scenarios.danglingField] Samples.initialised
  = Ret DDR_RC_OK s
  /\ Forall (fun p => slot_live s (type p)) (_postponedFields s)
  /\ exists s',
      updatePostponedFieldNames s = Ret DDR_RC_OK s'
      /\ startScan Samples.noBlacklist true None [Scenarios.danglingField]
           emptyScanner
         = (let* _ := renameAnonymousTypes in ret DDR_RC_OK) s'
      /\ _typeMap s' = _typeMap s
      /\ _types s' = _types s
      /\ heap s' = heap s ++ map (fun p => placeholder (name p))
                               (unresolved (_typeMap s) (_postponedFields s))
      /\ (forall p, p ∈ _postponedFields s -> is_Some (slots s' (type p)))
      /\ (forall i p,
            _postponedFields s !! i = Some p ->
            (forall j q, i < j -> _postponedFields s !! j = Some q ->
                         type q <> type p) ->
            match _typeMap s !! name p with
            | Some t => slots s' (type p) = Some t
            | None =>
                exists t, slots s' (type p) = Some t
                          /\ length (heap s) <= t
                          /\ heap s' !! t = Some (placeholder (name p))
            end).
Proof.
  intros s.
  assert (scanFiles Samples.noBlacklist 0 [Scenarios.danglingField]
            Samples.initialised = Ret DDR_RC_OK s) as Hfiles
    by (vm_compute; reflexivity).
  assert (Forall (fun p => slot_live s (type p)) (_postponedFields s))
    as Hlive by (vm_compute; by repeat constructor).
  split; [exact Hfiles |]. split; [exact Hlive |].
  exact (updatePostponedFieldNames_binds_every_slot
           Samples.noBlacklist [Scenarios.danglingField] s Hfiles Hlive).
Defined.

(** The field of [Scenarios.danglingField] ends up bound to a placeholder
    named after the missing type: a class that is neither registered nor
    in the root list nor owned. *)
Example dangling_field_gets_placeholder :
  match startScan Samples.noBlacklist true None [Scenarios.danglingField]
          emptyScanner with
  | Ret rc s =>
      rc = DDR_RC_OK
      /\ exists t,
           slots s (fieldType_of 0) = Some t
           /\ heap s !! t = Some (placeholder "Bar")
           /\ _typeMap s !! "Bar" = None
           /\ t ∉ _types s
  | Abort _ => False
  end.
Proof.
  vm_compute. split; [reflexivity |].
  eexists. split; [reflexivity |]. split; [reflexivity |].
  split; [reflexivity |].
  intros H. repeat (apply elem_of_cons in H as [H | H]; [discriminate |]).
  by apply elem_of_nil in H.
Qed.

(** C4, on the code: the postponed list can hold the address of a member
    of a class that has been deleted, and the patcher writes through it.
    The file declares one class [Foo] with a base class [Base], which no
    source declares, and a nested class whose name cannot be read.  The
    superclass reference of [Foo] is postponed; the nested class then
    fails, [createClassUDT] deletes [Foo] and returns the error; the loop
    over the children of the global scope does not keep that result, so
    the scan of the file succeeds and [startScan] goes on to the patcher,
    whose first write is into the deleted [Foo]: [startScan] does not
    return. *)
Theorem patcher_writes_into_a_deleted_class :
  let s := Samples.stateAfter
             (scanFiles Samples.noBlacklist 0 [Scenarios.fooWithBase]
                Samples.initialised) in
  scanFiles Samples.noBlacklist 0 [Scenarios.fooWithBase] Samples.initialised
  = Ret DDR_RC_OK s
  /\ deleted s = [35]
  /\ _postponedFields s = [ {| type := superClass_of 35; name := "Base" |} ]
  /\ _typeMap s !! "Foo" = None
  /\ updatePostponedFieldNames s = Abort UseAfterFree
  /\ startScan Samples.noBlacklist true None [Scenarios.fooWithBase]
       emptyScanner
     = Abort UseAfterFree.
Proof.
  vm_compute. repeat split; reflexivity.
Qed.

(** ** C5: the anonymous types are renamed *)

Section Renamer.
Import StdString StdStringFacts.

(** *** The synthetic names are not anonymous names *)







Lemma empty_name_not_anonymous : isAnonymousName "" = false.
Proof. reflexivity. Qed.

(** *** Reading and writing the heap *)

Lemma at_alter_eq (f : Type_ -> Type_) (h : list Type_) (t : TypeId) :
  t < length h -> at_ (alter f t h) t = f (at_ h t).
Proof. apply list_lookup_total_alter_eq. Qed.

Lemma at_alter_ne (f : Type_ -> Type_) (h : list Type_) (t t' : TypeId) :
  t <> t' -> at_ (alter f t h) t' = at_ h t'.
Proof. apply list_lookup_total_alter_ne. Qed.







(** *** One renaming *)





(** *** The recursion visits the graph in [visitOrder] *)






(** *** The names the loop over the visits gives *)










End Renamer.


(** The scan of [Scenarios.anonymousTypes]: the two anonymous root types
    become [AnonymousType0] and [AnonymousType1] in the order of the root
    list, the anonymous types inside [Outer] and inside the namespace [N]
    lose their name. *)
Example anonymous_types_after_scan :
  match startScan Samples.noBlacklist true None [Scenarios.anonymousTypes]
          emptyScanner with
  | Ret rc s =>
      rc = DDR_RC_OK
      /\ drop 35 (map (fun t => (_name t, _outerNamespace t)) (heap s))
         = [ ("AnonymousType0", None); ("Outer", None); ("", Some 36);
             ("AnonymousType1", None); ("N", None); ("", Some 39) ]
      /\ drop 35 (_types s) = [35; 36; 38; 39]
  | Abort _ => False
  end.
Proof. vm_compute. repeat split; reflexivity. Qed.

(** C5, on the code: an anonymous type that a scan leaves out of reach
    of the root list keeps its anonymous name.  The file declares one
    class [N::M::<unnamed-type-b>].  The resolver makes [N] and [M] and
    sets [N] as the owner of [M] without entering [M] in the child list
    of [N]; the scan succeeds, and the renamer, which goes from the root
    list down the child lists, visits [N] and never reaches [M] or the
    anonymous class in it: that class is a nested anonymous type and
    still has its name when [startScan] returns. *)
Theorem nested_anonymous_type_keeps_its_name :
  match startScan Samples.noBlacklist true None
          [Scenarios.anonymousInNamespaces] emptyScanner with
  | Ret rc s =>
      rc = DDR_RC_OK
      /\ drop 35 (map (fun t => (_name t, _outerNamespace t, _subUDTs t))
                    (heap s))
         = [ ("N", None, []);
             ("M", Some 35, [37]);
             ("<unnamed-type-b>", Some 36, []) ]
      /\ drop 35 (_types s) = [35]
      /\ anonymousNested (heap s) 37 = true
      /\ _name (at_ (heap s) 37) <> ""
      /\ (exists order,
            visitOrderOfPass
              (Scenarios.beforeRenaming Scenarios.anonymousInNamespaces)
            = Some order
            /\ 37 ∉ order)
  | Abort _ => False
  end.
Proof.
  vm_compute. repeat split; try reflexivity; try discriminate.
  eexists. split; [reflexivity |].
  intros H. repeat (apply elem_of_cons in H as [H | H]; [discriminate |]).
  by apply elem_of_nil in H.
Qed.

(** On the graph of another scan the renamer does not return.  A first
    file declares a class [A] and a typedef [A::B] of it; a second file
    declares [A] with a nested class [B].  For [B], [createClassUDT]
    finds [A::B] registered, goes through the typedef to [A] and, [A]
    having no owner, makes [A] the owner and a child of itself.  Both
    files are scanned with success, and the recursion of the renamer down
    the child lists has no end. *)
Lemma renamer_does_not_return_on_a_class_that_is_its_own_child :
  let files := [Scenarios.classAndAlias; Scenarios.classWithNested] in
  let s := Samples.stateAfter
             (scanFiles Samples.noBlacklist 0 files Samples.initialised) in
  scanFiles Samples.noBlacklist 0 files Samples.initialised = Ret DDR_RC_OK s
  /\ _subUDTs (at_ (heap s) 35) = [35]
  /\ _outerNamespace (at_ (heap s) 35) = Some 35
  /\ drop 35 (_types s) = [35; 36]
  /\ visitOrderOfPass s = None
  /\ renameAnonymousTypes s = Abort Nontermination
  /\ startScan Samples.noBlacklist true None files emptyScanner
     = Abort Nontermination.
Proof.
  vm_compute. repeat split; reflexivity.
Qed.

(** ** C1: the namespace chain of a qualified name *)

(** *** The loop of the resolver *)

Lemma substring_length_le (s : string) :
  forall n m, String.length (String.substring n m s) <= String.length s.
Proof.
  induction s as [|a s IH]; intros n m.
  - destruct n, m; simpl; lia.
  - destruct n as [|n]; simpl.
    + destruct m as [|m]; simpl; [lia |]. specialize (IH 0 m). lia.
    + specialize (IH n m). lia.
Qed.

(** [find] answers a position at or after the start it was given, with
    room for the needle. *)
Lemma index_bounds (needle s : string) :
  forall n m,
    String.index n needle s = Some m ->
    n <= m /\ m + String.length needle <= String.length s.
Proof.
  induction s as [|b s IH]; intros n m.
  - destruct n; simpl; [| discriminate].
    destruct needle; [| discriminate]. intros [= <-]. simpl. lia.
  - destruct n as [|n]; cbn [String.index].
    + destruct (String.prefix needle (String b s)) eqn:Hprefix.
      * intros [= <-]. split; [lia |].
        apply String.prefix_correct in Hprefix. rewrite <- Hprefix at 1.
        apply substring_length_le.
      * destruct (String.index 0 needle s) as [k|] eqn:Ek; [| discriminate].
        intros [= <-]. destruct (IH 0 k Ek). simpl. lia.
    + destruct (String.index n needle s) as [k|] eqn:Ek; [| discriminate].
      intros [= <-]. destruct (IH n k Ek). simpl. lia.
Qed.

Lemma bind_ext {A B} (m : M A) (k1 k2 : A -> M B) (s : PdbScanner) :
  (forall a s', k1 a s' = k2 a s') -> bind m k1 s = bind m k2 s.
Proof. intros H. unfold bind. destruct (m s); [apply H | reflexivity]. Qed.

(** The length of the name is enough iterations: the loop of the
    resolver is never cut short, and further iterations change
    nothing. *)
Lemma getNamespaceFromName_loop_enough (qualified : string) :
  forall (iterations previousPos : nat) (outerNamespace : option TypeId)
         (more : nat) (s : PdbScanner),
    String.length qualified <= previousPos + iterations ->
    getNamespaceFromName_loop (iterations + more) qualified previousPos
      outerNamespace s
    = getNamespaceFromName_loop iterations qualified previousPos
        outerNamespace s.
Proof.
  induction iterations as [|iterations IH];
    intros previousPos outerNamespace more s Hbound; simpl;
    destruct (StdString.find qualified "::" previousPos) as [pos|] eqn:Efind.
  - apply index_bounds in Efind. simpl in Efind. lia.
  - destruct more; simpl; by rewrite Efind.
  - apply index_bounds in Efind as [Hpos Hroom]. simpl in Hroom.
    apply bind_ext. intros found s1.
    apply bind_ext. intros ns s2.
    apply bind_ext. intros nsOuter s3.
    apply bind_ext. intros _ s4.
    apply IH. lia.
  - reflexivity.
Qed.

(** C1, on the code: the scan of a single class [Outer::Inner::Leaf]
    succeeds and makes three containers.  [Outer] is a root type, [Inner]
    and [Leaf] are not, [Leaf] is in the child list of its owner [Inner],
    and [Inner] has [Outer] as its owner; but the child list of [Outer]
    is empty: the resolver sets the owner of the container it synthesises
    and does not enter it in the owner's child list. *)
Theorem namespace_chain_of_Outer_Inner_Leaf :
  match startScan Samples.noBlacklist true None [Scenarios.nestedLeaf]
          emptyScanner with
  | Ret rc s =>
      rc = DDR_RC_OK
      /\ drop 35 (map (fun t => (_name t, _outerNamespace t, _subUDTs t))
                    (heap s))
         = [ ("Outer", None, []);
             ("Inner", Some 35, [37]);
             ("Leaf", Some 36, []) ]
      /\ drop 35 (_types s) = [35]
      /\ _outerNamespace (at_ (heap s) 36) = Some 35
      /\ 36 ∉ _subUDTs (at_ (heap s) 35)
  | Abort _ => False
  end.
Proof.
  vm_compute. repeat split; try reflexivity.
  intros H. by apply elem_of_nil in H.
Qed.

(** The step of the resolver behind it, from any state: a segment that
    is not registered, after a container, becomes a new class with that
    container as its owner, and the container's child list is left as it
    was. *)
Lemma getNamespaceFromName_leaves_child_list
    (iterations : nat) (qualified : string) (previousPos pos : nat)
    (outer : TypeId) (s s' : PdbScanner) (r : string * option TypeId) :
  previousPos <> 0 ->
  outer < length (heap s) ->
  StdString.find qualified "::" previousPos = Some pos ->
  getType (StdString.substr qualified previousPos (pos - previousPos)) s
  = Ret None s ->
  getNamespaceFromName_loop (S iterations) qualified previousPos (Some outer) s
  = Ret r s' ->
  exists s1,
    getNamespaceFromName_loop iterations qualified (pos + 2)
      (Some (length (heap s))) s1
    = Ret r s'
    /\ _outerNamespace (at_ (heap s1) (length (heap s))) = Some outer
    /\ at_ (heap s1) outer = at_ (heap s) outer
    /\ _types s1 = _types s.
Proof.
  intros Hpos Hvalid Hfind Hnew. simpl. rewrite Hfind.
  unfold bind at 1. rewrite Hnew.
  set (segment := StdString.substr qualified previousPos (pos - previousPos)).
  set (ns := set_outerNamespace (Some outer)
               (set_name segment (newType ClassUDT 0))).
  unfold bind at 1. unfold bind at 1. unfold new_ at 1.
  set (s0 := with_heap (fun h => h ++ [ns]) s).
  assert (at_ (heap s0) (length (heap s)) = ns) as Hns.
  { unfold at_, s0. simpl. apply list_lookup_total_middle. reflexivity. }
  assert (at_ (heap s0) outer = at_ (heap s) outer) as Houter.
  { unfold at_, s0. simpl. by apply lookup_total_app_l. }
  unfold bind at 1.
  destruct (addType (length (heap s)) (bool_decide (previousPos = 0)) s0)
    as [[] s1|] eqn:Hadd; [| done].
  assert (heap s1 = heap s0 /\ _types s1 = _types s) as [Hheap Htypes].
  { destruct (addType_inv _ _ _ _ _ Hadd) as (fullName & _ & ->).
    rewrite bool_decide_eq_false_2 by done.
    by destruct (_typeMap s0 !! fullName), (StdString.empty fullName). }
  unfold ret at 1. unfold bind at 1. unfold read at 1. unfold gets at 1.
  rewrite Hheap, Hns. simpl. intros Hrun.
  exists s1. split; [exact Hrun |].
  rewrite Hheap, Hns, Houter. by repeat split.
Qed.

(** ** C7: errors of the builders and the dispatcher *)

(** The dispatcher at a symbol, in terms of the builders at that
    symbol. *)
Lemma addSymbol_of_typedef (checkBlacklistedType : string -> bool)
    (symbol : IDiaSymbol) (outerNamespace : option TypeId) :
  get_symTag (data symbol) = Some SymTagTypedef ->
  addSymbol_of checkBlacklistedType symbol outerNamespace
  = match outerNamespace with
    | None =>
        let* _ := createTypedef_of checkBlacklistedType symbol None in
        ret DDR_RC_OK
    | Some _ => ret DDR_RC_OK
    end.
Proof.
  intros Htag. destruct symbol as [d type children]. simpl in Htag.
  unfold addSymbol_of, createTypedef_of. simpl. unfold addSymbol. simpl.
  rewrite Htag. destruct outerNamespace; [reflexivity |].
  by destruct type.
Qed.

(** Whatever [createTypedef] returns, the dispatcher returns
    [DDR_RC_OK] for a typedef. *)
Lemma addSymbol_of_typedef_never_fails
    (checkBlacklistedType : string -> bool) (symbol : IDiaSymbol)
    (outerNamespace : option TypeId) (s s' : PdbScanner) (rc : DDR_RC) :
  get_symTag (data symbol) = Some SymTagTypedef ->
  addSymbol_of checkBlacklistedType symbol outerNamespace s = Ret rc s' ->
  rc = DDR_RC_OK.
Proof.
  intros Htag. rewrite (addSymbol_of_typedef _ _ _ Htag).
  destruct outerNamespace; [by intros [= <- _] |].
  intros (rc' & s1 & _ & [= <- _])%bind_inv. reflexivity.
Qed.

(** C7, on the code: the construction of the typedef [Odd] of a
    three-byte unsigned integer fails with an error, and the dispatcher
    called for that declaration returns success; so does the pass over a
    file that declares it, and the whole scan.  The same happens to the
    error of any builder called from the first loop of
    [addChildrenSymbols]: here the class whose size cannot be read. *)
Theorem typedef_error_is_not_propagated :
  (exists s, createTypedef_of Samples.noBlacklist Scenarios.oddTypedef None
               Samples.initialised = Ret DDR_RC_ERROR s)
  /\ (exists s, addSymbol_of Samples.noBlacklist Scenarios.oddTypedef None
                  Samples.initialised = Ret DDR_RC_OK s)
  /\ (exists s, scanFile Samples.noBlacklist 0
                  (Samples.pdb [Scenarios.oddTypedef]) Samples.initialised
                = Ret DDR_RC_OK s)
  /\ (exists s, startScan Samples.noBlacklist true None
                  [Samples.pdb [Scenarios.oddTypedef]] emptyScanner
                = Ret DDR_RC_OK s)
  /\ (exists s, addSymbol_of Samples.noBlacklist Scenarios.unsizedClass None
                  Samples.initialised = Ret DDR_RC_ERROR s)
  /\ (exists s, scanFile Samples.noBlacklist 0
                  (Samples.pdb [Scenarios.unsizedClass]) Samples.initialised
                = Ret DDR_RC_OK s).
Proof.
  repeat split; eexists; vm_compute; reflexivity.
Qed.

(** ** C9: the size of a typedef *)

(** C9, on the code: the typedef [Handle] names a pointer to a class
    that is not registered.  It passes both blacklist checks, its type
    resolution records a postponed reference and reports success, and the
    aliased-type reference is still null when [createTypedef] reads the
    size through it: the call does not return. *)
Theorem typedef_of_postponed_type_dereferences_null :
  createTypedef_of Samples.noBlacklist Scenarios.handleTypedef None
    Samples.initialised
  = Abort NullDereference
  /\ startScan Samples.noBlacklist true None
       [Samples.pdb [Scenarios.handleTypedef]] emptyScanner
     = Abort NullDereference.
Proof. split; vm_compute; reflexivity. Qed.

(** ** C3: the loop over the input files *)

Lemma scan_held_same (checkBlacklistedType : string -> bool)
    (symbol : IDiaSymbol) :
  scan_preserves held_same (scan checkBlacklistedType symbol).
Proof.
  apply keeps_scan; unfold held_same; try done.
  intros s1 s2 s3 H12 H23. congruence.
Qed.

Lemma addChildrenSymbols_of_held_same (checkBlacklistedType : string -> bool)
    (symbol : IDiaSymbol) (symTag : SymTagEnum) (outer : option TypeId) :
  preserves held_same
    (addChildrenSymbols_of checkBlacklistedType symbol symTag outer).
Proof.
  apply keeps_addChildrenSymbols; unfold held_same; try done.
  - intros s1 s2 s3 H12 H23. congruence.
  - apply Forall_map, Forall_forall. intros c _. apply scan_held_same.
Qed.

Lemma filter_taken (index : nat) (taken : list (nat * ComObject)) :
  Forall (fun h => h.1 = index) taken ->
  filter (fun h => h.1 <> index) taken = [].
Proof.
  induction 1 as [|h taken Hh _ IH]; [reflexivity |].
  rewrite filter_cons_False; [exact IH |]. intros Hne. by apply Hne.
Qed.

(** [loadDataFromPdb] only takes references, all for its file. *)
Lemma loadDataFromPdb_holds (index : nat) (file : PdbFile) (s s' : PdbScanner)
    (rc : DDR_RC) (diaSymbol : option IDiaSymbol) :
  loadDataFromPdb index file s = Ret (rc, diaSymbol) s' ->
  exists taken,
    s' = with_held (fun l => l ++ taken) s
    /\ Forall (fun h => h.1 = index) taken
    /\ (rc = DDR_RC_OK -> is_Some diaSymbol).
Proof.
  unfold loadDataFromPdb, hold, modify, bind, ret.
  destruct s as [h fh sl tm ty pp dl hd].
  destruct (createDataSource file); simpl.
  2: { intros [= <- <- <-]. exists []. unfold with_held. simpl.
       rewrite app_nil_r. by repeat split. }
  destruct (loadData file); simpl.
  2: { intros [= <- <- <-]. exists [(index, DataSource)].
       split; [reflexivity |]. split; [by repeat constructor | done]. }
  destruct (openSession file); simpl.
  2: { intros [= <- <- <-]. exists [(index, DataSource)].
       split; [reflexivity |]. split; [by repeat constructor | done]. }
  destruct (get_globalScope file) as [g|]; simpl.
  - intros [= <- <- <-].
    exists [(index, DataSource); (index, Session); (index, GlobalScope)].
    unfold with_held. simpl. rewrite <- !app_assoc.
    split; [reflexivity |]. split; [by repeat constructor | eauto].
  - intros [= <- <- <-].
    exists [(index, DataSource); (index, Session)].
    unfold with_held. simpl. rewrite <- !app_assoc.
    split; [reflexivity |]. split; [by repeat constructor | done].
Qed.

(** Every way out of the processing of a file releases what was taken
    for it: the references held afterwards are those held before, less
    those of the file. *)
Lemma scanFile_releases (checkBlacklistedType : string -> bool)
    (index : nat) (file : PdbFile) (s s' : PdbScanner) (rc : DDR_RC) :
  scanFile checkBlacklistedType index file s = Ret rc s' ->
  held s' = filter (fun h => h.1 <> index) (held s).
Proof.
  unfold scanFile. intros E.
  apply bind_inv in E as ([rc0 diaSymbol] & s0 & Eload & E).
  apply loadDataFromPdb_holds in Eload as (taken & -> & Htaken & Hsym).
  assert (forall symTag rc1 (m := whenOK rc1
            match diaSymbol with
            | Some d => addChildrenSymbols_of checkBlacklistedType d symTag None
            | None => abort NullDereference
            end), preserves held_same m) as Hpass.
  { intros symTag [|]; simpl; [| by intros ? ? ? [= _ <-]].
    destruct diaSymbol; [apply addChildrenSymbols_of_held_same | by intros ?]. }
  apply bind_inv in E as (rc1 & s1 & E1 & E).
  apply bind_inv in E as (rc2 & s2 & E2 & E).
  apply bind_inv in E as (rc3 & s3 & E3 & E).
  apply Hpass in E1, E2, E3. unfold held_same in *.
  unfold release, modify, bind, ret in E. injection E as _ <-. simpl.
  rewrite E3, E2, E1. simpl. rewrite filter_app.
  by rewrite (filter_taken _ _ Htaken), app_nil_r.
Qed.

(** The loop stops at the first file whose processing returns an error:
    the files before it were processed, the files after it are not looked
    at, and the state is the one the failing file left. *)
Lemma scanFiles_stops_at_first_error (checkBlacklistedType : string -> bool)
    (before after : list PdbFile) (file : PdbFile) :
  forall (index : nat) (s s1 s2 : PdbScanner),
    scanFiles checkBlacklistedType index before s = Ret DDR_RC_OK s1 ->
    scanFile checkBlacklistedType (index + length before) file s1
    = Ret DDR_RC_ERROR s2 ->
    scanFiles checkBlacklistedType index (before ++ file :: after) s
    = Ret DDR_RC_ERROR s2.
Proof.
  induction before as [|f before IH]; intros index s s1 s2; simpl.
  - intros [= <-]. rewrite Nat.add_0_r. intros E.
    by erewrite bind_Ret by exact E.
  - intros (rc & s0 & E0 & E)%bind_inv. destruct rc; [| discriminate].
    intros Efile. erewrite bind_Ret by exact E0.
    apply (IH _ _ _ _ E). rewrite Nat.add_succ_r in Efile. exact Efile.
Qed.

(** A file that cannot be opened fails without a change to the IR. *)
Lemma scanFile_open_failure (checkBlacklistedType : string -> bool)
    (index : nat) (file : PdbFile) (s : PdbScanner) :
  createDataSource file = false \/ loadData file = false
  \/ openSession file = false \/ get_globalScope file = None ->
  scanFile checkBlacklistedType index file s
  = Ret DDR_RC_ERROR
      (with_held (fun _ => filter (fun h => h.1 <> index) (held s)) s).
Proof.
  intros Hfail.
  assert (exists taken,
            loadDataFromPdb index file s
            = Ret (DDR_RC_ERROR, None) (with_held (fun l => l ++ taken) s)
            /\ Forall (fun h => h.1 = index) taken) as (taken & Eload & Htaken).
  { unfold loadDataFromPdb, hold, modify, bind, ret.
    destruct s as [h fh sl tm ty pp dl hd].
    destruct (createDataSource file) eqn:E1; simpl;
      [| exists []; unfold with_held; simpl; by rewrite app_nil_r].
    destruct (loadData file) eqn:E2; simpl;
      [| exists [(index, DataSource)]; by repeat constructor].
    destruct (openSession file) eqn:E3; simpl;
      [| exists [(index, DataSource)]; by repeat constructor].
    destruct (get_globalScope file) as [g|] eqn:E4; simpl;
      [destruct Hfail as [? | [? | [? | ?]]]; congruence |].
    exists [(index, DataSource); (index, Session)].
    unfold with_held. simpl. rewrite <- !app_assoc.
    by repeat constructor. }
  unfold scanFile. erewrite bind_Ret by exact Eload.
  destruct s as [h fh sl tm ty pp dl hd].
  unfold release, modify, bind, ret, with_held. simpl.
  by rewrite filter_app, (filter_taken _ _ Htaken), app_nil_r.
Qed.

(** The error of [startScan] when a file fails: the first error, with the
    IR the failing file left, neither patched nor renamed. *)
Lemma startScan_stops_at_first_error (checkBlacklistedType : string -> bool)
    (before after : list PdbFile) (file : PdbFile) (s1 s2 : PdbScanner) :
  scanFiles checkBlacklistedType 0 before Samples.initialised
  = Ret DDR_RC_OK s1 ->
  scanFile checkBlacklistedType (length before) file s1 = Ret DDR_RC_ERROR s2 ->
  startScan checkBlacklistedType true None (before ++ file :: after)
    emptyScanner
  = Ret DDR_RC_ERROR s2
  /\ held s2 = filter (fun h => h.1 <> length before) (held s1).
Proof.
  intros Hbefore Hfile. split.
  - apply startScan_does_not_patch_after_error.
    by apply (scanFiles_stops_at_first_error _ _ _ _ _ _ _ _ Hbefore).
  - by apply scanFile_releases in Hfile.
Qed.

(** Three files of which the second cannot be opened: the scan returns the
    error, the class of the first file is in the registry, the third file
    was not looked at, and none of the references of the files is held. *)
Example second_of_three_files_unreadable :
  match startScan Samples.noBlacklist true None
          [ Scenarios.lateFile; Samples.unreadable;
            Samples.pdb [ Samples.udt "Never" 4 [] ] ] emptyScanner with
  | Ret rc s =>
      rc = DDR_RC_ERROR
      /\ _typeMap s !! "Late" = Some 35
      /\ _typeMap s !! "Never" = None
      /\ length (heap s) = 36
      /\ held s = []
  | Abort _ => False
  end.
Proof. vm_compute. repeat split; reflexivity. Qed.

(** C3, on the code: the construction of the class of
    [Scenarios.brokenFile] fails, its size cannot be read, and the error
    reaches the dispatcher.  The first loop of [addChildrenSymbols] does
    not keep the result of the dispatcher, so the processing of the file
    returns success, the loop over the files goes on to the next file,
    whose class is registered, and the scan returns success. *)
Theorem construction_error_does_not_stop_the_scan :
  (exists s, createClassUDT_of Samples.noBlacklist Scenarios.unsizedClass None
               Samples.initialised = Ret DDR_RC_ERROR s)
  /\ (exists s, addSymbol_of Samples.noBlacklist Scenarios.unsizedClass None
                  Samples.initialised = Ret DDR_RC_ERROR s)
  /\ (exists s, scanFile Samples.noBlacklist 0 Scenarios.brokenFile
                  Samples.initialised = Ret DDR_RC_OK s)
  /\ match startScan Samples.noBlacklist true None
             [ Scenarios.brokenFile; Scenarios.lateFile ] emptyScanner with
     | Ret rc s =>
         rc = DDR_RC_OK
         /\ _typeMap s !! "Broken" = None
         /\ _typeMap s !! "Late" = Some 35
     | Abort _ => False
     end.
Proof.
  split; [eexists; vm_compute; reflexivity |].
  split; [eexists; vm_compute; reflexivity |].
  split; [eexists; vm_compute; reflexivity |].
  vm_compute. repeat split; reflexivity.
Qed.

(** ** C2: fields and sub-types of a class that is met again *)







(** *** The two guards of the first loop *)



















(** Two files that both declare [N::Foo]: the scan of both leaves the
    types, the fields, the registry and the root list that the scan of
    one leaves.  [N] has one child, [Foo], with its two fields and its one
    nested class. *)
Example two_files_declare_N_Foo :
  match startScan Samples.noBlacklist true None
          [Scenarios.nFooFile; Scenarios.nFooFile] emptyScanner,
        startScan Samples.noBlacklist true None
          [Scenarios.nFooFile] emptyScanner with
  | Ret rc2 s2, Ret rc1 s1 =>
      rc2 = DDR_RC_OK /\ rc1 = DDR_RC_OK
      /\ heap s2 = heap s1
      /\ fieldHeap s2 = fieldHeap s1
      /\ _types s2 = _types s1
      /\ map_to_list (_typeMap s2) = map_to_list (_typeMap s1)
      /\ drop 35 (map (fun t => (_name t, _outerNamespace t, _subUDTs t,
                                 _fieldMembers t)) (heap s2))
         = [ ("N", None, [36], []);
             ("Foo", Some 35, [37], [1; 2]);
             ("Bar", Some 36, [], [0]) ]
  | _, _ => False
  end.
Proof. vm_compute. repeat split; reflexivity. Qed.

(** * Further properties of the scanner *)

(** ** The registry *)

Lemma empty_spec (n : string) : StdString.empty n = true <-> n = "".
Proof. destruct n; simpl; split; congruence. Qed.

(** X1: [addType] never rebinds a name.  For a type that has a qualified
    name (its chain of owners ends): when that name is empty or already
    registered, nothing changes; otherwise the name is bound to the type
    and, when [addToIR] is set, the type is appended to the root list.
    Either way every name registered before is still bound to the same
    object, the name of the type (if not empty) is registered afterwards,
    and a second call for the same type, with either flag, changes
    nothing more.  [getFullName] finds no name only for a type whose
    chain of owners has no end at any depth, and then neither it nor
    [addType] returns. *)
Theorem addType_first_registration_wins :
  forall (type : TypeId) (addToIR : bool) (s : PdbScanner),
    match getFullName type s with
    | Ret fullName s0 =>
        s0 = s
        /\ exists s' : PdbScanner,
             addType type addToIR s = Ret tt s'
             /\ registry_grows s s'
             /\ match _typeMap s !! fullName with
                | Some first => s' = s
                | None =>
                    if StdString.empty fullName then s' = s
                    else s' = with_typeMap (insert fullName type)
                                (if addToIR
                                 then with_types (fun l => l ++ [type]) s
                                 else s)
                end
             /\ (fullName <> "" ->
                 _typeMap s' !! fullName
                 = Some (default type (_typeMap s !! fullName)))
             /\ forall again : bool, addType type again s' = Ret tt s'
    | Abort f =>
        f = Nontermination
        /\ (forall steps : nat, getFullName_from steps (heap s) type = None)
        /\ addType type addToIR s = Abort Nontermination
    end.
Proof.
  intros type addToIR s. unfold getFullName at 1.
  destruct (getFullName_from (length (heap s)) (heap s) type)
    as [fullName|] eqn:Hname.
  - split; [reflexivity |]. eexists. split; [by apply addType_run |].
    destruct (_typeMap s !! fullName) as [first|] eqn:Efound.
    + split; [apply registry_grows_refl |]. split; [reflexivity |].
      split; [done |].
      intros again. rewrite (addType_run _ _ _ _ Hname). by rewrite Efound.
    + destruct (StdString.empty fullName) eqn:Eempty.
      * split; [apply registry_grows_refl |]. split; [reflexivity |].
        split; [intros Hne; by apply empty_spec in Eempty |].
        intros again. rewrite (addType_run _ _ _ _ Hname).
        by rewrite Efound, Eempty.
      * split.
        { intros n t Hn.
          destruct addToIR; simpl;
            (rewrite lookup_insert_ne; [done | congruence]). }
        split; [reflexivity |].
        split.
        { intros _. destruct addToIR; simpl; by rewrite lookup_insert_eq. }
        intros again. rewrite (addType_run _ _ _ fullName).
        { replace (_typeMap _ !! fullName) with (Some type)
            by (destruct addToIR; simpl; by rewrite lookup_insert_eq).
          reflexivity. }
        by destruct addToIR.
  - split; [reflexivity |].
    split; [by apply getFullName_from_enough |].
    unfold addType, bind at 1, getFullName. by rewrite Hname.
Qed.

Lemma forEach_snoc {A} (body : A -> M unit) (l : list A) (x : A)
    (s : PdbScanner) :
  forEach body (l ++ [x]) s = (let* _ := forEach body l in body x) s.
Proof.
  revert s. induction l as [|y l IH]; intros s; simpl.
  - unfold bind, ret. by destruct (body x s) as [[] ?|].
  - unfold bind in *. destruct (body y s) as [[] s1|]; [| reflexivity].
    apply IH.
Qed.

(** The loop of [initBaseTypeList] over a list of names, from any
    state. *)
Lemma forEach_initBaseType (names : list string) :
  forall s : PdbScanner,
    exists s',
      forEach initBaseType names s = Ret tt s'
      /\ heap s' = heap s ++ map baseTypeNode names
      /\ _types s' = _types s ++ seq (length (heap s)) (length names)
      /\ (forall n,
            _typeMap s' !! n
            = match lastIndexOf n names with
              | Some i => Some (length (heap s) + i)
              | None => _typeMap s !! n
              end)
      /\ fieldHeap s' = fieldHeap s /\ slots s' = slots s
      /\ _postponedFields s' = _postponedFields s
      /\ deleted s' = deleted s /\ held s' = held s.
Proof.
  induction names as [|first rest IH]; intros s; simpl.
  - exists s. rewrite !app_nil_r. by repeat split.
  - unfold bind at 1. unfold initBaseType at 1, new_, bind, modify. simpl.
    match goal with |- context [forEach initBaseType rest ?s1] =>
      destruct (IH s1) as (s' & Hrun & Hheap & Htypes & Hmap & Hrest)
    end.
    exists s'. split; [exact Hrun |]. simpl in *.
    rewrite Hheap, Htypes, <- !app_assoc, length_app. simpl.
    split; [reflexivity |].
    split; [by rewrite Nat.add_1_r |].
    split; [| exact Hrest].
    intros n. rewrite Hmap, length_app. simpl.
    destruct (lastIndexOf n rest) as [i|].
    + f_equal. lia.
    + case_bool_decide as Hn.
      * subst. by rewrite lookup_insert_eq, Nat.add_0_r.
      * by rewrite lookup_insert_ne.
Qed.

Lemma lastIndexOf_None (n : string) (names : list string) :
  lastIndexOf n names = None -> n ∉ names.
Proof.
  induction names as [|first rest IH]; simpl; [intros _; apply not_elem_of_nil |].
  destruct (lastIndexOf n rest); [discriminate |].
  case_bool_decide as Hfirst; [discriminate |]. intros _.
  apply not_elem_of_cons. split; [congruence | by apply IH].
Qed.

Lemma lastIndexOf_Some (n : string) (names : list string) :
  forall i, lastIndexOf n names = Some i -> names !! i = Some n.
Proof.
  induction names as [|first rest IH]; intros i; simpl; [discriminate |].
  destruct (lastIndexOf n rest) as [j|].
  - intros [= <-]. by apply IH.
  - case_bool_decide as Hfirst; [| discriminate]. intros [= <-]. by subst.
Qed.

Lemma lastIndexOf_elem_of (n : string) (names : list string) :
  n ∈ names ->
  exists i, lastIndexOf n names = Some i /\ names !! i = Some n.
Proof.
  intros Hin. destruct (lastIndexOf n names) as [i|] eqn:Ei.
  - exists i. split; [reflexivity |]. by apply lastIndexOf_Some.
  - by apply lastIndexOf_None in Ei.
Qed.

Lemma lastIndexOf_I8 : lastIndexOf "I8" baseTypeNames = Some 15.
Proof. vm_compute. reflexivity. Qed.

Lemma initBaseTypeList_forEach (s : PdbScanner) :
  initBaseTypeList s = forEach initBaseType baseTypeNames s.
Proof.
  unfold initBaseTypeList, baseTypeNames. symmetry. apply forEach_snoc.
Qed.

(** X2: [initBaseTypeList], from any state, creates one base type object
    of size 0 for every entry of the table and for the missing-type
    marker, 35 in all, in table order, appends every one of them to the
    root list, and binds each name to the object of its last entry: a
    name that the table lists several times gets several objects in the
    root list, and a name that was registered before is rebound.  The
    other names keep their registration. *)
Theorem initBaseTypeList_registers_every_entry :
  forall s : PdbScanner,
    exists s',
      initBaseTypeList s = Ret tt s'
      /\ heap s' = heap s ++ map baseTypeNode baseTypeNames
      /\ _types s' = _types s ++ seq (length (heap s)) 35
      /\ (forall n,
            _typeMap s' !! n
            = match lastIndexOf n baseTypeNames with
              | Some i => Some (length (heap s) + i)
              | None => _typeMap s !! n
              end)
      /\ (forall n, n ∈ baseTypeNames ->
            exists t, _typeMap s' !! n = Some t
                      /\ length (heap s) <= t
                      /\ heap s' !! t = Some (baseTypeNode n))
      /\ lastIndexOf "I8" baseTypeNames = Some 15
      /\ fieldHeap s' = fieldHeap s /\ slots s' = slots s
      /\ _postponedFields s' = _postponedFields s
      /\ deleted s' = deleted s /\ held s' = held s.
Proof.
  intros s.
  destruct (forEach_initBaseType baseTypeNames s)
    as (s' & Hrun & Hheap & Htypes & Hmap & Hrest).
  exists s'. split.
  { rewrite initBaseTypeList_forEach. exact Hrun. }
  split; [exact Hheap |]. split; [exact Htypes |]. split; [exact Hmap |].
  split; [| split; [exact lastIndexOf_I8 | exact Hrest]].
  intros n Hn. rewrite Hmap, Hheap.
  destruct (lastIndexOf_elem_of _ _ Hn) as (i & Hlast & Hi). rewrite Hlast.
  exists (length (heap s) + i). split; [reflexivity |]. split; [lia |].
  rewrite lookup_app_r by lia.
  replace (length (heap s) + i - length (heap s)) with i by lia.
  by rewrite list_lookup_fmap, Hi.
Qed.

(** ** Base types by the table *)

(** Every name of the table is registered when the scan starts, with an
    object that carries the name. *)
Lemma baseTypeArray_registered :
  Forall (fun n => n <> ""
                   /\ exists node,
                        canonicalNode n = Some node
                        /\ _name (at_ (heap Samples.initialised) node) = n)
    baseTypeArray.
Proof.
  unfold baseTypeArray.
  repeat (constructor;
          [split; [discriminate |];
           eexists; split; solve [vm_compute; reflexivity] |]).
  constructor.
Qed.

Lemma baseTypeArray_length : length baseTypeArray = 34.
Proof. reflexivity. Qed.

(** X3: for a base type whose code is none of the three that go by width,
    [setBaseType] binds the slot to the object registered under the
    table's name for that code, whatever the width: a code below 34
    always succeeds, and two symbols of the same code get the same
    object.  The code [0xFFFFFFFF] succeeds and binds nothing; any other
    code from 34 on reads the table past its end. *)
Theorem setBaseType_by_table :
  forall (typeSymbol : SymbolData) (type : Slot) (s : PdbScanner)
         (code width : N),
    registry_grows Samples.initialised s ->
    get_baseType typeSymbol = Some code ->
    get_length typeSymbol = Some width ->
    code <> btUInt -> code <> btInt -> code <> btFloat ->
    if (code =? 0xFFFFFFFF)%N then
      setBaseType typeSymbol type s = Ret DDR_RC_OK s
    else
      match baseTypeArray !! N.to_nat code with
      | Some n =>
          (code < 34)%N
          /\ exists node,
               canonicalNode n = Some node
               /\ _name (at_ (heap Samples.initialised) node) = n
               /\ setBaseType typeSymbol type s
                  = Ret DDR_RC_OK (with_slots (store_slot type (Some node)) s)
      | None =>
          (34 <= code)%N
          /\ setBaseType typeSymbol type s = Abort OutOfBounds
      end.
Proof.
  intros typeSymbol type s code width Hs Hcode Hwidth HUInt HInt HFloat.
  unfold setBaseType, getSize. rewrite Hcode, Hwidth. unfold whenOK.
  rewrite (proj2 (N.eqb_neq code btUInt) HUInt).
  rewrite (proj2 (N.eqb_neq code btInt) HInt).
  rewrite (proj2 (N.eqb_neq code btFloat) HFloat).
  destruct (code =? 4294967295)%N; [reflexivity |].
  destruct (baseTypeArray !! N.to_nat code) as [n|] eqn:En.
  - split.
    { apply lookup_lt_Some in En. rewrite baseTypeArray_length in En. lia. }
    apply list_elem_of_lookup_2 in En.
    destruct (proj1 (Forall_forall _ _) baseTypeArray_registered n En)
      as (Hne & node & Hnode & Hname).
    exists node. split; [exact Hnode |]. split; [exact Hname |].
    rewrite (bindTo_registered n type s Hne).
    by rewrite (canonicalNode_registered s n node Hs Hnode).
  - split; [| reflexivity].
    apply lookup_ge_None in En. rewrite baseTypeArray_length in En. lia.
Qed.

Lemma setBaseType_by_table_witness :
  exists node,
    canonicalNode "bool" = Some node
    /\ _name (at_ (heap Samples.initialised) node) = "bool"
    /\ setBaseType (data (Samples.baseType 10 1)) (fieldType_of 0)
         Samples.initialised
       = Ret DDR_RC_OK
           (with_slots (store_slot (fieldType_of 0) (Some node))
              Samples.initialised).
Proof.
  apply (setBaseType_by_table (data (Samples.baseType 10 1)) (fieldType_of 0)
           Samples.initialised 10 1).
  - intros n t H. exact H.
  - reflexivity.
  - reflexivity.
  - discriminate.
  - discriminate.
  - discriminate.
Defined.

(** ** The parts of a field *)

Lemma writeField_twice (fid : FieldId) (f g : Field -> Field)
    (s : PdbScanner) :
  with_fieldHeap (alter g fid) (with_fieldHeap (alter f fid) s)
  = with_fieldHeap (alter (g ∘ f) fid) s.
Proof.
  destruct s. unfold with_fieldHeap. simpl. f_equal.
  apply list_alter_alter_eq.
Qed.

(** X4: [setMemberOffset] either fails and leaves the scanner as it was,
    or succeeds and changes the one field only: the offset becomes the
    offset read, converted to [size_t] (0 for a static member whose offset
    cannot be read), a static member is marked static, a bit field gets
    its bit position, and the name and the modifiers stay.  It succeeds
    exactly for a member relative to [this] whose offset can be read, for
    a static member, and for a bit field whose offset and bit position
    can both be read. *)
Theorem setMemberOffset_all_or_nothing :
  forall (symbol : SymbolData) (newField : FieldId) (s : PdbScanner),
    exists (rc : DDR_RC) (s' : PdbScanner),
      setMemberOffset symbol newField s = Ret rc s'
      /\ match rc with
         | DDR_RC_ERROR => s' = s
         | DDR_RC_OK =>
             exists update : Field -> Field,
               s' = with_fieldHeap (alter update newField) s
               /\ forall f : Field,
                    _offset (update f)
                    = size_t_of_LONG (default 0%Z (get_offset symbol))
                    /\ _isStatic (update f)
                       = match get_locationType symbol with
                         | Some LocIsStatic => true
                         | _ => _isStatic f
                         end
                    /\ _bitField (update f)
                       = match get_locationType symbol with
                         | Some LocIsBitField => get_bitPosition symbol
                         | _ => _bitField f
                         end
                    /\ _fieldName (update f) = _fieldName f
                    /\ _fieldModifiers (update f) = _fieldModifiers f
         end
      /\ (rc = DDR_RC_OK <->
          match get_locationType symbol with
          | Some LocIsThisRel => is_Some (get_offset symbol)
          | Some LocIsStatic => True
          | Some LocIsBitField =>
              is_Some (get_offset symbol) /\ is_Some (get_bitPosition symbol)
          | Some (LocIsOther _) | None => False
          end).
Proof.
  intros symbol newField s. unfold setMemberOffset.
  destruct (get_locationType symbol) as [[| | |code]|].
  - destruct (get_offset symbol) as [loffset|].
    + eexists _, _. split; [reflexivity |]. split; [| by eauto].
      eexists. split; [reflexivity |]. by intros f.
    + exists DDR_RC_ERROR, s. split; [reflexivity |]. split; [reflexivity |].
      split; [discriminate | by intros [? ?]].
  - unfold writeField, modify, bind, ret. rewrite writeField_twice.
    eexists _, _. split; [reflexivity |]. split; [| done].
    eexists. split; [reflexivity |]. intros f.
    by destruct (get_offset symbol).
  - destruct (get_offset symbol) as [loffset|].
    + destruct (get_bitPosition symbol) as [bitposition|].
      * unfold writeField, modify, bind, ret. rewrite writeField_twice.
        eexists _, _. split; [reflexivity |]. split; [| by eauto].
        eexists. split; [reflexivity |]. by intros f.
      * exists DDR_RC_ERROR, s. split; [reflexivity |].
        split; [reflexivity |].
        split; [discriminate | by intros [_ [? ?]]].
    + exists DDR_RC_ERROR, s. split; [reflexivity |]. split; [reflexivity |].
      split; [discriminate | by intros [[? ?] _]].
  - exists DDR_RC_ERROR, s. by repeat split.
  - exists DDR_RC_ERROR, s. by repeat split.
Qed.

Lemma lor_absorbs (flags a b c : N) :
  forall x y z : bool,
    let add (on : bool) (flag : N) (m : N) := if on then N.lor m flag else m in
    add z c (add y b (add x a (add z c (add y b (add x a flags)))))
    = add z c (add y b (add x a flags)).
Proof.
  intros x y z add. apply N.bits_inj. intros i.
  destruct x, y, z; simpl; rewrite ?N.lor_spec;
    destruct (N.testbit flags i), (N.testbit a i), (N.testbit b i),
             (N.testbit c i); reflexivity.
Qed.

(** X5: [setTypeModifier] only ever adds flags.  Whether it succeeds or
    fails, every flag that was set stays set, and the pointer count, the
    reference count and the array dimensions are not touched; it fails
    exactly when one of the three accessors fails, and then the flags
    read before the failure have already been added.  Reading the same
    symbol a second time changes nothing. *)
Theorem setTypeModifier_only_adds_flags :
  forall (symbol : SymbolData) (modifiers : Modifiers),
    let rc := (setTypeModifier symbol modifiers).1 in
    let modifiers' := (setTypeModifier symbol modifiers).2 in
    (forall i : N,
        N.testbit (_modifierFlags modifiers) i = true ->
        N.testbit (_modifierFlags modifiers') i = true)
    /\ _pointerCount modifiers' = _pointerCount modifiers
    /\ _referenceCount modifiers' = _referenceCount modifiers
    /\ _arrayLengths modifiers' = _arrayLengths modifiers
    /\ (rc = DDR_RC_OK <->
        is_Some (get_constType symbol) /\ is_Some (get_volatileType symbol)
        /\ is_Some (get_unalignedType symbol))
    /\ (get_constType symbol = Some true ->
        _modifierFlags modifiers'
        = N.lor (_modifierFlags modifiers') CONST_TYPE)
    /\ setTypeModifier symbol modifiers' = (rc, modifiers').
Proof.
  intros symbol modifiers. cbv zeta. unfold setTypeModifier.
  destruct (get_constType symbol) as [c|]; simpl.
  2: { repeat split; try done; by intros [[? ?] _]. }
  destruct (get_volatileType symbol) as [v|]; simpl.
  2: { split.
       { intros i Hi. destruct c; simpl; [| done].
         rewrite N.lor_spec, Hi. reflexivity. }
       split; [by destruct c |]. split; [by destruct c |].
       split; [by destruct c |].
       split; [split; [done | by intros [_ [[? ?] _]]] |].
       split.
       { intros [= ->]. simpl. apply N.bits_inj. intros i.
         rewrite !N.lor_spec.
         by destruct (N.testbit _ i), (N.testbit CONST_TYPE i). }
       f_equal. destruct c; [| done]. unfold setFlag. simpl. f_equal.
       apply N.bits_inj. intros i. rewrite !N.lor_spec.
       by destruct (N.testbit _ i), (N.testbit CONST_TYPE i). }
  destruct (get_unalignedType symbol) as [u|]; simpl.
  2: { split.
       { intros i Hi. destruct c, v; simpl; rewrite ?N.lor_spec, ?Hi;
           reflexivity. }
       split; [by destruct c, v |]. split; [by destruct c, v |].
       split; [by destruct c, v |].
       split; [split; [done | by intros [_ [_ [? ?]]]] |].
       split.
       { intros [= ->]. apply N.bits_inj. intros i.
         destruct v; simpl; rewrite !N.lor_spec;
           by destruct (N.testbit _ i), (N.testbit CONST_TYPE i),
                       (N.testbit VOLATILE_TYPE i). }
       f_equal.
       pose proof (lor_absorbs (_modifierFlags modifiers) CONST_TYPE
                     VOLATILE_TYPE 0 c v false) as H.
       cbv zeta in H. destruct c, v; unfold setFlag; simpl; f_equal;
         (exact H || reflexivity). }
  split.
  { intros i Hi. destruct c, v, u; simpl; rewrite ?N.lor_spec, ?Hi;
      reflexivity. }
  split; [by destruct c, v, u |]. split; [by destruct c, v, u |].
  split; [by destruct c, v, u |].
  split; [split; [by eauto | done] |].
  split.
  { intros [= ->]. apply N.bits_inj. intros i.
    destruct v, u; simpl; rewrite !N.lor_spec;
      by destruct (N.testbit _ i), (N.testbit CONST_TYPE i),
                  (N.testbit VOLATILE_TYPE i), (N.testbit UNALIGNED_TYPE i). }
  f_equal.
  pose proof (lor_absorbs (_modifierFlags modifiers) CONST_TYPE
                VOLATILE_TYPE UNALIGNED_TYPE c v u) as H.
  cbv zeta in H. destruct c, v, u; unfold setFlag; simpl; f_equal;
    (exact H || reflexivity).
Qed.

(** ** Taking a type out of the root list *)

Lemma filter_all {A} (P : A -> Prop) `{!forall x, Decision (P x)}
    (l : list A) :
  Forall P l -> filter P l = l.
Proof.
  induction 1 as [|x l Hx _ IH]; [reflexivity |].
  by rewrite filter_cons_True, IH.
Qed.

(** X6: the [erase(remove(...))] of the namespace resolver takes exactly
    one element out of the root list when the type is in it (the call is
    guarded by that test).  When the type occurs once, as in a list
    without repetition, the result is the list without the type, the
    other types in their order. *)
Theorem remove_erase_takes_one_element :
  forall (ns : TypeId) (v : list TypeId),
    ns ∈ v ->
    length (remove_erase ns v) = length v - 1
    /\ (NoDup v ->
        remove_erase ns v = filter (fun t => t <> ns) v
        /\ (ns ∉ remove_erase ns v)
        /\ forall t, t <> ns -> (t ∈ remove_erase ns v <-> t ∈ v)).
Proof.
  intros ns v Hin. unfold remove_erase. split.
  - pose proof (length_filter_lt (fun t => t <> ns) v ns Hin) as Hlt.
    rewrite length_app, length_drop.
    assert (length (filter (fun t => t <> ns) v) < length v) by (apply Hlt; tauto).
    lia.
  - intros Hnodup.
    assert (drop (S (length (filter (fun t => t <> ns) v))) v = []) as ->.
    { apply list_elem_of_split in Hin as (l1 & l2 & ->).
      apply NoDup_app in Hnodup as (_ & Hl1 & Hl2).
      apply NoDup_cons in Hl2 as [Hl2 _].
      assert (ns ∉ l1) as Hn1.
      { intros H1. apply (Hl1 _ H1). by left. }
      rewrite filter_app, filter_cons_False by tauto.
      rewrite !filter_all.
      + apply drop_ge. rewrite !length_app. simpl. lia.
      + apply Forall_forall. intros t Ht ->. done.
      + apply Forall_forall. intros t Ht ->. done. }
    rewrite app_nil_r. split; [reflexivity |].
    split.
    + intros [H _]%list_elem_of_filter. done.
    + intros t Ht. rewrite list_elem_of_filter. tauto.
Qed.

Lemma remove_erase_takes_one_element_witness :
  length (remove_erase 36 [35; 36; 37]) = length [35; 36; 37] - 1
  /\ (NoDup [35; 36; 37] ->
      remove_erase 36 [35; 36; 37]
      = filter (fun t => t <> 36) [35; 36; 37]
      /\ (36 ∉ remove_erase 36 [35; 36; 37])
      /\ forall t, t <> 36 ->
                   (t ∈ remove_erase 36 [35; 36; 37] <-> t ∈ [35; 36; 37])).
Proof.
  apply (remove_erase_takes_one_element 36 [35; 36; 37]).
  apply list_elem_of_In. simpl. tauto.
Defined.

(** ** Enum members *)

Lemma push_enumMembers_spec (names : list string) :
  forall t : Type_,
    _enumMembers (push_enumMembers names t) = _enumMembers t ++ names
    /\ _class (push_enumMembers names t) = _class t
    /\ _name (push_enumMembers names t) = _name t
    /\ _sizeOf (push_enumMembers names t) = _sizeOf t
    /\ _outerNamespace (push_enumMembers names t) = _outerNamespace t
    /\ _subUDTs (push_enumMembers names t) = _subUDTs t
    /\ _fieldMembers (push_enumMembers names t) = _fieldMembers t.
Proof.
  induction names as [|n names IH]; intros t; simpl.
  - by rewrite app_nil_r.
  - destruct (IH (push_enumMember n t)) as (-> & -> & -> & -> & -> & -> & ->).
    simpl. by rewrite <- app_assoc.
Qed.

Lemma write_twice (t : TypeId) (f g : Type_ -> Type_) (s : PdbScanner) :
  with_heap (alter g t) (with_heap (alter f t) s)
  = with_heap (alter (g ∘ f) t) s.
Proof.
  destruct s. unfold with_heap. simpl. f_equal. apply list_alter_alter_eq.
Qed.

Lemma with_heap_alter_id (t : TypeId) (s : PdbScanner) :
  with_heap (alter id t) s = s.
Proof.
  destruct s. unfold with_heap. simpl. f_equal. by apply list_alter_id.
Qed.

Lemma addEnumMembers_loop_from (childSymbols : list SymbolData)
    (enumUDT : TypeId) :
  forall (s : PdbScanner) (f : Type_ -> Type_),
    addEnumMembers_loop childSymbols enumUDT DDR_RC_OK
      (with_heap (alter f enumUDT) s)
    = Ret (if namesReadable childSymbols then DDR_RC_OK else DDR_RC_ERROR)
        (with_heap
           (alter (push_enumMembers (readableNames childSymbols) ∘ f)
              enumUDT) s).
Proof.
  induction childSymbols as [|c rest IH]; intros s f; simpl.
  - reflexivity.
  - destruct (getName c) as [[|] n] eqn:Ename; simpl.
    + unfold bind, write, modify. rewrite write_twice.
      exact (IH s (push_enumMember n ∘ f)).
    + unfold bind, ret. by destruct rest.
Qed.

Lemma addEnumMembers_loop_run (childSymbols : list SymbolData)
    (enumUDT : TypeId) (s : PdbScanner) :
  addEnumMembers_loop childSymbols enumUDT DDR_RC_OK s
  = Ret (if namesReadable childSymbols then DDR_RC_OK else DDR_RC_ERROR)
      (with_heap
         (alter (push_enumMembers (readableNames childSymbols)) enumUDT) s).
Proof.
  rewrite <- (with_heap_alter_id enumUDT s) at 1.
  exact (addEnumMembers_loop_from childSymbols enumUDT s id).
Qed.

(** X7: [addEnumMembers] appends the names of the children to the members
    of the enum, in enumeration order, up to the first child whose name
    cannot be read; at that child it stops with an error and the members
    read before it stay appended.  Nothing but the member list of the
    enum changes.  A failure of [findChildren] is an error; a failure of
    [get_Count] is not looked at; a failure of [Next] ends the loop with
    success and no member. *)
Theorem addEnumMembers_appends_in_order :
  forall (symbol : IDiaSymbol) (enumUDT : TypeId) (s : PdbScanner),
    let childSymbols := map data (children symbol) in
    let names := readableNames childSymbols in
    match enumeration (data symbol) with
    | findChildren_FAILED =>
        addEnumMembers symbol enumUDT s = Ret DDR_RC_ERROR s
    | Next_FAILED =>
        addEnumMembers symbol enumUDT s = Ret DDR_RC_OK s
    | get_Count_FAILED | Enumerated =>
        addEnumMembers symbol enumUDT s
        = Ret (if namesReadable childSymbols
               then DDR_RC_OK else DDR_RC_ERROR)
            (with_heap (alter (push_enumMembers names) enumUDT) s)
        /\ (namesReadable childSymbols = true ->
            names = map (fun c => (getName c).2) childSymbols)
        /\ forall t : Type_,
             _enumMembers (push_enumMembers names t) = _enumMembers t ++ names
             /\ _class (push_enumMembers names t) = _class t
             /\ _name (push_enumMembers names t) = _name t
             /\ _sizeOf (push_enumMembers names t) = _sizeOf t
             /\ _outerNamespace (push_enumMembers names t) = _outerNamespace t
             /\ _subUDTs (push_enumMembers names t) = _subUDTs t
             /\ _fieldMembers (push_enumMembers names t) = _fieldMembers t
    end.
Proof.
  intros symbol enumUDT s childSymbols names. unfold addEnumMembers.
  assert (namesReadable childSymbols = true ->
          names = map (fun c => (getName c).2) childSymbols) as Hall.
  { subst names. clear. induction childSymbols as [|c rest IH]; simpl;
      [done |].
    destruct (getName c) as [[|] n]; simpl; [| done].
    intros H. by rewrite IH. }
  destruct (enumeration (data symbol)); try reflexivity;
    (split; [apply addEnumMembers_loop_run |]);
    (split; [exact Hall | apply push_enumMembers_spec]).
Qed.

(** ** The walk of a typedef to its declared type *)

Lemma typedefBaseSymbol_unfold (baseSymbol : IDiaSymbol) (symTag : SymTagEnum)
    (rc : DDR_RC) :
  typedefBaseSymbol baseSymbol symTag rc
  = if leavesWalk symTag then Some (baseSymbol, symTag, rc)
    else
      match get_type baseSymbol with
      | None => None
      | Some next =>
          match rc, get_symTag (data next) with
          | DDR_RC_OK, Some tag => typedefBaseSymbol next tag DDR_RC_OK
          | DDR_RC_OK, None => typedefBaseSymbol next symTag DDR_RC_ERROR
          | DDR_RC_ERROR, _ => typedefBaseSymbol next symTag DDR_RC_ERROR
          end
      end.
Proof. by destruct baseSymbol. Qed.

Lemma declaredType_unfold (symbol : IDiaSymbol) :
  declaredType symbol
  = match get_type symbol with
    | None => None
    | Some next =>
        match get_symTag (data next) with
        | None => None
        | Some symTag =>
            if leavesWalk symTag then Some (next, symTag)
            else declaredType next
        end
    end.
Proof. by destruct symbol. Qed.

(** Once [rc] is an error the tag no longer changes and the walk has no
    way out. *)
Lemma typedefBaseSymbol_after_error (baseSymbol : IDiaSymbol) :
  forall symTag,
    leavesWalk symTag = false ->
    typedefBaseSymbol baseSymbol symTag DDR_RC_ERROR = None.
Proof.
  induction baseSymbol as [d type children IHtype _]
    using IDiaSymbol_tree_ind.
  intros symTag Htag. rewrite typedefBaseSymbol_unfold, Htag. simpl.
  destruct type as [next|]; [| reflexivity]. by apply IHtype.
Qed.

Lemma typedefBaseSymbol_declaredType (baseSymbol : IDiaSymbol) :
  forall symTag,
    leavesWalk symTag = false ->
    typedefBaseSymbol baseSymbol symTag DDR_RC_OK
    = match declaredType baseSymbol with
      | Some (declared, tag) => Some (declared, tag, DDR_RC_OK)
      | None => None
      end.
Proof.
  induction baseSymbol as [d type children IHtype _]
    using IDiaSymbol_tree_ind.
  intros symTag Htag.
  rewrite typedefBaseSymbol_unfold, declaredType_unfold, Htag. simpl.
  destruct type as [next|]; [| reflexivity].
  destruct (get_symTag (data next)) as [tag|].
  - destruct (leavesWalk tag) eqn:Hleave.
    + by rewrite typedefBaseSymbol_unfold, Hleave.
    + by apply IHtype.
  - by apply typedefBaseSymbol_after_error.
Qed.

Lemma declaredType_leaves (symbol : IDiaSymbol) :
  forall declared symTag,
    declaredType symbol = Some (declared, symTag) -> leavesWalk symTag = true.
Proof.
  induction symbol as [d type children IHtype _]
    using IDiaSymbol_tree_ind.
  intros declared symTag. rewrite declaredType_unfold. simpl.
  destruct type as [next|]; [| discriminate].
  destruct (get_symTag (data next)) as [tag|]; [| discriminate].
  destruct (leavesWalk tag) eqn:Hleave.
  - by intros [= _ <-].
  - by apply IHtype.
Qed.

(** X8: the walk of [createTypedef] from the typedef to its declared type
    has no way out on an error.  It leaves its loop only at a symbol whose
    tag is UDT, enum, base type or function type, reached through
    [get_type] with every tag on the way read, and then with [rc] still
    OK.  For a typedef whose name is read and not blacklisted and whose
    chain does not reach such a symbol, because [get_type] or [get_symTag]
    fails on the way, [createTypedef] does not return. *)
Theorem createTypedef_walk_has_no_error_exit :
  forall (checkBlacklistedType : string -> bool) (symbol : IDiaSymbol)
         (typeSymbol : option Handle) (outerNamespace : option TypeId)
         (s : PdbScanner) (typedefName : string),
    getName (data symbol) = (DDR_RC_OK, typedefName) ->
    checkBlacklistedType typedefName = false ->
    match declaredType symbol with
    | Some (declared, symTag) =>
        typedefBaseSymbol symbol SymTagNull DDR_RC_OK
        = Some (declared, symTag, DDR_RC_OK)
        /\ leavesWalk symTag = true
    | None =>
        typedefBaseSymbol symbol SymTagNull DDR_RC_OK = None
        /\ exists f : Fault,
             createTypedef checkBlacklistedType symbol typeSymbol
               outerNamespace s = Abort f
    end.
Proof.
  intros checkBlacklistedType symbol typeSymbol outerNamespace s typedefName
    Hname Hlisted.
  pose proof (typedefBaseSymbol_declaredType symbol SymTagNull eq_refl)
    as Hwalk.
  destruct (declaredType symbol) as [[declared symTag]|] eqn:Edeclared.
  - split; [exact Hwalk |]. by eapply declaredType_leaves.
  - split; [exact Hwalk |].
    exists Nontermination. unfold createTypedef. by rewrite Hname, Hlisted, Hwalk.
Qed.

Lemma createTypedef_walk_has_no_error_exit_witness :
  typedefBaseSymbol MoreScenarios.typedefOfNothing SymTagNull DDR_RC_OK = None
  /\ exists f : Fault,
       createTypedef Samples.noBlacklist MoreScenarios.typedefOfNothing None
         None Samples.initialised = Abort f.
Proof.
  apply (createTypedef_walk_has_no_error_exit Samples.noBlacklist
           MoreScenarios.typedefOfNothing None None Samples.initialised "T").
  - vm_compute. reflexivity.
  - reflexivity.
Defined.

(** ** The namespace resolver *)

Lemma substring_split (s : string) :
  forall n, s = String.substring 0 n s +:+ String.substring n (String.length s - n) s.
Proof.
  induction s as [|c s IH]; intros n.
  - by destruct n.
  - destruct n as [|n]; simpl.
    + by rewrite StdStringFacts.substring_whole.
    + rewrite StdStringFacts.app_cons. f_equal. apply IH.
Qed.

(** What [find] does not find from a position on is not in the rest of
    the string from there. *)
Lemma index_None_substring (needle s : string) :
  needle <> "" ->
  forall n,
    String.index n needle s = None ->
    String.index 0 needle (String.substring n (String.length s - n) s) = None.
Proof.
  intros Hneedle. induction s as [|c s IH]; intros n.
  - destruct n; simpl; by destruct needle.
  - destruct n as [|n].
    + intros H. rewrite Nat.sub_0_r.
      by rewrite (StdStringFacts.substring_whole (String c s)).
    + cbn [String.index]. simpl String.length. simpl String.substring.
      destruct (String.index n needle s) eqn:E; [discriminate |].
      intros _. by apply IH.
Qed.

(** What the relations of the scan need to be kept by every builder, for
    the registry. *)
Ltac registry_kept :=
  auto using registry_grows_refl, registry_grows_register;
  try (intros; by apply registry_grows_same);
  try apply registry_grows_trans.

Lemma getNamespaceFromName_loop_result (qualified : string) :
  forall (iterations previousPos : nat) (outerNamespace : option TypeId)
         (s s' : PdbScanner) (r : string * option TypeId),
    getNamespaceFromName_loop iterations qualified previousPos outerNamespace s
    = Ret r s' ->
    (exists pos,
        previousPos <= pos
        /\ StdString.find qualified "::" pos = None
        /\ r.1 = StdString.substr_from qualified pos)
    /\ (StdString.find qualified "::" previousPos = None ->
        r = (StdString.substr_from qualified previousPos, outerNamespace)
        /\ s' = s)
    /\ (is_Some (StdString.find qualified "::" previousPos) -> is_Some r.2).
Proof.
  induction iterations as [|iterations IH];
    intros previousPos outerNamespace s s' r; simpl;
    destruct (StdString.find qualified "::" previousPos) as [pos|] eqn:Efind;
    try discriminate.
  - intros [= <- <-]. split; [by exists previousPos |].
    split; [done | by intros [? ?]].
  - intros (found & s1 & _ & E)%bind_inv.
    apply bind_inv in E as (ns & s2 & _ & E).
    apply bind_inv in E as (nsOuter & s3 & _ & E).
    apply bind_inv in E as (u & s4 & _ & E).
    destruct (IH _ _ _ _ _ E) as ((pos' & Hpos' & Hnone & Hr) & Hdirect & Hmore).
    apply index_bounds in Efind as [Hpos _].
    split; [exists pos'; split; [lia | done] |].
    split; [discriminate |]. intros _.
    destruct (StdString.find qualified "::" (pos + 2)) eqn:Enext.
    + apply Hmore. eauto.
    + destruct (Hdirect eq_refl) as [-> _]. simpl. eauto.
  - intros [= <- <-]. split; [by exists previousPos |].
    split; [done | by intros [? ?]].
Qed.

Lemma index_Some_substring (needle s : string) :
  forall n m,
    String.index n needle s = Some m ->
    String.index 0 needle (StdString.substr_from s n) = Some (m - n).
Proof.
  unfold StdString.substr_from. induction s as [|c s IH]; intros n m.
  - destruct n; simpl; [| discriminate].
    destruct needle; [| discriminate]. by intros [= <-].
  - destruct n as [|n].
    + intros H. rewrite !Nat.sub_0_r.
      by rewrite (StdStringFacts.substring_whole (String c s)).
    + cbn [String.index]. simpl String.length. simpl String.substring.
      destruct (String.index n needle s) as [k|] eqn:E; [| discriminate].
      intros [= <-]. change (S k - S n) with (k - n). by apply IH.
Qed.

Lemma substr_from_twice (s : string) :
  forall n a, StdString.substr_from (StdString.substr_from s n) a = StdString.substr_from s (n + a).
Proof.
  unfold StdString.substr_from. induction s as [|c s IH]; intros n a.
  - destruct n, a; reflexivity.
  - destruct n as [|n].
    + rewrite Nat.sub_0_r.
      by rewrite (StdStringFacts.substring_whole (String c s)).
    + simpl String.length. simpl String.substring. apply IH.
Qed.

Lemma simpleName_unqualified (u : string) :
  String.index 0 "::" u = None -> simpleName u = u.
Proof.
  destruct u as [|c rest]; [reflexivity |].
  cbn [String.index simpleName].
  destruct (String.prefix "::" (String c rest)); [discriminate |].
  unfold StdString.contains, StdString.find.
  by destruct (String.index 0 "::" rest).
Qed.

Lemma simpleName_qualified (u : string) :
  forall k,
    String.index 0 "::" u = Some k ->
    simpleName u = simpleName (StdString.substr_from u (k + 2)).
Proof.
  unfold StdString.substr_from. induction u as [|c rest IH]; intros k; [discriminate |].
  cbn [String.index simpleName].
  destruct (String.prefix "::" (String c rest)) eqn:Hprefix.
  - intros [= <-]. destruct rest as [|c' rest'].
    + cbn [String.prefix] in Hprefix.
      destruct (ascii_dec ":" c); discriminate.
    + simpl. by rewrite Nat.sub_0_r, StdStringFacts.substring_whole.
  - unfold StdString.contains, StdString.find.
    destruct (String.index 0 "::" rest) as [n|] eqn:E; [| discriminate].
    intros [= <-]. rewrite (IH n eq_refl). reflexivity.
Qed.

(** The name the loop of the resolver leaves is the simple name of what
    was left of the qualified name when it started. *)
Lemma getNamespaceFromName_loop_simpleName (qualified : string) :
  forall (iterations previousPos : nat) (outerNamespace : option TypeId)
         (s s' : PdbScanner) (r : string * option TypeId),
    getNamespaceFromName_loop iterations qualified previousPos outerNamespace s
    = Ret r s' ->
    r.1 = simpleName (StdString.substr_from qualified previousPos).
Proof.
  induction iterations as [|iterations IH];
    intros previousPos outerNamespace s s' r; simpl;
    destruct (StdString.find qualified "::" previousPos) as [pos|] eqn:Efind;
    try discriminate.
  - intros [= <- <-]. simpl. symmetry. apply simpleName_unqualified.
    by apply index_None_substring.
  - intros (found & s1 & _ & E)%bind_inv.
    apply bind_inv in E as (ns & s2 & _ & E).
    apply bind_inv in E as (nsOuter & s3 & _ & E).
    apply bind_inv in E as (u & s4 & _ & E).
    rewrite (IH _ _ _ _ _ E).
    pose proof (index_bounds _ _ _ _ Efind) as [Hpos _].
    rewrite (simpleName_qualified _ _ (index_Some_substring _ _ _ _ Efind)).
    rewrite substr_from_twice. f_equal. f_equal. lia.
  - intros [= <- <-]. simpl. symmetry. apply simpleName_unqualified.
    by apply index_None_substring.
Qed.

(** X9: what [getNamespaceFromName] returns.  Called with an owner it
    returns the name and the owner as they are.  Called without one, its
    loop is never cut short (more iterations than the length of the name
    change nothing), and a name without separator is returned as it is,
    with no owner and no change to the scanner.  Whenever it returns, the
    name it leaves is the part of the qualified name behind its last
    separator, the separators being taken from left to right; that part
    holds no separator; an owner is returned exactly when the name holds
    a separator; and no registered name has been rebound. *)
Theorem getNamespaceFromName_splits_at_the_last_separator :
  forall (qualified : string) (s : PdbScanner),
    (forall outer : TypeId,
        getNamespaceFromName qualified (Some outer) s
        = Ret (qualified, Some outer) s)
    /\ (forall more : nat,
          getNamespaceFromName_loop (String.length qualified + more)
            qualified 0 None s
          = getNamespaceFromName qualified None s)
    /\ (StdString.contains qualified "::" = false ->
        getNamespaceFromName qualified None s = Ret (qualified, None) s)
    /\ forall (simple : string) (outerUDT : option TypeId) (s' : PdbScanner),
         getNamespaceFromName qualified None s = Ret (simple, outerUDT) s' ->
         simple = simpleName qualified
         /\ StdString.contains simple "::" = false
         /\ (exists qualifier : string, qualified = qualifier +:+ simple)
         /\ (is_Some outerUDT <-> StdString.contains qualified "::" = true)
         /\ registry_grows s s'.
Proof.
  intros qualified s. split; [reflexivity |].
  split.
  { intros more. unfold getNamespaceFromName.
    apply getNamespaceFromName_loop_enough. lia. }
  split.
  { unfold StdString.contains, getNamespaceFromName. intros Hnone.
    destruct (StdString.find qualified "::" 0) eqn:Efind; [discriminate |].
    unfold StdString.substr_from.
    destruct (String.length qualified) eqn:El; simpl; rewrite Efind;
      unfold StdString.substr_from, ret; rewrite Nat.sub_0_r;
      by rewrite StdStringFacts.substring_whole. }
  intros simple outerUDT s' Hrun.
  assert (registry_grows s s') as Hgrows.
  { refine (keeps_getNamespaceFromName registry_grows _ _ _ _ _ _ _ _ _ _
              qualified None s s' _ Hrun); registry_kept. }
  unfold getNamespaceFromName in Hrun.
  pose proof (getNamespaceFromName_loop_simpleName _ _ _ _ _ _ _ Hrun)
    as Hsimple.
  apply getNamespaceFromName_loop_result in Hrun
    as ((pos & _ & Hnone & Hpos) & Hdirect & Hmore).
  simpl in Hsimple, Hpos.
  split.
  { rewrite Hsimple. f_equal. unfold StdString.substr_from.
    rewrite Nat.sub_0_r. apply StdStringFacts.substring_whole. }
  split.
  { rewrite Hpos.
    unfold StdString.contains, StdString.find, StdString.substr_from.
    by rewrite (index_None_substring "::" qualified ltac:(discriminate) pos
                  Hnone). }
  split.
  { exists (String.substring 0 pos qualified). rewrite Hpos.
    apply substring_split. }
  split; [| exact Hgrows].
  unfold StdString.contains.
  destruct (StdString.find qualified "::" 0) eqn:Efind.
  - split; [done |]. intros _. apply Hmore. eauto.
  - destruct (Hdirect eq_refl) as [[= _ ->] _].
    split; [by intros [? ?] | discriminate].
Qed.

(** A scan in which the resolver takes a name apart: the class
    [Outer::Inner::Leaf] is created under the name [Leaf]. *)
Example getNamespaceFromName_of_Outer_Inner_Leaf :
  simpleName "Outer::Inner::Leaf" = "Leaf"
  /\ simpleName "A:::B" = ":B"
  /\ exists s',
       getNamespaceFromName "Outer::Inner::Leaf" None Samples.initialised
       = Ret ("Leaf", Some 36) s'.
Proof.
  split; [reflexivity |]. split; [reflexivity |].
  eexists. vm_compute. reflexivity.
Qed.

(** ** The batch of files *)

(** X10: scanning a batch of files is scanning its first part and then,
    if that succeeded, the rest, with the count of files going on: the
    scan of the rest starts in the state the first part left.  If the
    first part fails, the result is that failure and the rest is not
    looked at. *)
Theorem scanFiles_in_two_parts :
  forall (checkBlacklistedType : string -> bool)
         (before after : list PdbFile) (index : nat) (s : PdbScanner),
    scanFiles checkBlacklistedType index (before ++ after) s
    = match scanFiles checkBlacklistedType index before s with
      | Ret DDR_RC_OK s1 =>
          scanFiles checkBlacklistedType (index + length before) after s1
      | Ret DDR_RC_ERROR s1 => Ret DDR_RC_ERROR s1
      | Abort f => Abort f
      end.
Proof.
  intros checkBlacklistedType before after.
  induction before as [|file before IH]; intros index s; simpl.
  - by rewrite Nat.add_0_r.
  - unfold bind.
    destruct (scanFile checkBlacklistedType index file s) as [[|] s0|];
      [| reflexivity | reflexivity].
    rewrite IH. by rewrite Nat.add_succ_r.
Qed.

(** X11: no builder ever rebinds or removes a registered name.  Whatever
    the files declare and whether the scan of them succeeds or fails,
    every name that was registered before the scan of a batch of files
    is registered to the same object after it. *)
Theorem scanFiles_never_rebinds_a_name :
  forall (checkBlacklistedType : string -> bool) (debugFiles : list PdbFile)
         (index : nat) (s s' : PdbScanner) (rc : DDR_RC),
    scanFiles checkBlacklistedType index debugFiles s = Ret rc s' ->
    registry_grows s s'.
Proof.
  intros checkBlacklistedType debugFiles index s s' rc Hrun.
  refine (keeps_scanFiles registry_grows _ _ _ _ _ _ _ _ _ _ _
            checkBlacklistedType debugFiles index s s' rc Hrun);
    registry_kept.
Qed.

Lemma scanFiles_never_rebinds_a_name_witness :
  registry_grows Samples.initialised
    (Samples.stateAfter
       (scanFiles Samples.noBlacklist 0 [Scenarios.nFooFile]
          Samples.initialised)).
Proof.
  apply (scanFiles_never_rebinds_a_name Samples.noBlacklist
           [Scenarios.nFooFile] 0 Samples.initialised _ DDR_RC_OK).
  vm_compute. reflexivity.
Defined.

(** *** The references of a file *)

Section AfterTheFiles.
Variable R : PdbScanner -> PdbScanner -> Prop.
Hypothesis R_refl : forall s, R s s.
Hypothesis R_trans : forall s1 s2 s3, R s1 s2 -> R s2 s3 -> R s1 s3.
Hypothesis R_new : forall s t, R s (with_heap (fun h => h ++ [t]) s).
Hypothesis R_write : forall s t f, R s (with_heap (alter f t) s).
Hypothesis R_slots : forall s f, R s (with_slots f s).

Lemma kept_forEach {A} (body : A -> M unit) (l : list A) :
  (forall x, preserves R (body x)) -> preserves R (forEach body l).
Proof.
  intros Hbody. induction l as [|x l IH]; simpl.
  - by apply keeps_ret.
  - apply keeps_bind; [exact R_trans | apply Hbody | intros _; exact IH].
Qed.

Lemma kept_store_through (type : Slot) (t : option TypeId) :
  preserves R (store_through type t).
Proof.
  unfold store_through.
  apply keeps_bind; [exact R_trans | by apply keeps_gets | intros freed].
  assert (preserves R (store type t)) as Hstore
    by (intros s s' a [= _ <-]; apply R_slots).
  destruct (memberOf type) as [object|]; [| exact Hstore].
  destruct (bool_decide (object ∈ freed)); [apply keeps_abort | exact Hstore].
Qed.

Lemma kept_updatePostponedFieldNames : preserves R updatePostponedFieldNames.
Proof.
  unfold updatePostponedFieldNames.
  apply keeps_bind; [exact R_trans | by apply keeps_gets | intros postponed].
  apply keeps_bind; [exact R_trans | | intros _; by apply keeps_ret].
  apply kept_forEach. intros it. unfold updatePostponedField.
  apply keeps_bind; [exact R_trans | by apply keeps_gets | intros found].
  destruct found.
  - apply keeps_bind; [exact R_trans | by apply keeps_gets | intros t].
    apply kept_store_through.
  - apply keeps_bind; [exact R_trans | | intros t].
    + intros s s' a [= _ <-]. apply R_new.
    + apply kept_store_through.
Qed.

Lemma kept_renameOne (type : TypeId) (unnamedTypeCount : N) :
  preserves R (renameOne type unnamedTypeCount).
Proof.
  unfold renameOne.
  apply keeps_bind; [exact R_trans | by apply keeps_gets | intros t].
  destruct (isAnonymousName (_name t)); [| by apply keeps_ret].
  destruct (_ && _);
    (apply keeps_bind; [exact R_trans | | intros _; by apply keeps_ret]);
    intros s s' a [= _ <-]; apply R_write.
Qed.

Lemma kept_forEachCounting (body : TypeId -> N -> M N) (types : list TypeId) :
  (forall type count, preserves R (body type count)) ->
  forall count, preserves R (forEachCounting body types count).
Proof.
  intros Hbody. induction types as [|type rest IH]; intros count; simpl.
  - by apply keeps_ret.
  - apply keeps_bind; [exact R_trans | apply Hbody | intros count'; apply IH].
Qed.

Lemma kept_renameAnonymousType (depth : nat) :
  forall (type : TypeId) (unnamedTypeCount : N),
    preserves R (renameAnonymousType depth type unnamedTypeCount).
Proof.
  induction depth as [|depth IH]; intros type unnamedTypeCount; simpl;
    (apply keeps_bind; [exact R_trans | apply kept_renameOne | intros count]);
    (apply keeps_bind; [exact R_trans | by apply keeps_gets | intros t]);
    destruct (getSubUDTS t) as [subUDTs|]; try by apply keeps_ret.
  - destruct subUDTs; [by apply keeps_ret | by apply keeps_abort].
  - by apply kept_forEachCounting.
Qed.

Lemma kept_renameAnonymousTypes : preserves R renameAnonymousTypes.
Proof.
  unfold renameAnonymousTypes.
  apply keeps_bind; [exact R_trans | by apply keeps_gets | intros types].
  apply keeps_bind; [exact R_trans | by apply keeps_gets | intros depth].
  apply keeps_bind; [exact R_trans | | intros _; by apply keeps_ret].
  apply kept_forEachCounting. apply kept_renameAnonymousType.
Qed.

End AfterTheFiles.

Lemma scanFiles_releases (checkBlacklistedType : string -> bool)
    (debugFiles : list PdbFile) :
  forall (index : nat) (s s' : PdbScanner) (rc : DDR_RC),
    held s = [] ->
    scanFiles checkBlacklistedType index debugFiles s = Ret rc s' ->
    held s' = [].
Proof.
  induction debugFiles as [|file rest IH]; intros index s s' rc Hheld; simpl.
  - by intros [= _ <-].
  - intros (rc0 & s0 & Hfile & E)%bind_inv.
    apply scanFile_releases in Hfile. rewrite Hheld in Hfile.
    destruct rc0.
    + by apply (IH _ _ _ _ Hfile E).
    + by injection E as _ <-.
Qed.

(** X12: [startScan] holds none of the references of a file when it
    returns.  The data source, the session and the global scope that
    [loadDataFromPdb] obtained for a file are released before the next
    file is opened and on every way out of [startScan]: with success,
    with the error of [CoInitialize] or of the blacklist, or with the
    error of a file, be it one that could not be opened or one whose
    pass failed.  The references to the child symbols and to the type
    symbols, which the builders obtain, are not part of this
    statement. *)
Theorem startScan_releases_the_references_of_every_file :
  forall (checkBlacklistedType : string -> bool) (coInitialize : bool)
         (loadBlacklist : option DDR_RC) (debugFiles : list PdbFile)
         (s s' : PdbScanner) (rc : DDR_RC),
    held s = [] ->
    startScan checkBlacklistedType coInitialize loadBlacklist debugFiles s
    = Ret rc s' ->
    held s' = [].
Proof.
  intros checkBlacklistedType coInitialize loadBlacklist debugFiles s s' rc
    Hheld.
  unfold startScan.
  intros (u & s0 & Hinit & E)%bind_inv.
  assert (held s0 = []) as Hheld0.
  { rewrite initBaseTypeList_forEach in Hinit.
    destruct (forEach_initBaseType baseTypeNames s)
      as (s0' & Hrun & _ & _ & _ & _ & _ & _ & _ & Hsame).
    rewrite Hrun in Hinit. injection Hinit as <-. congruence. }
  clear Hinit Hheld.
  match type of E with
  | bind (whenOK ?rc _) _ _ = _ => revert E; generalize rc; intros rc0 E
  end.
  apply bind_inv in E as (rc1 & s1 & E1 & E).
  assert (held s1 = []) as Hheld1.
  { destruct rc0; simpl in E1.
    - by apply (scanFiles_releases _ _ _ _ _ _ Hheld0 E1).
    - by injection E1 as _ <-. }
  apply bind_inv in E as (rc2 & s2 & E2 & E).
  assert (held s2 = []) as Hheld2.
  { destruct rc1; simpl in E2.
    - rewrite <- Hheld1.
      by refine (kept_updatePostponedFieldNames held_same _ _ _ _
                   s1 s2 rc2 E2); unfold held_same; try done;
        intros; congruence.
    - by injection E2 as _ <-. }
  apply bind_inv in E as (u3 & s3 & E3 & E).
  injection E as _ <-.
  destruct rc2.
  - rewrite <- Hheld2.
    by refine (kept_renameAnonymousTypes held_same _ _ _
                 s2 s3 u3 E3); unfold held_same; try done;
      intros; congruence.
  - by injection E3 as _ <-.
Qed.

Lemma startScan_releases_the_references_of_every_file_witness :
  held emptyScanner = []
  /\ held (Samples.stateAfter
             (startScan Samples.noBlacklist true None
                [Scenarios.lateFile; Samples.unreadable] emptyScanner)) = [].
Proof.
  split; [reflexivity |].
  apply (startScan_releases_the_references_of_every_file Samples.noBlacklist true None
           [Scenarios.lateFile; Samples.unreadable] emptyScanner _
           DDR_RC_ERROR); [reflexivity |].
  vm_compute. reflexivity.
Defined.

(** ** The size of a typedef *)

Lemma heap_grows_refl (s : PdbScanner) : heap_grows s s.
Proof. unfold heap_grows. lia. Qed.

Lemma heap_grows_trans (s1 s2 s3 : PdbScanner) :
  heap_grows s1 s2 -> heap_grows s2 s3 -> heap_grows s1 s3.
Proof. unfold heap_grows. lia. Qed.

(** What the relations of the scan need to be kept by every builder, for
    the size of the heap. *)
Ltac heap_kept :=
  try apply heap_grows_refl; try apply heap_grows_trans;
  try (intros; unfold heap_grows; simpl;
       rewrite ?length_app, ?length_alter; simpl; lia).

Lemma scan_heap_grows (checkBlacklistedType : string -> bool)
    (symbol : IDiaSymbol) :
  scan_preserves heap_grows (scan checkBlacklistedType symbol).
Proof. apply keeps_scan; heap_kept. Qed.

Lemma setType_heap_grows (checkBlacklistedType : string -> bool)
    (symbol : IDiaSymbol) (type : Slot) (modifiers : Modifiers)
    (outerUDT : option TypeId) :
  preserves heap_grows
    (setType (data symbol)
       (option_map (handle checkBlacklistedType) (get_type symbol))
       type modifiers outerUDT).
Proof.
  apply keeps_setType; heap_kept.
  intros h Hh. destruct (get_type symbol) as [t|]; [| discriminate].
  injection Hh as <-. apply scan_heap_grows.
Qed.

Lemma addType_frame (type : TypeId) (addToIR : bool) (s s' : PdbScanner)
    (u : unit) :
  addType type addToIR s = Ret u s' ->
  heap s' = heap s /\ slots s' = slots s /\ deleted s' = deleted s
  /\ fieldHeap s' = fieldHeap s.
Proof.
  intros (fullName & _ & ->)%addType_inv.
  destruct (_typeMap s !! _); [done |].
  destruct (StdString.empty _); [done |]. by destruct addToIR.
Qed.

(** X13: when [createTypedef] builds a typedef (its name and the name of
    its declared type are read and not blacklisted) and returns success,
    the aliased type of the new typedef is bound and the size of the
    typedef is the size of that type, as the heap has it when the call
    returns.  When it returns an error, the new typedef is the object
    deleted last. *)
Theorem createTypedef_copies_the_size_of_the_aliased_type :
  forall (checkBlacklistedType : string -> bool) (symbol : IDiaSymbol)
         (outerNamespace : option TypeId) (s s' : PdbScanner) (rc : DDR_RC)
         (typedefName baseName : string) (declared : IDiaSymbol)
         (symTag : SymTagEnum),
    getName (data symbol) = (DDR_RC_OK, typedefName) ->
    checkBlacklistedType typedefName = false ->
    declaredType symbol = Some (declared, symTag) ->
    declaredTypeName declared symTag = (DDR_RC_OK, baseName) ->
    checkBlacklistedType baseName = false ->
    createTypedef_of checkBlacklistedType symbol outerNamespace s
    = Ret rc s' ->
    let newTypedef := length (heap s) in
    newTypedef < length (heap s')
    /\ match rc with
       | DDR_RC_OK =>
           exists aliasedType : TypeId,
             slots s' (aliasedType_of newTypedef) = Some aliasedType
             /\ _sizeOf (at_ (heap s') newTypedef)
                = _sizeOf (at_ (heap s') aliasedType)
       | DDR_RC_ERROR => last (deleted s') = Some newTypedef
       end.
Proof.
  intros checkBlacklistedType symbol outerNamespace s s' rc typedefName
    baseName declared symTag Hname Hlisted Hdeclared HbaseName HbaseListed.
  unfold createTypedef_of, createTypedef.
  rewrite Hname, Hlisted.
  rewrite (typedefBaseSymbol_declaredType symbol SymTagNull eq_refl),
    Hdeclared.
  unfold declaredTypeName in HbaseName. rewrite HbaseName.
  unfold whenOK. rewrite HbaseListed.
  intros (newTypedef & s1 & Hnew & E)%bind_inv.
  injection Hnew as <- <-.
  apply bind_inv in E as (u2 & s2 & Hstore & E). injection Hstore as _ <-.
  apply bind_inv in E as (u3 & s3 & Hlink & E).
  assert (length (heap s) < length (heap s3)) as Hlen3.
  { destruct outerNamespace; injection Hlink as _ <-; simpl;
      rewrite ?length_alter, length_app; simpl; lia. }
  clear Hlink.
  apply bind_inv in E as ([rc' modifiers] & s4 & HsetType & E).
  apply setType_heap_grows in HsetType. unfold heap_grows in HsetType.
  apply bind_inv in E as (u5 & s5 & Hwrite & E). injection Hwrite as _ <-.
  destruct rc'.
  - apply bind_inv in E as (aliasedType & s6 & Hload & E).
    injection Hload as <- <-.
    destruct (slots s4 (aliasedType_of (length (heap s))))
      as [aliasedType|] eqn:Hslot; [| discriminate].
    simpl in E.
    apply bind_inv in E as (size & s7 & Hread & E).
    injection Hread as <- <-.
    apply bind_inv in E as (u8 & s8 & Hsize & E). injection Hsize as _ <-.
    apply bind_inv in E as (u9 & s9 & Hadd & E). injection E as <- <-.
    apply addType_frame in Hadd as (Hheap & Hslots & _).
    cbv zeta. rewrite Hheap, Hslots. simpl.
    rewrite !length_alter.
    split; [lia |].
    exists aliasedType. split; [exact Hslot |].
    set (h := alter (set_modifiers modifiers) (length (heap s)) (heap s4)).
    assert (length (heap s) < length h) as Hin
      by (subst h; rewrite length_alter; lia).
    destruct (decide (aliasedType = length (heap s))) as [-> | Hne];
      [reflexivity |].
    rewrite at_alter_eq by exact Hin.
    rewrite !(at_alter_ne _ _ (length (heap s)) aliasedType) by congruence.
    reflexivity.
  - apply bind_inv in E as (u6 & s6 & Hdelete & E).
    injection Hdelete as _ <-. injection E as <- <-.
    cbv zeta. simpl. rewrite length_alter, last_snoc. split; [lia | done].
Qed.

Lemma createTypedef_copies_the_size_of_the_aliased_type_witness :
  let s' := Samples.stateAfter
              (createTypedef_of Samples.noBlacklist
                 MoreScenarios.typedefOfU32 None Samples.initialised) in
  length (heap Samples.initialised) < length (heap s')
  /\ exists aliasedType : TypeId,
       slots s' (aliasedType_of (length (heap Samples.initialised)))
       = Some aliasedType
       /\ _sizeOf (at_ (heap s') (length (heap Samples.initialised)))
          = _sizeOf (at_ (heap s') aliasedType).
Proof.
  apply (createTypedef_copies_the_size_of_the_aliased_type
           Samples.noBlacklist MoreScenarios.typedefOfU32 None
           Samples.initialised _ DDR_RC_OK "U32_t" ""
           (Samples.baseType btUInt 4) SymTagBaseType).
  - vm_compute. reflexivity.
  - reflexivity.
  - vm_compute. reflexivity.
  - reflexivity.
  - reflexivity.
  - vm_compute. reflexivity.
Defined.

(** ** The modifiers of a declared type *)

Lemma setTypeModifier_counts (symbol : SymbolData) (modifiers : Modifiers) :
  _pointerCount (setTypeModifier symbol modifiers).2 = _pointerCount modifiers
  /\ _referenceCount (setTypeModifier symbol modifiers).2
     = _referenceCount modifiers
  /\ _arrayLengths (setTypeModifier symbol modifiers).2
     = _arrayLengths modifiers.
Proof.
  unfold setTypeModifier.
  destruct (get_constType symbol) as [[|]|];
    destruct (get_volatileType symbol) as [[|]|];
    destruct (get_unalignedType symbol) as [[|]|]; done.
Qed.

Lemma typeLevels_unfold (symbol : IDiaSymbol) :
  typeLevels symbol
  = match get_type symbol with
    | None => []
    | Some typeSymbol =>
        match get_symTag (data typeSymbol) with
        | Some SymTagArrayType =>
            match get_count (data typeSymbol) with
            | Some size => ArrayLevel size :: typeLevels typeSymbol
            | None => []
            end
        | Some SymTagPointerType =>
            match get_reference (data symbol) with
            | Some true => ReferenceLevel :: typeLevels typeSymbol
            | Some false => PointerLevel :: typeLevels typeSymbol
            | None => []
            end
        | _ => []
        end
    end.
Proof. by destruct symbol. Qed.

(** X14: when [setType] succeeds for a symbol, the modifiers it leaves
    have one array dimension more for every array level between the
    symbol and its declared type, appended outermost first, and the
    pointer and reference counts raised by the number of pointer levels:
    a pointer level counts as a reference when [get_reference] says so
    for the symbol whose type the pointer is. *)
Theorem setType_counts_the_levels :
  forall (checkBlacklistedType : string -> bool) (symbol : IDiaSymbol)
         (type : Slot) (modifiers modifiers' : Modifiers)
         (outerUDT : option TypeId) (s s' : PdbScanner),
    scan_setType (scan checkBlacklistedType symbol) type modifiers outerUDT s
    = Ret (DDR_RC_OK, modifiers') s' ->
    _arrayLengths modifiers'
    = _arrayLengths modifiers ++ dimensions (typeLevels symbol)
    /\ _pointerCount modifiers'
       = (_pointerCount modifiers + pointerLevels (typeLevels symbol))%N
    /\ _referenceCount modifiers'
       = (_referenceCount modifiers + referenceLevels (typeLevels symbol))%N.
Proof.
  intros checkBlacklistedType symbol.
  induction symbol as [d ty children IHty _] using IDiaSymbol_tree_ind.
  intros type modifiers modifiers' outerUDT s s'.
  rewrite typeLevels_unfold. simpl.
  destruct ty as [typeSymbol|]; [| discriminate].
  specialize (IHty typeSymbol eq_refl).
  unfold setType, data_of. simpl.
  destruct (setTypeModifier_counts (data typeSymbol) modifiers)
    as (Hp & Hr & Ha).
  destruct (setTypeModifier (data typeSymbol) modifiers) as [rc0 m0].
  simpl in Hp, Hr, Ha.
  destruct rc0; [| discriminate].
  destruct (get_symTag (data typeSymbol)) as [symTag|]; [| discriminate].
  assert (forall m : M DDR_RC,
             (let* rc := m in ret (rc, m0)) s = Ret (DDR_RC_OK, modifiers') s' ->
             modifiers' = m0) as Hleaf.
  { intros m (rc & s1 & _ & [= _ <- _])%bind_inv. reflexivity. }
  destruct symTag; try discriminate; simpl.
  - (* UDT *)
    intros ->%Hleaf. rewrite Hp, Hr, Ha, app_nil_r. split; [done |]. lia.
  - (* enum *)
    intros ->%Hleaf. rewrite Hp, Hr, Ha, app_nil_r. split; [done |]. lia.
  - (* function type *)
    intros (t & s1 & _ & (u & s2 & _ & [= <- _])%bind_inv)%bind_inv.
    rewrite Hp, Hr, Ha, app_nil_r. split; [done |]. lia.
  - (* pointer *)
    unfold setPointerType.
    destruct (get_reference d) as [[|]|]; [| | discriminate];
      intros (Ha' & Hp' & Hr')%IHty; simpl in *;
      rewrite Ha', Hp', Hr', Hp, Hr, Ha; (split; [done |]); lia.
  - (* array *)
    destruct (get_count (data typeSymbol)) as [size|]; [| discriminate].
    intros (Ha' & Hp' & Hr')%IHty. simpl in *.
    rewrite Ha', Hp', Hr', Hp, Hr, Ha, <- app_assoc. split; [done |]. lia.
  - (* base type *)
    intros ->%Hleaf. rewrite Hp, Hr, Ha, app_nil_r. split; [done |]. lia.
Qed.

Lemma setType_counts_the_levels_witness :
  exists (modifiers' : Modifiers) (s' : PdbScanner),
    scan_setType (scan Samples.noBlacklist MoreScenarios.matrixOfPointers)
      (fieldType_of 0) noModifiers None Samples.initialised
    = Ret (DDR_RC_OK, modifiers') s'
    /\ _arrayLengths modifiers' = [3; 4]%N
    /\ _pointerCount modifiers' = 1%N
    /\ _referenceCount modifiers' = 0%N.
Proof.
  eexists _, _. split; [vm_compute; reflexivity |].
  apply (setType_counts_the_levels Samples.noBlacklist
           MoreScenarios.matrixOfPointers (fieldType_of 0) noModifiers _ None
           Samples.initialised
           (Samples.stateAfter
              (scan_setType
                 (scan Samples.noBlacklist MoreScenarios.matrixOfPointers)
                 (fieldType_of 0) noModifiers None Samples.initialised))).
  vm_compute. reflexivity.
Defined.

(** ** What fails the scan of a file *)

Lemma filter_handles (checkBlacklistedType : string -> bool)
    (symTag : SymTagEnum) (symbols : list IDiaSymbol) :
  filter (fun c : Handle => matchesTag symTag (data_of c))
    (map (handle checkBlacklistedType) symbols)
  = map (handle checkBlacklistedType)
      (filter (fun c => matchesTag symTag (data c)) symbols).
Proof.
  induction symbols as [|c rest IH]; [reflexivity |].
  rewrite fmap_cons, !filter_cons. unfold data_of at 1. simpl.
  destruct (decide (matchesTag symTag (data c))); simpl;
    [f_equal |]; exact IH.
Qed.

(** The first loop, for a pass with no owner: every child goes to the
    dispatcher, nothing is set aside, and what the dispatcher returns is
    not looked at. *)
Lemma addChildrenSymbols_outer_no_owner (checkBlacklistedType : string -> bool)
    (symbols : list IDiaSymbol) :
  forall (flags : ChildFlags) (inner : list Handle) (s s' : PdbScanner)
         (rc : DDR_RC) (inner' : list Handle),
    addChildrenSymbols_outer (map (handle checkBlacklistedType) symbols) None
      flags inner s = Ret (rc, inner') s' ->
    inner' = inner
    /\ rc = if forallb (fun c => readableDeclaration (data c)) symbols
            then DDR_RC_OK else DDR_RC_ERROR.
Proof.
  induction symbols as [|c rest IH]; intros flags inner s s' rc inner'; simpl.
  - by intros [= <- <- _].
  - unfold data_of at 1. simpl. unfold readableDeclaration at 1.
    destruct (get_symTag (data c)) as [symTag|]; [| by intros [= <- <- _]].
    unfold data_of at 1. simpl.
    destruct (bool_decide (symTag = SymTagEnum_)
              || bool_decide (symTag = SymTagUDT)).
    + destruct (getName (data c)) as [[|] udtName]; simpl;
        [| by intros [= <- <- _]].
      intros (flags' & s1 & _ & E)%bind_inv.
      apply bind_inv in E as (u & s2 & _ & E).
      by apply IH in E.
    + simpl.
      intros (flags' & s1 & _ & E)%bind_inv.
      apply bind_inv in E as (u & s2 & _ & E).
      by apply IH in E.
Qed.

Lemma addChildrenSymbols_of_no_owner (checkBlacklistedType : string -> bool)
    (symbol : IDiaSymbol) (symTag : SymTagEnum) (s s' : PdbScanner)
    (rc : DDR_RC) :
  addChildrenSymbols_of checkBlacklistedType symbol symTag None s = Ret rc s' ->
  rc = if passSucceeds symbol symTag then DDR_RC_OK else DDR_RC_ERROR.
Proof.
  unfold addChildrenSymbols_of, addChildrenSymbols, passSucceeds.
  rewrite filter_handles.
  set (childSymbols := filter _ (children symbol)).
  assert ((let* alreadyHadSubtypes := ret false in
           let* (rc, innerTypeSymbols) :=
             addChildrenSymbols_outer
               (map (handle checkBlacklistedType) childSymbols) None
               {| alreadyHadFields := false; alreadyCheckedFields := false;
                  alreadyHadSubtypes := alreadyHadSubtypes |} [] in
           whenOK rc (addChildrenSymbols_inner innerTypeSymbols)) s
          = Ret rc s' ->
          rc = if forallb (fun c => readableDeclaration (data c)) childSymbols
               then DDR_RC_OK else DDR_RC_ERROR) as Hloops.
  { intros (b & s0 & _ & E)%bind_inv.
    apply bind_inv in E as ([rc1 inner] & s1 & Houter & E).
    apply addChildrenSymbols_outer_no_owner in Houter as [-> ->].
    destruct (forallb _ childSymbols); simpl in E; by injection E as <- _. }
  destruct (enumeration (data symbol)); try by intros [= <- _].
  - destruct childSymbols; [exact Hloops | by intros [= <- _]].
  - exact Hloops.
Qed.

(** X15: what makes the scan of one file return an error.  The scan of a
    file, when it returns, returns an error exactly when the file cannot
    be opened, when the children of the global scope cannot be
    enumerated, or when the tag of a child at the top level, or the name
    of a class or an enum there, cannot be read.  No error that arises while a declaration is built
    (an unreadable size, member, type or nested declaration, an unknown
    tag or width) makes the scan of the file fail. *)
Theorem scanFile_fails_only_on_unreadable_declarations :
  forall (checkBlacklistedType : string -> bool) (index : nat)
         (file : PdbFile) (s s' : PdbScanner) (rc : DDR_RC),
    scanFile checkBlacklistedType index file s = Ret rc s' ->
    rc = if fileSucceeds file then DDR_RC_OK else DDR_RC_ERROR.
Proof.
  intros checkBlacklistedType index file s s' rc. unfold scanFile, fileSucceeds.
  intros ([rc0 diaSymbol] & s0 & Hload & E)%bind_inv.
  assert (rc0 = (if createDataSource file && loadData file && openSession file
                    && bool_decide (is_Some (get_globalScope file))
                 then DDR_RC_OK else DDR_RC_ERROR)
          /\ (rc0 = DDR_RC_OK -> diaSymbol = get_globalScope file))
    as [Hrc0 Hsymbol].
  { revert Hload. unfold loadDataFromPdb, hold, modify, bind, ret.
    destruct (createDataSource file); simpl; [| by intros [= <- <- _]].
    destruct (loadData file); simpl; [| by intros [= <- <- _]].
    destruct (openSession file); simpl; [| by intros [= <- <- _]].
    destruct (get_globalScope file); simpl; by intros [= <- <- _]. }
  apply bind_inv in E as (rc1 & s1 & E1 & E).
  apply bind_inv in E as (rc2 & s2 & E2 & E).
  apply bind_inv in E as (rc3 & s3 & E3 & E).
  apply bind_inv in E as (u & s4 & _ & E). injection E as <- _.
  destruct (createDataSource file && loadData file && openSession file);
    simpl in *.
  2: { subst rc0. simpl in *. injection E1 as <- _. simpl in *.
       injection E2 as <- _. simpl in *. by injection E3 as <- _. }
  destruct (get_globalScope file) as [g|]; simpl in *.
  2: { subst rc0. simpl in *. injection E1 as <- _. simpl in *.
       injection E2 as <- _. simpl in *. by injection E3 as <- _. }
  subst rc0. rewrite (Hsymbol eq_refl) in *. simpl in *.
  apply addChildrenSymbols_of_no_owner in E1. subst rc1.
  destruct (passSucceeds g SymTagUDT); simpl in *.
  2: { injection E2 as <- _. simpl in *. by injection E3 as <- _. }
  apply addChildrenSymbols_of_no_owner in E2. subst rc2.
  destruct (passSucceeds g SymTagEnum_); simpl in *.
  2: { by injection E3 as <- _. }
  by apply addChildrenSymbols_of_no_owner in E3.
Qed.

Lemma scanFile_fails_only_on_unreadable_declarations_witness :
  let s' := Samples.stateAfter
              (scanFile Samples.noBlacklist 0 Scenarios.brokenFile
                 Samples.initialised) in
  scanFile Samples.noBlacklist 0 Scenarios.brokenFile Samples.initialised
  = Ret DDR_RC_OK s'
  /\ DDR_RC_OK = if fileSucceeds Scenarios.brokenFile
                 then DDR_RC_OK else DDR_RC_ERROR.
Proof.
  intros s'.
  assert (scanFile Samples.noBlacklist 0 Scenarios.brokenFile
            Samples.initialised = Ret DDR_RC_OK s') as Hrun
    by (vm_compute; reflexivity).
  split; [exact Hrun |].
  exact (scanFile_fails_only_on_unreadable_declarations Samples.noBlacklist
           0 Scenarios.brokenFile Samples.initialised s' DDR_RC_OK Hrun).
Defined.

(** ** An enum that is declared again *)

Lemma alter_outside {A} (f : A -> A) (l : list A) :
  forall i, length l <= i -> alter f i l = l.
Proof.
  induction l as [|x l IH]; intros i Hi; [reflexivity |].
  destruct i as [|i]; simpl in *; [lia |]. f_equal. apply IH. lia.
Qed.

Lemma substr_from_0 (n : string) : StdString.substr_from n 0 = n.
Proof.
  unfold StdString.substr_from. rewrite Nat.sub_0_r.
  apply StdStringFacts.substring_whole.
Qed.

(** A name without separator goes through the resolver as it is. *)
Lemma getNamespaceFromName_unqualified (n : string) (s : PdbScanner) :
  StdString.contains n "::" = false ->
  getNamespaceFromName n None s = Ret (n, None) s.
Proof.
  unfold StdString.contains, getNamespaceFromName. intros Hn.
  destruct (StdString.find n "::" 0) eqn:Efind; [discriminate |].
  destruct (String.length n); simpl; rewrite Efind;
    by rewrite substr_from_0.
Qed.

Lemma addEnumMembers_run (symbol : IDiaSymbol) (enumUDT : TypeId)
    (s : PdbScanner) :
  addEnumMembers symbol enumUDT s
  = match enumeration (data symbol) with
    | findChildren_FAILED => Ret DDR_RC_ERROR s
    | Next_FAILED => Ret DDR_RC_OK s
    | get_Count_FAILED | Enumerated =>
        Ret (if namesReadable (map data (children symbol))
             then DDR_RC_OK else DDR_RC_ERROR)
          (with_heap
             (alter (push_enumMembers
                       (readableNames (map data (children symbol))))
                enumUDT) s)
    end.
Proof.
  unfold addEnumMembers.
  destruct (enumeration (data symbol)); try reflexivity;
    apply addEnumMembers_loop_run.
Qed.

(** Reading the members of a symbol into an enum that has none after
    they were read into it once changes nothing. *)
Lemma addEnumMembers_again (symbol : IDiaSymbol) (enumUDT : TypeId)
    (s s1 : PdbScanner) :
  addEnumMembers symbol enumUDT s = Ret DDR_RC_OK s1 ->
  _enumMembers (at_ (heap s1) enumUDT) = [] ->
  addEnumMembers symbol enumUDT s1 = Ret DDR_RC_OK s1.
Proof.
  rewrite !addEnumMembers_run.
  assert (forall rc : DDR_RC,
             Ret (A := DDR_RC) rc
               (with_heap
                  (alter (push_enumMembers
                            (readableNames (map data (children symbol))))
                     enumUDT) s) = Ret DDR_RC_OK s1 ->
             _enumMembers (at_ (heap s1) enumUDT) = [] ->
             Ret (A := DDR_RC) rc
               (with_heap
                  (alter (push_enumMembers
                            (readableNames (map data (children symbol))))
                     enumUDT) s1) = Ret DDR_RC_OK s1) as Hloop.
  { intros rc [= -> <-] Hmembers. f_equal.
    destruct (decide (enumUDT < length (heap s))) as [Hin | Hout].
    - simpl in Hmembers. rewrite at_alter_eq in Hmembers by done.
      destruct (push_enumMembers_spec
                  (readableNames (map data (children symbol)))
                  (at_ (heap s) enumUDT)) as [Hnames _].
      rewrite Hnames in Hmembers. apply app_eq_nil in Hmembers as [_ ->].
      destruct s. unfold with_heap. simpl. f_equal.
      by rewrite !list_alter_id.
    - destruct s. unfold with_heap. simpl in *. f_equal.
      rewrite !alter_outside; [done | lia |].
      rewrite length_alter. lia. }
  destruct (enumeration (data symbol)); try done; apply Hloop.
Qed.

Lemma push_no_enumMembers (t : TypeId) (s : PdbScanner) :
  with_heap (alter (push_enumMembers []) t) s = s.
Proof.
  destruct s. unfold with_heap. simpl. f_equal. by apply list_alter_id.
Qed.

(** What a successful reading of the members pushed, and that reading
    them again pushes nothing when there were none. *)
Lemma addEnumMembers_pushed (symbol : IDiaSymbol) (enumUDT : TypeId)
    (s s' : PdbScanner) :
  addEnumMembers symbol enumUDT s = Ret DDR_RC_OK s' ->
  exists pushed : list string,
    s' = with_heap (alter (push_enumMembers pushed) enumUDT) s
    /\ (pushed = [] ->
        forall s0, addEnumMembers symbol enumUDT s0 = Ret DDR_RC_OK s0).
Proof.
  rewrite addEnumMembers_run.
  destruct (enumeration (data symbol)) eqn:Eenum; try discriminate.
  - destruct (namesReadable _) eqn:Eread; [| discriminate].
    intros [= <-]. eexists. split; [reflexivity |].
    intros Hnone s0. rewrite addEnumMembers_run, Eenum, Eread, Hnone.
    by rewrite push_no_enumMembers.
  - intros [= <-]. exists []. split; [by rewrite push_no_enumMembers |].
    intros _ s0. by rewrite addEnumMembers_run, Eenum.
  - destruct (namesReadable _) eqn:Eread; [| discriminate].
    intros [= <-]. eexists. split; [reflexivity |].
    intros Hnone s0. rewrite addEnumMembers_run, Eenum, Eread, Hnone.
    by rewrite push_no_enumMembers.
Qed.

Lemma getFullName_from_no_owner (steps : nat) (h : list Type_) (t : TypeId) :
  _outerNamespace (at_ h t) = None ->
  getFullName_from steps h t = Some (_name (at_ h t)).
Proof. intros H. destruct steps; simpl; by rewrite ?H. Qed.

(** X16: an enum that is declared again is not built again.  For an enum
    at the top level whose name is read, is not empty, holds no
    separator and is not the anonymous tag: once a declaration of it has
    returned success, the same declaration changes nothing, whether the
    first one created the enum or found its name registered.  Its members
    are not read a second time unless it has none. *)
Theorem createEnumUDT_second_declaration_changes_nothing :
  forall (checkBlacklistedType : string -> bool) (symbol : IDiaSymbol)
         (s s1 : PdbScanner) (n : string),
    getName (data symbol) = (DDR_RC_OK, n) ->
    n <> "" -> n <> "<unnamed-tag>" ->
    StdString.contains n "::" = false ->
    createEnumUDT checkBlacklistedType symbol None s = Ret DDR_RC_OK s1 ->
    createEnumUDT checkBlacklistedType symbol None s1 = Ret DDR_RC_OK s1.
Proof.
  intros checkBlacklistedType symbol s s1 n Hname Hne Htag Hsep.
  unfold createEnumUDT. rewrite Hname.
  destruct (get_symTag (data symbol)) as [symTag|]; [| discriminate].
  destruct (negb (bool_decide (symTag = SymTagEnum_))); [discriminate |].
  unfold whenOK.
  destruct (checkBlacklistedType n); [by intros [= <-] |].
  destruct (getSize (data symbol)) as [[|] size]; [| discriminate].
  unfold qualifiedBy.
  assert (StdString.empty n = false) as Hempty by (by destruct n).
  assert (bool_decide (n = "<unnamed-tag>") = false) as Hanonymous
    by (by apply bool_decide_eq_false).
  assert (forall (s0 : PdbScanner) (e : TypeId),
             _typeMap s0 !! n = Some e ->
             (let* registered := getType n in
              deref registered
                (fun enumUDT =>
                   let* owner := read enumUDT _outerNamespace in
                   let* _ := match owner, @None TypeId with
                             | None, Some outer =>
                                 let* _ := write enumUDT
                                             (set_outerNamespace None) in
                                 write outer (push_subUDT enumUDT)
                             | _, _ => ret tt
                             end in
                   let* members := read enumUDT _enumMembers in
                   match members with
                   | [] => addEnumMembers symbol enumUDT
                   | _ :: _ => ret DDR_RC_OK
                   end)) s0
             = match _enumMembers (at_ (heap s0) e) with
               | [] => addEnumMembers symbol e s0
               | _ :: _ => Ret DDR_RC_OK s0
               end) as Hmerge.
  { intros s0 e He. unfold bind at 1. rewrite (getType_spec n s0 Hne), He.
    simpl. unfold bind, read, gets, ret.
    destruct (_outerNamespace (at_ (heap s0) e));
      by destruct (_enumMembers (at_ (heap s0) e)). }
  unfold bind at 1 2. unfold ret at 1. rewrite isRegistered_spec.
  intros Hfirst.
  unfold bind at 1 2. unfold ret at 1. rewrite isRegistered_spec.
  rewrite Hempty, Hanonymous in *. simpl in *.
  destruct (_typeMap s !! n) as [e|] eqn:Efound; simpl in Hfirst.
  - (* the name was registered before the first declaration *)
    rewrite (Hmerge s e Efound) in Hfirst.
    assert (_typeMap s1 = _typeMap s) as Hmap.
    { destruct (_enumMembers (at_ (heap s) e)).
      - rewrite addEnumMembers_run in Hfirst.
        destruct (enumeration (data symbol)); try discriminate;
          first [injection Hfirst as _ <- | injection Hfirst as <-]; done.
      - by injection Hfirst as <-. }
    rewrite Hmap, Efound. simpl. rewrite (Hmerge s1 e) by congruence.
    destruct (_enumMembers (at_ (heap s) e)) as [|m members] eqn:Emembers.
    + destruct (_enumMembers (at_ (heap s1) e)) eqn:Emembers1; [| done].
      by apply (addEnumMembers_again symbol e s s1).
    + injection Hfirst as <-. by rewrite Emembers.
  - (* the first declaration created the enum *)
    rewrite (bind_Ret _ _ s s (n, None)) in Hfirst
      by (by apply getNamespaceFromName_unqualified).
    simpl in Hfirst.
    apply bind_inv in Hfirst as (e & sa & Hnew & Hfirst).
    injection Hnew as <- <-.
    apply bind_inv in Hfirst as (rc & sb & Hmembers & Hfirst).
    destruct rc.
    2: { apply bind_inv in Hfirst as (u & sc & _ & Hfirst). discriminate. }
    apply addEnumMembers_pushed in Hmembers as (pushed & -> & Hagain).
    apply bind_inv in Hfirst as (u1 & sc & Hw & Hfirst). injection Hw as _ <-.
    apply bind_inv in Hfirst as (u2 & sd & Hr & Hfirst). injection Hr as _ <-.
    apply bind_inv in Hfirst as (u3 & se & Hadd & Hfirst).
    injection Hfirst as <-.
    set (node := set_name n (newType EnumUDT 0)) in *.
    match type of Hadd with
    | addType _ _ ?s0 = _ => set (h := heap s0) in *
    end.
    cbn [heap with_heap] in h.
    assert (at_ h (length (heap s))
            = set_outerNamespace None (push_enumMembers pushed node)) as Hat.
    { subst h. rewrite !at_alter_eq.
      - unfold at_. by rewrite list_lookup_total_middle.
      - rewrite length_app. simpl. lia.
      - rewrite length_alter, length_app. simpl. lia. }
    assert (getFullName_from (length h) h (length (heap s)) = Some n)
      as Hfull.
    { rewrite getFullName_from_no_owner by (by rewrite Hat).
      rewrite Hat. simpl.
      by destruct (push_enumMembers_spec pushed node) as (_ & _ & -> & _). }
    rewrite (addType_run _ _ _ n) in Hadd by exact Hfull.
    cbn [heap with_heap _typeMap] in Hadd.
    rewrite Efound, Hempty in Hadd. injection Hadd as Hse.
    subst se.
    simpl. rewrite lookup_insert_eq. simpl.
    rewrite (Hmerge _ (length (heap s))) by (simpl; by rewrite lookup_insert_eq).
    simpl. fold h. rewrite Hat. simpl.
    destruct (push_enumMembers_spec pushed node) as (-> & _).
    simpl. destruct pushed; [by apply Hagain | reflexivity].
Qed.

Lemma createEnumUDT_second_declaration_changes_nothing_witness :
  let s1 := Samples.stateAfter
              (createEnumUDT Samples.noBlacklist MoreScenarios.colorEnum None
                 Samples.initialised) in
  createEnumUDT Samples.noBlacklist MoreScenarios.colorEnum None
    Samples.initialised = Ret DDR_RC_OK s1
  /\ createEnumUDT Samples.noBlacklist MoreScenarios.colorEnum None s1
     = Ret DDR_RC_OK s1
  /\ _enumMembers (at_ (heap s1) 35) = ["Red"; "Green"].
Proof.
  intros s1.
  assert (createEnumUDT Samples.noBlacklist MoreScenarios.colorEnum None
            Samples.initialised = Ret DDR_RC_OK s1) as Hrun
    by (vm_compute; reflexivity).
  split; [exact Hrun |].
  split; [| vm_compute; reflexivity].
  apply (createEnumUDT_second_declaration_changes_nothing Samples.noBlacklist
           MoreScenarios.colorEnum Samples.initialised s1 "Color").
  - vm_compute. reflexivity.
  - discriminate.
  - discriminate.
  - vm_compute. reflexivity.
  - exact Hrun.
Defined.

(** ** What every builder does to the objects

    The builders write to an object in seven ways only: they set its
    owner, its size or its modifiers, blank its name, or push a child, a
    field or an enum member, and they only ever append to the list of
    postponed references.  A relation between the state before and the
    state after that all of these respect is respected by every builder,
    at every symbol. *)

Section Growth.
Variable R : PdbScanner -> PdbScanner -> Prop.
Variable W : (Type_ -> Type_) -> Prop.
Hypothesis R_refl : forall s, R s s.
Hypothesis R_trans : forall s1 s2 s3, R s1 s2 -> R s2 s3 -> R s1 s3.
Hypothesis R_new : forall s t, R s (with_heap (fun h => h ++ [t]) s).
Hypothesis R_write : forall s t f, W f -> R s (with_heap (alter f t) s).
Hypothesis R_fieldHeap : forall s f, R s (with_fieldHeap f s).
Hypothesis R_slots : forall s f, R s (with_slots f s).
Hypothesis R_types : forall s f, R s (with_types f s).
Hypothesis R_postponed :
  forall s p, R s (with_postponedFields (fun l => l ++ [p]) s).
Hypothesis R_deleted : forall s f, R s (with_deleted f s).
Hypothesis R_held : forall s f, R s (with_held f s).
Hypothesis R_register :
  forall s n t, _typeMap s !! n = None -> R s (with_typeMap (insert n t) s).
Hypothesis W_set_outerNamespace : forall o, W (set_outerNamespace o).
Hypothesis W_set_sizeOf : forall n, W (set_sizeOf n).
Hypothesis W_set_modifiers : forall m, W (set_modifiers m).
Hypothesis W_blank_name : W (set_name "").
Hypothesis W_push_subUDT : forall u, W (push_subUDT u).
Hypothesis W_push_fieldMember : forall f, W (push_fieldMember f).
Hypothesis W_push_enumMember : forall m, W (push_enumMember m).

Lemma grows_write (t : TypeId) (f : Type_ -> Type_) :
  W f -> preserves R (write t f).
Proof. intros Hf s s' a [= _ <-]. by apply R_write. Qed.

Lemma grows_modify (f : PdbScanner -> PdbScanner) :
  (forall s, R s (f s)) -> preserves R (modify f).
Proof. intros Hf s s' a [= _ <-]. apply Hf. Qed.

Lemma grows_new (t : Type_) : preserves R (new_ t).
Proof. intros s s' a [= _ <-]. apply R_new. Qed.

Lemma grows_new_Field : preserves R new_Field.
Proof. intros s s' a [= _ <-]. apply R_fieldHeap. Qed.

(** One step of a proof that a body respects the relation. *)
Ltac grows_step :=
  lazymatch goal with
  | |- preserves R (bind _ _) => apply (keeps_bind R R_trans); [| intros ?]
  | |- preserves R (ret _) => apply (keeps_ret R R_refl)
  | |- preserves R (abort _) => apply keeps_abort
  | |- preserves R (gets _) => apply (keeps_gets R R_refl)
  | |- preserves R (read _ _) => apply (keeps_gets R R_refl)
  | |- preserves R (load _) => apply (keeps_gets R R_refl)
  | |- preserves R (isRegistered _) => apply (keeps_gets R R_refl)
  | |- preserves R (getFullName _) => apply (keeps_getFullName R R_refl)
  | |- preserves R (getBaseType _) => apply (keeps_gets R R_refl)
  | |- preserves R (whenOK _ _) => apply (keeps_whenOK R R_refl)
  | |- preserves R (deref _ _) => apply keeps_deref; intros ?
  | |- preserves R (addType _ _) =>
      apply (keeps_addType R R_refl R_trans R_types R_register)
  | |- preserves R (new_ _) => apply grows_new
  | |- preserves R new_Field => apply grows_new_Field
  | |- preserves R (delete _) => apply grows_modify; intros ?; apply R_deleted
  | |- preserves R (write _ _) => apply grows_write
  | |- preserves R (writeField _ _) =>
      apply grows_modify; intros ?; apply R_fieldHeap
  | |- preserves R (store _ _) => apply grows_modify; intros ?; apply R_slots
  | |- preserves R (postpone _ _) =>
      unfold postpone; apply grows_modify; intros ?; apply R_postponed
  | |- preserves R (modify (with_types _)) =>
      apply grows_modify; intros ?; apply R_types
  | |- preserves R (modify (with_held _)) =>
      apply grows_modify; intros ?; apply R_held
  | |- preserves R (match ?x with _ => _ end) => destruct x eqn:?
  | |- preserves R (let (_, _) := ?x in _) => destruct x eqn:?
  end.

Ltac grows := repeat grows_step; eauto.

Lemma grows_getType (n : string) : preserves R (getType n).
Proof. unfold getType. grows. Qed.

Lemma grows_setBaseType (typeSymbol : SymbolData) (type : Slot) :
  preserves R (setBaseType typeSymbol type).
Proof.
  unfold setBaseType, setBaseTypeUInt, setBaseTypeInt, setBaseTypeFloat.
  grows; apply grows_getType.
Qed.

Lemma grows_setMemberOffset (symbol : SymbolData) (newField : FieldId) :
  preserves R (setMemberOffset symbol newField).
Proof. unfold setMemberOffset. grows. Qed.

Lemma grows_getNamespaceFromName_loop (iterations : nat) (n : string) :
  forall (previousPos : nat) (outerNamespace : option TypeId),
    preserves R
      (getNamespaceFromName_loop iterations n previousPos outerNamespace).
Proof.
  induction iterations as [|iterations IH]; intros previousPos outerNamespace;
    simpl; grows; apply grows_getType.
Qed.

Lemma grows_getNamespaceFromName (n : string) (outerUDT : option TypeId) :
  preserves R (getNamespaceFromName n outerUDT).
Proof.
  unfold getNamespaceFromName. grows. apply grows_getNamespaceFromName_loop.
Qed.

Variable checkBlacklistedType : string -> bool.

Lemma grows_setTypeUDT (typeSymbol : Handle) (type : Slot)
    (outerUDT : option TypeId) :
  scan_preserves R (scan_of typeSymbol) ->
  preserves R (setTypeUDT typeSymbol type outerUDT).
Proof.
  intros (_ & Hclass & _). unfold setTypeUDT. grows.
Qed.

Lemma grows_setType (symbol : SymbolData) (typeSymbol : option Handle)
    (type : Slot) (modifiers : Modifiers) (outerUDT : option TypeId) :
  (forall h, typeSymbol = Some h -> scan_preserves R (scan_of h)) ->
  preserves R (setType symbol typeSymbol type modifiers outerUDT).
Proof.
  intros Hh. unfold setType.
  destruct typeSymbol as [h|]; [| apply keeps_abort].
  pose proof (Hh h eq_refl) as Hscan.
  pose proof Hscan as (_ & _ & Hset).
  grows; try apply grows_setTypeUDT; try apply grows_setBaseType;
    try apply grows_getType; eauto.
Qed.

Lemma grows_addFieldMember (symbol : SymbolData) (typeSymbol : option Handle)
    (udt : option TypeId) :
  (forall h, typeSymbol = Some h -> scan_preserves R (scan_of h)) ->
  preserves R (addFieldMember symbol typeSymbol udt).
Proof.
  intros Hh. unfold addFieldMember.
  grows; try apply grows_setMemberOffset; by apply grows_setType.
Qed.

Lemma grows_setSuperClassName (symbol : SymbolData) (newUDT : option TypeId) :
  preserves R (setSuperClassName symbol newUDT).
Proof. unfold setSuperClassName. grows. Qed.

Lemma grows_addEnumMembers_loop (childSymbols : list SymbolData)
    (enumUDT : TypeId) :
  forall rc, preserves R (addEnumMembers_loop childSymbols enumUDT rc).
Proof.
  induction childSymbols as [|c cs IH]; intros rc; simpl; grows.
Qed.

Lemma grows_addEnumMembers (symbol : IDiaSymbol) (enumUDT : TypeId) :
  preserves R (addEnumMembers symbol enumUDT).
Proof.
  unfold addEnumMembers. grows; apply grows_addEnumMembers_loop.
Qed.

Lemma grows_createEnumUDT (symbol : IDiaSymbol)
    (outerNamespace : option TypeId) :
  preserves R (createEnumUDT checkBlacklistedType symbol outerNamespace).
Proof.
  unfold createEnumUDT.
  grows; try apply (keeps_qualifiedBy R R_refl R_trans);
    try apply grows_getNamespaceFromName;
    try apply grows_addEnumMembers; try apply grows_getType.
Qed.

Lemma grows_createClassUDT (symbol : SymbolData) (children : list Handle)
    (outerUDT : option TypeId) :
  Forall (fun h => scan_preserves R (scan_of h)) children ->
  preserves R
    (createClassUDT checkBlacklistedType symbol children outerUDT).
Proof.
  intros Hchildren. unfold createClassUDT.
  grows; try apply (keeps_qualifiedBy R R_refl R_trans);
    try apply grows_getNamespaceFromName;
    try apply grows_getType;
    try apply (keeps_throughTypedefs R R_refl R_trans);
    by apply (keeps_addChildrenSymbols R R_refl R_trans).
Qed.

Lemma grows_createTypedef (symbol : IDiaSymbol) (typeSymbol : option Handle)
    (outerNamespace : option TypeId) :
  (forall h, typeSymbol = Some h -> scan_preserves R (scan_of h)) ->
  preserves R
    (createTypedef checkBlacklistedType symbol typeSymbol outerNamespace).
Proof.
  intros Hh. unfold createTypedef.
  grows; by apply grows_setType.
Qed.

Lemma grows_addSymbol (symbol : IDiaSymbol) (typeSymbol : option Handle)
    (children : list Handle) (outerNamespace : option TypeId) :
  (forall h, typeSymbol = Some h -> scan_preserves R (scan_of h)) ->
  Forall (fun h => scan_preserves R (scan_of h)) children ->
  preserves R
    (addSymbol checkBlacklistedType symbol typeSymbol children outerNamespace).
Proof.
  intros Hh Hchildren. unfold addSymbol.
  grows; first [ apply grows_createEnumUDT
               | by apply grows_createClassUDT
               | by apply grows_addFieldMember
               | apply grows_setSuperClassName
               | by apply grows_createTypedef ].
Qed.

Lemma grows_scan (symbol : IDiaSymbol) :
  scan_preserves R (scan checkBlacklistedType symbol).
Proof.
  induction symbol as [d type children IHtype IHchildren]
    using IDiaSymbol_tree_ind.
  assert (forall h,
            match type with
            | Some t => Some {| symbol_of := t;
                                scan_of := scan checkBlacklistedType t |}
            | None => None
            end = Some h -> scan_preserves R (scan_of h)) as Htype.
  { destruct type as [t|]; intros h [= <-]. by apply IHtype. }
  assert (Forall (fun h => scan_preserves R (scan_of h))
            (map (fun c => {| symbol_of := c;
                              scan_of := scan checkBlacklistedType c |})
               children)) as Hchildren.
  { apply Forall_map. exact IHchildren. }
  repeat split; intros; simpl.
  - by apply grows_addSymbol.
  - by apply grows_createClassUDT.
  - by apply grows_setType.
Qed.

Lemma grows_addChildrenSymbols_of (symbol : IDiaSymbol) (symTag : SymTagEnum)
    (outerNamespace : option TypeId) :
  preserves R
    (addChildrenSymbols_of checkBlacklistedType symbol symTag outerNamespace).
Proof.
  apply (keeps_addChildrenSymbols R R_refl R_trans).
  apply Forall_map, Forall_forall. intros c _. apply grows_scan.
Qed.

Lemma grows_scanFile (index : nat) (file : PdbFile) :
  preserves R (scanFile checkBlacklistedType index file).
Proof.
  pose proof grows_addChildrenSymbols_of as Hpass.
  unfold scanFile, loadDataFromPdb, hold, release.
  grows.
Qed.

Lemma grows_scanFiles (debugFiles : list PdbFile) :
  forall index, preserves R (scanFiles checkBlacklistedType index debugFiles).
Proof.
  induction debugFiles as [|file rest IH]; intros index; simpl; grows.
  apply grows_scanFile.
Qed.

End Growth.

(** *** The objects only grow *)

Lemma extends_set_outerNamespace (o : option TypeId) :
  extends (set_outerNamespace o).
Proof. intros x. simpl. by repeat split; try left. Qed.

Lemma extends_set_sizeOf (n : N) : extends (set_sizeOf n).
Proof. intros x. simpl. by repeat split; try left. Qed.

Lemma extends_set_modifiers (m : Modifiers) : extends (set_modifiers m).
Proof. intros x. simpl. by repeat split; try left. Qed.

Lemma extends_blank_name : extends (set_name "").
Proof. intros x. simpl. by repeat split; try right. Qed.

Lemma extends_push_subUDT (u : TypeId) : extends (push_subUDT u).
Proof.
  intros x. simpl. repeat split; try done; try by left.
  by apply prefix_app_r.
Qed.

Lemma extends_push_fieldMember (f : FieldId) : extends (push_fieldMember f).
Proof.
  intros x. simpl. repeat split; try done; try by left.
  by apply prefix_app_r.
Qed.

Lemma extends_push_enumMember (m : string) : extends (push_enumMember m).
Proof.
  intros x. simpl. repeat split; try done; try by left.
  by apply prefix_app_r.
Qed.

Lemma structure_grows_refl (s : PdbScanner) : structure_grows s s.
Proof. split; [done |]. intros t _. repeat split; try done. by left. Qed.

Lemma structure_grows_trans (s1 s2 s3 : PdbScanner) :
  structure_grows s1 s2 -> structure_grows s2 s3 -> structure_grows s1 s3.
Proof.
  intros [Hlen12 H12] [Hlen23 H23]. split; [lia |].
  intros t Ht.
  destruct (H12 t Ht) as (Hc & Hn & Hs & Hf & He).
  destruct (H23 t ltac:(lia)) as (Hc' & Hn' & Hs' & Hf' & He').
  split; [congruence |].
  split; [destruct Hn' as [-> | ->]; [exact Hn | by right] |].
  repeat split; by etrans.
Qed.

Lemma structure_grows_same (s s' : PdbScanner) :
  heap s' = heap s -> structure_grows s s'.
Proof. intros E. unfold structure_grows. rewrite E. apply structure_grows_refl. Qed.

Lemma structure_grows_new (s : PdbScanner) (t : Type_) :
  structure_grows s (with_heap (fun h => h ++ [t]) s).
Proof.
  split; [simpl; rewrite length_app; lia |].
  intros t0 Ht0. simpl. unfold at_.
  rewrite lookup_total_app_l by done. repeat split; try done. by left.
Qed.

Lemma structure_grows_write (s : PdbScanner) (t : TypeId)
    (f : Type_ -> Type_) :
  extends f -> structure_grows s (with_heap (alter f t) s).
Proof.
  intros Hf. split; [simpl; by rewrite length_alter |].
  intros t0 Ht0. simpl.
  destruct (decide (t = t0)) as [-> | Hne].
  - rewrite at_alter_eq by done. apply Hf.
  - rewrite at_alter_ne by done. repeat split; try done. by left.
Qed.

Lemma scan_structure_grows (checkBlacklistedType : string -> bool)
    (symbol : IDiaSymbol) :
  scan_preserves structure_grows (scan checkBlacklistedType symbol).
Proof.
  apply (grows_scan structure_grows extends);
    auto using structure_grows_refl, structure_grows_new,
      structure_grows_write, extends_set_outerNamespace, extends_set_sizeOf,
      extends_set_modifiers, extends_blank_name, extends_push_subUDT,
      extends_push_fieldMember, extends_push_enumMember;
    try (intros; by apply structure_grows_same).
  apply structure_grows_trans.
Qed.

(** X17: the scan of a batch of files only ever extends the objects it
    finds.  Every object that existed before is there afterwards, with
    the same class; its name is as it was or has been blanked; and its
    children, its fields and its enum members are still the first of its
    lists, in the same order: nothing is removed from a list, moved
    inside it or put in front of it. *)
Theorem scanFiles_only_extends_the_objects :
  forall (checkBlacklistedType : string -> bool) (debugFiles : list PdbFile)
         (index : nat) (s s' : PdbScanner) (rc : DDR_RC),
    scanFiles checkBlacklistedType index debugFiles s = Ret rc s' ->
    structure_grows s s'.
Proof.
  intros checkBlacklistedType debugFiles index s s' rc Hrun.
  refine (grows_scanFiles structure_grows extends _ _ _ _ _ _ _ _ _ _ _
            _ _ _ _ _ _ _ checkBlacklistedType debugFiles index s s' rc Hrun);
    auto using structure_grows_refl, structure_grows_new,
      structure_grows_write, extends_set_outerNamespace, extends_set_sizeOf,
      extends_set_modifiers, extends_blank_name, extends_push_subUDT,
      extends_push_fieldMember, extends_push_enumMember;
    try (intros; by apply structure_grows_same).
  apply structure_grows_trans.
Qed.

Lemma scanFiles_only_extends_the_objects_witness :
  structure_grows Scenarios.afterFooBar
    (Samples.stateAfter
       (scanFiles Samples.noBlacklist 1 [Samples.pdb [Scenarios.fooWithUnion]]
          Scenarios.afterFooBar)).
Proof.
  apply (scanFiles_only_extends_the_objects Samples.noBlacklist
           [Samples.pdb [Scenarios.fooWithUnion]] 1 Scenarios.afterFooBar _
           DDR_RC_OK).
  vm_compute. reflexivity.
Defined.

(** *** A class whose construction fails *)

Lemma scan_createClassUDT_unfold (checkBlacklistedType : string -> bool)
    (symbol : IDiaSymbol) (outerUDT : option TypeId) :
  createClassUDT_of checkBlacklistedType symbol outerUDT
  = createClassUDT checkBlacklistedType (data symbol)
      (map (handle checkBlacklistedType) (children symbol)) outerUDT.
Proof. by destruct symbol. Qed.

(** X18: a class that is built under an owner and whose children fail is
    deleted but stays in the child list of its owner.  For a class
    symbol whose name and size are read, that is not blacklisted and not
    registered under the name of the owner: when [createClassUDT] returns
    an error, the object it created is the one deleted last, and it is
    still among the children of the owner. *)
Theorem createClassUDT_failure_leaves_the_class_with_its_owner :
  forall (checkBlacklistedType : string -> bool) (symbol : IDiaSymbol)
         (outer : TypeId) (s s' : PdbScanner) (n : string) (size : N),
    get_symTag (data symbol) = Some SymTagUDT ->
    getName (data symbol) = (DDR_RC_OK, n) ->
    checkBlacklistedType n = false ->
    get_length (data symbol) = Some size ->
    outer < length (heap s) ->
    _typeMap s !! (_name (at_ (heap s) outer) +:+ "::" +:+ n) = None ->
    createClassUDT_of checkBlacklistedType symbol (Some outer) s
    = Ret DDR_RC_ERROR s' ->
    let classUDT := length (heap s) in
    classUDT ∈ _subUDTs (at_ (heap s') outer)
    /\ last (deleted s') = Some classUDT
    /\ classUDT < length (heap s').
Proof.
  intros checkBlacklistedType symbol outer s s' n size Htag Hname Hlisted
    Hsize Houter Hfree.
  rewrite scan_createClassUDT_unfold. unfold createClassUDT.
  rewrite Htag, Hname. simpl. rewrite Hlisted.
  unfold getSize. rewrite Hsize. simpl.
  unfold qualifiedBy, read, gets, bind at 1 2 3. unfold ret at 1.
  rewrite isRegistered_spec, Hfree.
  replace (StdString.empty _ || negb false || _) with true
    by (by rewrite orb_true_r).
  intros (r & s1 & [= <- <-] & E)%bind_inv.
  apply bind_inv in E as (classUDT & s2 & [= <- <-] & E).
  apply bind_inv in E as (u & s3 & [= _ <-] & E).
  apply bind_inv in E as (rc & s4 & Hchildren & E).
  assert (structure_grows
            (with_heap (alter (push_subUDT (length (heap s))) outer)
               (with_heap
                  (fun h => h ++ [set_outerNamespace (Some outer)
                                    (set_name n (newType ClassUDT size))]) s))
            s4) as [Hlen Hgrows].
  { refine (keeps_addChildrenSymbols structure_grows structure_grows_refl
              structure_grows_trans _ _ _ _ _ _ _ _ Hchildren).
    apply Forall_map, Forall_forall. intros c _. apply scan_structure_grows. }
  simpl in Hlen. rewrite length_alter, length_app in Hlen. simpl in Hlen.
  destruct rc.
  { apply bind_inv in E as (owner & s5 & _ & E).
    apply bind_inv in E as (u6 & s6 & _ & E). discriminate. }
  apply bind_inv in E as (u5 & s5 & [= _ <-] & E). injection E as <-.
  cbv zeta. simpl. rewrite last_snoc.
  split; [| split; [reflexivity | lia]].
  destruct (Hgrows outer) as (_ & _ & [later Hlater] & _).
  { simpl. rewrite length_alter, length_app. simpl. lia. }
  rewrite Hlater. simpl.
  rewrite at_alter_eq by (rewrite length_app; simpl; lia).
  simpl. rewrite <- app_assoc. apply elem_of_app. right.
  apply elem_of_app. left. apply list_elem_of_singleton. reflexivity.
Qed.

Lemma createClassUDT_failure_leaves_the_class_with_its_owner_witness :
  let s' := Samples.stateAfter
              (createClassUDT_of Samples.noBlacklist
                 MoreScenarios.closedClass (Some 35) MoreScenarios.afterFoo) in
  createClassUDT_of Samples.noBlacklist MoreScenarios.closedClass (Some 35)
    MoreScenarios.afterFoo = Ret DDR_RC_ERROR s'
  /\ length (heap MoreScenarios.afterFoo) ∈ _subUDTs (at_ (heap s') 35)
  /\ last (deleted s') = Some (length (heap MoreScenarios.afterFoo))
  /\ length (heap MoreScenarios.afterFoo) < length (heap s').
Proof.
  intros s'.
  assert (createClassUDT_of Samples.noBlacklist MoreScenarios.closedClass
            (Some 35) MoreScenarios.afterFoo = Ret DDR_RC_ERROR s') as Hrun
    by (vm_compute; reflexivity).
  split; [exact Hrun |].
  apply (createClassUDT_failure_leaves_the_class_with_its_owner
           Samples.noBlacklist MoreScenarios.closedClass 35
           MoreScenarios.afterFoo s' "Bar" 4).
  - reflexivity.
  - vm_compute. reflexivity.
  - reflexivity.
  - reflexivity.
  - vm_compute. lia.
  - vm_compute. reflexivity.
  - exact Hrun.
Defined.

(** *** A field that is added *)

(** What the relations of the scan need to be kept by every builder, for
    the objects. *)
Ltac structure_kept :=
  auto using structure_grows_refl, structure_grows_new,
    structure_grows_write, extends_set_outerNamespace, extends_set_sizeOf,
    extends_set_modifiers, extends_blank_name, extends_push_subUDT,
    extends_push_fieldMember, extends_push_enumMember;
  try (intros; by apply structure_grows_same);
  try apply structure_grows_trans.

(** X19: a data member that is added to a class becomes its last field.
    When the dispatcher returns success for a data symbol and a class,
    the field object it created is the last field of the class, behind
    the fields the class had, which are all still there in their order
    (and behind any field that the resolution of the member's type
    added). *)
Theorem addFieldMember_appends_the_field_last :
  forall (checkBlacklistedType : string -> bool) (symbol : IDiaSymbol)
         (udt : TypeId) (s s' : PdbScanner),
    get_symTag (data symbol) = Some SymTagData ->
    udt < length (heap s) ->
    addSymbol_of checkBlacklistedType symbol (Some udt) s
    = Ret DDR_RC_OK s' ->
    exists between : list FieldId,
      _fieldMembers (at_ (heap s') udt)
      = _fieldMembers (at_ (heap s) udt) ++ between
        ++ [length (fieldHeap s)].
Proof.
  intros checkBlacklistedType symbol udt s s' Htag Hudt.
  unfold addSymbol_of. destruct symbol as [d ty children]. simpl in *.
  unfold addSymbol. simpl. rewrite Htag. unfold addFieldMember.
  intros (newField & s1 & [= <- <-] & E)%bind_inv.
  destruct (getName d) as [rc0 fieldName].
  apply bind_inv in E as (u2 & s2 & [= _ <-] & E).
  apply bind_inv in E as (rc3 & s3 & Hoffset & E).
  apply bind_inv in E as (rc4 & s4 & Htype & E).
  simpl in E. destruct rc4; [| discriminate].
  apply bind_inv in E as (u5 & s5 & [= _ <-] & E). injection E as <-.
  destruct rc3; [| discriminate].
  apply bind_inv in Htype as ([rc6 modifiers] & s6 & HsetType & Htype).
  apply bind_inv in Htype as (u7 & s7 & [= _ <-] & [= -> <-]).
  assert (structure_grows s s3) as [Hlen3 Hgrows3].
  { apply (structure_grows_trans _
             (with_fieldHeap (alter (set_fieldName fieldName)
                                (length (fieldHeap s)))
                (with_fieldHeap (fun h => h ++ [newField]) s)));
      [by apply structure_grows_same |].
    revert Hoffset. apply (keeps_whenOK structure_grows structure_grows_refl).
    apply (grows_setMemberOffset structure_grows); structure_kept. }
  assert (structure_grows s3 s6) as [Hlen6 Hgrows6].
  { revert HsetType.
    apply (grows_setType structure_grows extends); structure_kept.
    destruct ty as [t|]; intros h [= <-]. apply scan_structure_grows. }
  destruct (Hgrows3 udt Hudt) as (_ & _ & _ & [between3 Hfields3] & _).
  destruct (Hgrows6 udt ltac:(lia)) as (_ & _ & _ & [between6 Hfields6] & _).
  exists (between3 ++ between6). simpl.
  rewrite at_alter_eq by lia. simpl.
  by rewrite Hfields6, Hfields3, <- !app_assoc.
Qed.

Lemma addFieldMember_appends_the_field_last_witness :
  let s' := Samples.stateAfter
              (addSymbol_of Samples.noBlacklist
                 MoreScenarios.matrixOfPointers (Some 35)
                 MoreScenarios.afterFoo) in
  addSymbol_of Samples.noBlacklist MoreScenarios.matrixOfPointers (Some 35)
    MoreScenarios.afterFoo = Ret DDR_RC_OK s'
  /\ exists between : list FieldId,
       _fieldMembers (at_ (heap s') 35)
       = _fieldMembers (at_ (heap MoreScenarios.afterFoo) 35) ++ between
         ++ [length (fieldHeap MoreScenarios.afterFoo)].
Proof.
  intros s'.
  assert (addSymbol_of Samples.noBlacklist MoreScenarios.matrixOfPointers
            (Some 35) MoreScenarios.afterFoo = Ret DDR_RC_OK s') as Hrun
    by (vm_compute; reflexivity).
  split; [exact Hrun |].
  apply (addFieldMember_appends_the_field_last Samples.noBlacklist
           MoreScenarios.matrixOfPointers 35 MoreScenarios.afterFoo s').
  - reflexivity.
  - vm_compute. lia.
  - exact Hrun.
Defined.

(** ** Before the first file *)

(** X20: when [CoInitialize] fails, or the blacklist cannot be loaded,
    [startScan] returns the error with the base types registered and
    nothing else done: no file is opened, however many there are, and
    neither the patcher nor the renamer runs.  With no file to scan and
    nothing failing, it returns success and leaves exactly the registry
    of the base types. *)
Theorem startScan_before_the_first_file :
  forall (checkBlacklistedType : string -> bool) (coInitialize : bool)
         (loadBlacklist : option DDR_RC) (debugFiles : list PdbFile)
         (s : PdbScanner),
    exists s0 : PdbScanner,
      initBaseTypeList s = Ret tt s0
      /\ (coInitialize = false \/ loadBlacklist = Some DDR_RC_ERROR ->
          startScan checkBlacklistedType coInitialize loadBlacklist
            debugFiles s = Ret DDR_RC_ERROR s0)
      /\ startScan checkBlacklistedType true None [] emptyScanner
         = Ret DDR_RC_OK Samples.initialised.
Proof.
  intros checkBlacklistedType coInitialize loadBlacklist debugFiles s.
  destruct (forEach_initBaseType baseTypeNames s) as (s0 & Hrun & _).
  rewrite <- initBaseTypeList_forEach in Hrun.
  exists s0. split; [exact Hrun |]. split.
  - intros Hfail. unfold startScan. erewrite bind_Ret by exact Hrun.
    destruct coInitialize; [| reflexivity].
    destruct Hfail as [Hfail | ->]; [discriminate | reflexivity].
  - vm_compute. reflexivity.
Qed.

(** ** After the renamer *)






(** ** Blacklisted declarations *)

(** X22: a blacklisted declaration leaves no trace.  For a class, an
    enum or a typedef whose name is read and is on the blacklist, the
    dispatcher returns success at once and the scanner is as it was:
    nothing is created, registered, linked or postponed, and the children
    of the declaration are not looked at. *)
Theorem blacklisted_declaration_leaves_no_trace :
  forall (checkBlacklistedType : string -> bool) (symbol : IDiaSymbol)
         (outerNamespace : option TypeId) (s : PdbScanner) (n : string),
    get_symTag (data symbol) = Some SymTagUDT
    \/ get_symTag (data symbol) = Some SymTagEnum_
    \/ get_symTag (data symbol) = Some SymTagTypedef ->
    getName (data symbol) = (DDR_RC_OK, n) ->
    checkBlacklistedType n = true ->
    addSymbol_of checkBlacklistedType symbol outerNamespace s
    = Ret DDR_RC_OK s.
Proof.
  intros checkBlacklistedType symbol outerNamespace s n Htag Hname Hlisted.
  unfold addSymbol_of. destruct symbol as [d ty children]. simpl in *.
  unfold addSymbol. simpl.
  destruct Htag as [Htag | [Htag | Htag]]; rewrite Htag.
  - unfold createClassUDT. by rewrite Htag, Hname, Hlisted.
  - unfold createEnumUDT. simpl. by rewrite Htag, Hname, Hlisted.
  - destruct outerNamespace; [reflexivity |].
    unfold createTypedef, bind. simpl. by rewrite Hname, Hlisted.
Qed.

Lemma blacklisted_declaration_leaves_no_trace_witness :
  addSymbol_of (fun n => bool_decide (n = "Foo"))
    (Samples.udt "Foo" 8 [Samples.udt "Bar" 4 []]) None Samples.initialised
  = Ret DDR_RC_OK Samples.initialised.
Proof.
  apply (blacklisted_declaration_leaves_no_trace
           (fun n => bool_decide (n = "Foo"))
           (Samples.udt "Foo" 8 [Samples.udt "Bar" 4 []]) None
           Samples.initialised "Foo").
  - left. reflexivity.
  - vm_compute. reflexivity.
  - vm_compute. reflexivity.
Defined.

(** ** A namespace named like its owner *)

Lemma getNamespaceFromName_loop_unfold (iterations : nat) (n : string)
    (previousPos : nat) (outerNamespace : option TypeId) :
  getNamespaceFromName_loop iterations n previousPos outerNamespace
  = match StdString.find n "::" previousPos with
    | None => ret (StdString.substr_from n previousPos, outerNamespace)
    | Some pos =>
        match iterations with
        | O => abort Nontermination
        | S iterations' =>
            let namespaceName :=
              StdString.substr n previousPos (pos - previousPos) in
            let* found := getType namespaceName in
            let* ns :=
              match found with
              | Some ns => ret ns
              | None =>
                  let* ns := new_ (set_outerNamespace outerNamespace
                                     (set_name namespaceName
                                        (newType ClassUDT 0))) in
                  let* _ := addType ns (bool_decide (previousPos = 0)) in
                  ret ns
              end in
            let* nsOuter := read ns _outerNamespace in
            let* _ :=
              match outerNamespace, nsOuter with
              | Some outer, None =>
                  let* _ := write ns (set_outerNamespace outerNamespace) in
                  let* _ := write outer (push_subUDT ns) in
                  let* types := gets _types in
                  if bool_decide (ns ∈ types)
                  then modify (with_types (remove_erase ns))
                  else ret tt
              | _, _ => ret tt
              end in
            getNamespaceFromName_loop iterations' n (pos + 2) (Some ns)
        end
    end.
Proof. by destruct iterations. Qed.

(** An owner that is its own owner has no name that [getUDTname] could
    return, whatever the depth allowed. *)
Lemma getUDTname_of_its_own_owner (steps : nat) (u : TypeId)
    (s : PdbScanner) :
  _outerNamespace (at_ (heap s) u) = Some u ->
  getUDTname steps u s = Abort Nontermination.
Proof.
  intros Hself. induction steps as [|steps IH]; simpl;
    unfold bind at 1; unfold read at 1, gets; rewrite Hself; [reflexivity |].
  unfold bind. by rewrite IH.
Qed.

(** X23: a qualified name whose first two segments are the same name,
    not yet registered, makes the resolver build a container that owns
    itself.  The container is created and registered for the first
    segment; for the second segment the registry answers that same
    container, which has no owner yet, so it becomes its own owner and
    its own child and is taken out of the root list again.
    [getUDTname] has no result for it, at any depth. *)
Theorem getNamespaceFromName_makes_a_container_own_itself :
  forall (qualified c : string) (p1 p2 : nat) (s : PdbScanner),
    StdString.find qualified "::" 0 = Some p1 ->
    StdString.substr qualified 0 p1 = c ->
    StdString.find qualified "::" (p1 + 2) = Some p2 ->
    StdString.substr qualified (p1 + 2) (p2 - (p1 + 2)) = c ->
    StdString.find qualified "::" (p2 + 2) = None ->
    c <> "" ->
    _typeMap s !! c = None ->
    let container := length (heap s) in
    exists s' : PdbScanner,
      getNamespaceFromName qualified None s
      = Ret (StdString.substr_from qualified (p2 + 2), Some container) s'
      /\ _typeMap s' !! c = Some container
      /\ _outerNamespace (at_ (heap s') container) = Some container
      /\ _subUDTs (at_ (heap s') container) = [container]
      /\ _types s' = remove_erase container (_types s ++ [container])
      /\ forall steps : nat,
           getUDTname steps container s' = Abort Nontermination.
Proof.
  intros qualified c p1 p2 s Hfind1 Hc1 Hfind2 Hc2 Hfind3 Hc Hfree.
  cbv zeta. unfold getNamespaceFromName.
  pose proof (index_bounds _ _ _ _ Hfind1) as [_ Hlen1].
  pose proof (index_bounds _ _ _ _ Hfind2) as [Hp2 Hlen2].
  simpl in Hlen1, Hlen2.
  destruct (String.length qualified) as [|[|fuel]] eqn:Efuel; [lia | lia |].
  rewrite getNamespaceFromName_loop_unfold, Hfind1. cbv zeta.
  rewrite Nat.sub_0_r, Hc1.
  erewrite bind_Ret by (by apply getType_spec).
  rewrite Hfree.
  set (node := set_outerNamespace None (set_name c (newType ClassUDT 0))).
  set (s1 := with_heap (fun h => h ++ [node]) s).
  set (s2 := with_typeMap (insert c (length (heap s)))
               (with_types (fun l => l ++ [length (heap s)]) s1)).
  assert (at_ (heap s ++ [node]) (length (heap s)) = node) as Hat1.
  { unfold at_. by rewrite list_lookup_total_middle. }
  assert (addType (length (heap s)) (bool_decide (0 = 0)) s1 = Ret tt s2)
    as Hadd.
  { rewrite (addType_run _ _ _ c).
    - simpl. rewrite Hfree. by destruct c.
    - change (heap s1) with (heap s ++ [node]).
      rewrite getFullName_from_no_owner by (by rewrite Hat1).
      by rewrite Hat1. }
  assert ((let* ns := new_ node in
           let* _ := addType ns (bool_decide (0 = 0)) in ret ns) s
          = Ret (length (heap s)) s2) as Hcreate.
  { unfold bind at 1. unfold new_ at 1. fold s1.
    by erewrite bind_Ret by exact Hadd. }
  erewrite bind_Ret by exact Hcreate.
  unfold bind at 1. unfold read at 1, gets. unfold bind at 1. unfold ret at 1.
  (* the second segment *)
  rewrite getNamespaceFromName_loop_unfold, Hfind2. cbv zeta. rewrite Hc2.
  erewrite bind_Ret by (by apply getType_spec).
  replace (_typeMap s2 !! c) with (Some (length (heap s)))
    by (simpl; by rewrite lookup_insert_eq).
  unfold bind at 1. unfold ret at 1.
  unfold bind at 1. unfold read at 1, gets.
  change (heap s2) with (heap s ++ [node]). rewrite Hat1.
  change (_outerNamespace node) with (@None TypeId).
  unfold bind at 1 2 3 4. unfold write, modify, gets. 
  rewrite bool_decide_eq_true_2
    by (simpl; apply elem_of_app; right; by apply list_elem_of_singleton).
  rewrite write_twice.
  (* no third segment *)
  rewrite getNamespaceFromName_loop_unfold, Hfind3.
  eexists. split; [reflexivity |].
  assert (length (heap s) < length (heap s ++ [node])) as Hin
    by (rewrite length_app; simpl; lia).
  simpl. rewrite lookup_insert_eq, at_alter_eq by exact Hin.
  rewrite Hat1.
  split; [reflexivity |]. split; [reflexivity |].
  split; [reflexivity |]. split; [reflexivity |].
  intros steps. apply getUDTname_of_its_own_owner.
  simpl. rewrite at_alter_eq by exact Hin. reflexivity.
Qed.

Lemma getNamespaceFromName_makes_a_container_own_itself_witness :
  let container := length (heap Samples.initialised) in
  exists s' : PdbScanner,
    getNamespaceFromName "N::N::X" None Samples.initialised
    = Ret (StdString.substr_from "N::N::X" (4 + 2), Some container) s'
    /\ _typeMap s' !! "N" = Some container
    /\ _outerNamespace (at_ (heap s') container) = Some container
    /\ _subUDTs (at_ (heap s') container) = [container]
    /\ _types s'
       = remove_erase container (_types Samples.initialised ++ [container])
    /\ forall steps : nat,
         getUDTname steps container s' = Abort Nontermination.
Proof.
  apply (getNamespaceFromName_makes_a_container_own_itself "N::N::X" "N" 1 4
           Samples.initialised).
  - vm_compute. reflexivity.
  - vm_compute. reflexivity.
  - vm_compute. reflexivity.
  - vm_compute. reflexivity.
  - vm_compute. reflexivity.
  - discriminate.
  - vm_compute. reflexivity.
Defined.

(** ** The postponed references *)

Lemma postponed_grows_refl (s : PdbScanner) : postponed_grows s s.
Proof. by unfold postponed_grows. Qed.

Lemma postponed_grows_trans (s1 s2 s3 : PdbScanner) :
  postponed_grows s1 s2 -> postponed_grows s2 s3 -> postponed_grows s1 s3.
Proof. unfold postponed_grows. intros H12 H23. by etrans. Qed.

Lemma postponed_grows_same (s s' : PdbScanner) :
  _postponedFields s' = _postponedFields s -> postponed_grows s s'.
Proof. unfold postponed_grows. by intros ->. Qed.

(** X24: no postponed reference is ever dropped.  Whatever the files
    declare and whether their scan succeeds or fails, the references that
    were postponed before the scan of a batch of files are still the
    first of the list after it, in their order, followed by those the
    scan postponed: every one of them is there for the patcher. *)
Theorem scanFiles_keeps_every_postponed_reference :
  forall (checkBlacklistedType : string -> bool) (debugFiles : list PdbFile)
         (index : nat) (s s' : PdbScanner) (rc : DDR_RC),
    scanFiles checkBlacklistedType index debugFiles s = Ret rc s' ->
    postponed_grows s s'.
Proof.
  intros checkBlacklistedType debugFiles index s s' rc Hrun.
  refine (grows_scanFiles postponed_grows (fun _ => True) _ _ _ _ _ _ _ _ _
            _ _ _ _ _ _ _ _ _ checkBlacklistedType debugFiles index s s' rc
            Hrun);
    auto using postponed_grows_refl;
    try (intros; by apply postponed_grows_same);
    try apply postponed_grows_trans.
  intros s0 p. unfold postponed_grows. simpl. by apply prefix_app_r.
Qed.

Lemma scanFiles_keeps_every_postponed_reference_witness :
  postponed_grows Samples.initialised
    (Samples.stateAfter
       (scanFiles Samples.noBlacklist 0 [Scenarios.danglingField]
          Samples.initialised))
  /\ length (_postponedFields
               (Samples.stateAfter
                  (scanFiles Samples.noBlacklist 0 [Scenarios.danglingField]
                     Samples.initialised))) = 1.
Proof.
  split; [| vm_compute; reflexivity].
  apply (scanFiles_keeps_every_postponed_reference Samples.noBlacklist
           [Scenarios.danglingField] 0 Samples.initialised _ DDR_RC_OK).
  vm_compute. reflexivity.
Defined.
